(** * mkdocs-static-i18n: locale aware files ([mkdocs_static_i18n/struct.py])

    A shallow embedding of [Locale], [I18nFile] and [I18nFiles] together with
    the properties of the locale-aware path resolution.

    Conventions of the embedding.
    - Python [str] values are Rocq [string]s (a text is its UTF-8 byte
      sequence; every character the code inspects, ['.'] and ['/'], is ASCII).
    - The host is POSIX: [os.path.sep] is ["/"], [pathlib.Path] is a
      [PurePosixPath] as far as parsing goes.
    - [pathlib] follows CPython 3.6 - 3.11 ([suffix], [suffixes],
      [with_suffix], [relative_to], [/]); [urllib.parse.quote] follows
      CPython 3.7+ (['~'] is unreserved).
    - A raised exception is the [Raise] side of [Result]; the texts of the
      [ValueError]s of [pathlib] vary with the version and are indicative.
    - Locales are strings: a call that passes [None] for a locale is not
      modelled. *)

From Stdlib Require Import String Ascii List Bool Arith Lia.
Import ListNotations.
Open Scope list_scope.
Open Scope string_scope.

Set Implicit Arguments.

(** ** Exceptions *)

Inductive exn : Type :=
| ValueError (msg : string)
| ValidationError (msg : string).

Inductive Result (A : Type) : Type :=
| Ok (a : A)
| Raise (e : exn).

Arguments Ok {A} a.
Arguments Raise {A} e.

Definition bind {A B : Type} (m : Result A) (k : A -> Result B) : Result B :=
  match m with
  | Ok a => k a
  | Raise e => Raise e
  end.

Notation "x <- m ;; k" := (bind m (fun x => k))
  (at level 61, m at next level, right associativity).

(** ** Python string primitives *)

Module Str.

(** [s[:n]] *)
Fixpoint take (n : nat) (s : string) : string :=
  match n, s with
  | S n', String a s' => String a (take n' s')
  | _, _ => ""
  end.

(** [s[n:]] *)
Fixpoint drop (n : nat) (s : string) : string :=
  match n, s with
  | S n', String _ s' => drop n' s'
  | _, _ => s
  end.

(** [s.rfind(c)]; [None] stands for [-1]. *)
Fixpoint rfind (c : ascii) (s : string) : option nat :=
  match s with
  | "" => None
  | String a s' =>
      match rfind c s' with
      | Some i => Some (S i)
      | None => if Ascii.eqb a c then Some 0 else None
      end
  end.

(** [c in s] *)
Fixpoint contains (c : ascii) (s : string) : bool :=
  match s with
  | "" => false
  | String a s' => Ascii.eqb a c || contains c s'
  end.

(** [s.split(c)] for a one character separator. *)
Fixpoint split (c : ascii) (s : string) : list string :=
  match s with
  | "" => [""]
  | String a s' =>
      if Ascii.eqb a c then "" :: split c s'
      else match split c s' with
           | h :: t => String a h :: t
           | [] => [String a ""]
           end
  end.

(** [s.lstrip(c)] *)
Fixpoint lstrip (c : ascii) (s : string) : string :=
  match s with
  | "" => ""
  | String a s' => if Ascii.eqb a c then lstrip c s' else s
  end.

(** [s.rstrip(c)] *)
Fixpoint rstrip (c : ascii) (s : string) : string :=
  match s with
  | "" => ""
  | String a s' =>
      match rstrip c s' with
      | "" => if Ascii.eqb a c then "" else String a ""
      | r => String a r
      end
  end.

(** [s.startswith(c)] and [s.endswith(c)] for a one character [c]. *)
Definition startswith (c : ascii) (s : string) : bool :=
  match s with
  | "" => false
  | String a _ => Ascii.eqb a c
  end.

Fixpoint endswith (c : ascii) (s : string) : bool :=
  match s with
  | "" => false
  | String a "" => Ascii.eqb a c
  | String _ s' => endswith c s'
  end.

(** [s.replace(a, b)] for one character [a] and [b]. *)
Fixpoint replace (a b : ascii) (s : string) : string :=
  match s with
  | "" => ""
  | String x s' => String (if Ascii.eqb x a then b else x) (replace a b s')
  end.

(** [sep.join(l)] *)
Definition join (sep : string) (l : list string) : string := String.concat sep l.

(** [c * n] *)
Fixpoint repeat (c : ascii) (n : nat) : string :=
  match n with
  | 0 => ""
  | S n' => String c (repeat c n')
  end.

(** [bool(s)] *)
Definition truthy (s : string) : bool := negb (s =? "").

End Str.

(** ** [os.path] (posixpath) *)

Module OsPath.

Definition sep : ascii := "/"%char.

(** [os.path.split(p)] *)
Definition split (p : string) : string * string :=
  let i := match Str.rfind sep p with Some i => S i | None => 0 end in
  let head := Str.take i p in
  let tail := Str.drop i p in
  let head' :=
    if Str.truthy head && negb (head =? Str.repeat sep (String.length head))
    then Str.rstrip sep head
    else head in
  (head', tail).

(** One step of the loop of [os.path.join(a, *p)]. *)
Definition join_step (path b : string) : string :=
  if Str.startswith sep b then b
  else if negb (Str.truthy path) || Str.endswith sep path then path ++ b
  else path ++ String sep b.

(** [os.path.join(a, *p)] *)
Definition join (a : string) (p : list string) : string :=
  fold_left join_step p a.

(** The component stack of [os.path.normpath]; [new_comps] is kept reversed. *)
Fixpoint normpath_comps (initial_slashes : nat) (comps new_comps : list string)
  : list string :=
  match comps with
  | [] => rev new_comps
  | comp :: rest =>
      if (comp =? "") || (comp =? ".") then
        normpath_comps initial_slashes rest new_comps
      else if negb (comp =? "..")
              || (Nat.eqb initial_slashes 0 && match new_comps with [] => true | _ => false end)
              || match new_comps with last :: _ => last =? ".." | [] => false end
      then normpath_comps initial_slashes rest (comp :: new_comps)
      else normpath_comps initial_slashes rest (tl new_comps)
  end.

(** [os.path.normpath(path)] *)
Definition normpath (path : string) : string :=
  if path =? "" then "."
  else
    let initial_slashes :=
      if Str.startswith sep path then
        if String.prefix "//" path && negb (String.prefix "///" path) then 2 else 1
      else 0 in
    let comps := normpath_comps initial_slashes (Str.split sep path) [] in
    let path' := Str.repeat sep initial_slashes ++ Str.join "/" comps in
    if path' =? "" then "." else path'.

End OsPath.

(** ** [pathlib.PurePosixPath] *)

(** A parsed path: [root] is [""], ["/"] or ["//"], [parts] are the components
    after the root (CPython keeps the root as the first element of [_parts];
    here it is kept apart). *)
Record Path : Type := mkPath { root : string; parts : list string }.

Module Pathlib.

(** [_PosixFlavour.splitroot] *)
Definition splitroot (part : string) : string * string :=
  if Str.startswith OsPath.sep part then
    let stripped_part := Str.lstrip OsPath.sep part in
    if Nat.eqb (String.length part - String.length stripped_part) 2
    then ("//", stripped_part)
    else ("/", stripped_part)
  else ("", part).

(** [Path(s)] for a string [s] ([parse_parts]: empty and ["."] components are
    dropped, [".."] is kept). *)
Definition of_str (s : string) : Path :=
  let '(r, rel) := splitroot s in
  mkPath r (filter (fun x => Str.truthy x && negb (x =? "."))
                   (Str.split OsPath.sep rel)).

(** [str(p)] *)
Definition to_str (p : Path) : string :=
  let s := root p ++ Str.join "/" (parts p) in
  if Str.truthy s then s else ".".

(** [p.name] *)
Definition name (p : Path) : string := last (parts p) "".

(** [p.suffix] *)
Definition suffix (p : Path) : string :=
  let name := name p in
  match Str.rfind "." name with
  | Some i => if Nat.ltb 0 i && Nat.ltb i (String.length name - 1) then Str.drop i name else ""
  | None => ""
  end.

(** [p.stem] *)
Definition stem (p : Path) : string :=
  let name := name p in
  match Str.rfind "." name with
  | Some i => if Nat.ltb 0 i && Nat.ltb i (String.length name - 1) then Str.take i name else name
  | None => name
  end.

(** [p.suffixes] *)
Definition suffixes (p : Path) : list string :=
  let name := name p in
  if Str.endswith "." name then []
  else map (fun suffix => String "." suffix) (tl (Str.split "." (Str.lstrip "." name))).

(** [p.with_suffix(suffix)] *)
Definition with_suffix (p : Path) (suffix_ : string) : Result Path :=
  if Str.contains OsPath.sep suffix_ then
    Raise (ValueError ("Invalid suffix '" ++ suffix_ ++ "'"))
  else if (Str.truthy suffix_ && negb (Str.startswith "." suffix_)) || (suffix_ =? ".") then
    Raise (ValueError ("Invalid suffix '" ++ suffix_ ++ "'"))
  else
    let name := name p in
    if negb (Str.truthy name) then
      Raise (ValueError ("PosixPath('" ++ to_str p ++ "') has an empty name"))
    else
      let old_suffix := suffix p in
      let name' :=
        if negb (Str.truthy old_suffix) then name ++ suffix_
        else Str.take (String.length name - String.length old_suffix) name ++ suffix_ in
      Ok (mkPath (root p) (removelast (parts p) ++ [name'])%list).

(** [p.with_name(p.stem)] for a path with a name: [p] without its final
    suffix. *)
Definition strip_suffix (p : Path) : Path :=
  mkPath (root p) (removelast (parts p) ++ [stem p])%list.

(** [p / q] *)
Definition div (p q : Path) : Path :=
  if Str.truthy (root q) then q
  else mkPath (root p) (parts p ++ parts q)%list.

(** The list [relative_to] compares: drive, root, then the components. *)
Definition abs_parts (p : Path) : list string :=
  if Str.truthy (root p) then "" :: root p :: parts p else parts p.

Definition list_eqb (l1 l2 : list string) : bool :=
  if list_eq_dec string_dec l1 l2 then true else false.

Definition eqb (p q : Path) : bool :=
  (root p =? root q) && list_eqb (parts p) (parts q).

(** [p.relative_to(other)] *)
Definition relative_to (p other : Path) : Result Path :=
  let abs := abs_parts p in
  let to_abs := abs_parts other in
  let n := List.length to_abs in
  if (if Nat.eqb n 0 then Str.truthy (root p) else negb (list_eqb (firstn n abs) to_abs))
  then Raise (ValueError ("'" ++ to_str p ++ "' does not start with '"
                          ++ to_str other ++ "'"))
  else Ok (mkPath "" (skipn n abs)).

End Pathlib.

Notation "p </> q" := (Pathlib.div p q) (at level 40, left associativity).

(** ** [urllib.parse.quote] *)

Module Urllib.

Definition between (lo hi c : ascii) : bool :=
  Nat.leb (nat_of_ascii lo) (nat_of_ascii c) && Nat.leb (nat_of_ascii c) (nat_of_ascii hi).

(** [_ALWAYS_SAFE]: letters, digits and [_.-~]. *)
Definition always_safe (c : ascii) : bool :=
  between "A" "Z" c || between "a" "z" c || between "0" "9" c
  || Str.contains c "_.-~".

Definition hex_digit (n : nat) : ascii :=
  nth n (list_ascii_of_string "0123456789ABCDEF") "0"%char.

(** [Quoter.__missing__]: a safe byte stands for itself, any other is [%XX]. *)
Definition quoter (safe : string) (c : ascii) : string :=
  if always_safe c || Str.contains c safe then String c ""
  else String "%" (String (hex_digit (nat_of_ascii c / 16))
                          (String (hex_digit (nat_of_ascii c mod 16)) "")).

Fixpoint quote_from_bytes (safe : string) (bs : string) : string :=
  match bs with
  | "" => ""
  | String c bs' => quoter safe c ++ quote_from_bytes safe bs'
  end.

(** [quote(string)] with its default [safe='/'] *)
Definition quote (s : string) : string := quote_from_bytes "/" s.

End Urllib.

Definition urlquote : string -> string := Urllib.quote.

(** ** [mkdocs.structure.files.File], as far as [I18nFile] reads it *)

Module File.

Record t : Type := mk {
  page : option nat;
  src_path : string;
  abs_src_path : string;
  dest_path : string;
  abs_dest_path : string
}.

End File.

(** ** [class I18nFile(File)] *)

Module I18nFile.

Record t : Type := mk {
  page : option nat;
  docs_dir : string;
  site_dir : string;
  all_languages : list string;
  dest_language : string;
  initial_abs_src_path : string;
  initial_abs_dest_path : string;
  initial_dest_path : string;
  initial_src_path : string;
  locale_suffix : option string;
  name : string;
  src_path : string;
  abs_src_path : string;
  (** [None]: the attribute was never assigned *)
  dest_name : option Path;
  dest_path : string;
  abs_dest_path : string;
  url : string
}.

(** [bool(x)] for [x] a [str] or [None] *)
Definition truthy (x : option string) : bool :=
  match x with
  | Some s => Str.truthy s
  | None => false
  end.

(** [set(a) <= set(b)] *)
Definition set_le (a b : list string) : bool :=
  forallb (fun x => existsb (String.eqb x) b) a.

(** The property [suffix] *)
Definition suffix (initial_src_path : string) : string :=
  Pathlib.suffix (Pathlib.of_str initial_src_path).

(** [_is_localized_for] *)
Fixpoint _is_localized_for (all_languages : list string) (initial_src_path : string)
  : option string :=
  match all_languages with
  | [] => None
  | language :: rest =>
      let expected_suffixes := ["." ++ language; suffix initial_src_path] in
      if set_le expected_suffixes (Pathlib.suffixes (Pathlib.of_str initial_src_path))
      then Some language
      else _is_localized_for rest initial_src_path
  end.

(** The property [non_i18n_src_path] *)
Definition non_i18n_src_path (all_languages : list string) (initial_src_path : string)
  : Result Path :=
  match _is_localized_for all_languages initial_src_path with
  | None => Pathlib.with_suffix (Pathlib.of_str initial_src_path) ""
  | Some _ =>
      p <- Pathlib.with_suffix (Pathlib.of_str initial_src_path) "" ;;
      Pathlib.with_suffix p ""
  end.

(** [_get_stem] *)
Definition _get_stem (all_languages : list string) (initial_src_path : string)
  : Result string :=
  p <- non_i18n_src_path all_languages initial_src_path ;;
  Ok (if (Pathlib.name p =? "index") || (Pathlib.name p =? "README")
      then "index"
      else Pathlib.name p).

(** [_get_url]; [use_directory_urls] is [None], [True] or [False]. *)
Definition _get_url (use_directory_urls : option bool) (dest_language dest_path : string)
  : string :=
  let url := Str.replace OsPath.sep "/" dest_path in
  let '(dirname, filename) := OsPath.split url in
  let url :=
    if match use_directory_urls with Some true => true | _ => false end
       && (filename =? "index.html")
    then if dirname =? "" then "." else dirname ++ "/"
    else url in
  let url :=
    if Str.truthy dest_language
    then if url =? "." then dest_language ++ "/" else dest_language ++ "/" ++ url
    else url in
  urlquote url.

Section WithCollaborators.

(** [Path.exists], the filesystem at resolution time *)
Variable exists_ : Path -> bool.

(** The inherited [File.is_documentation_page], as a function of the file's
    current [src_path] *)
Variable is_documentation_page : string -> bool.

(** [_get_dest_path]; [src_path] and [dest_name] are still [Path] objects
    when it runs. *)
Definition _get_dest_path (use_directory_urls : option bool)
  (src_path : Path) (name : string) (dest_name : Path) : string :=
  let '(parent, _) := OsPath.split (Pathlib.to_str src_path) in
  if is_documentation_page (Pathlib.to_str src_path) then
    if match use_directory_urls with Some false => true | _ => false end
       || (name =? "index")
    then OsPath.join parent [name ++ ".html"]
    else OsPath.join parent [name; "index.html"]
  else OsPath.join parent [Pathlib.to_str dest_name].

(** What an iteration of the search loop assigns before it breaks. *)
Record found : Type := mkFound {
  f_src_path : Path;
  f_abs_src_path : Path;
  f_locale_suffix : option string;
  f_dest_name : Path;
  f_dest_path : string;
  f_abs_dest_path : Path
}.

(** The body of the search loop for an [expected_path] that exists, up to its
    [break]. *)
Definition on_found (language docs_dir site_dir initial_src_path name : string)
  (use_directory_urls : option bool) (locale_suffix : option string)
  (expected_path : Path) : Result found :=
  src_path <- Pathlib.relative_to expected_path (Pathlib.of_str docs_dir) ;;
  let abs_src_path := Pathlib.of_str docs_dir </> src_path in
  dest_name <-
    (if truthy locale_suffix
     then Pathlib.with_suffix (Pathlib.of_str name) (suffix initial_src_path)
     else Pathlib.with_suffix (Pathlib.of_str name)
            (Str.join "" (Pathlib.suffixes (Pathlib.of_str initial_src_path)))) ;;
  let dest_path := _get_dest_path use_directory_urls src_path name dest_name in
  let abs_dest_path :=
    Pathlib.of_str site_dir </> Pathlib.of_str language </> Pathlib.of_str dest_path in
  Ok (mkFound src_path abs_src_path locale_suffix dest_name dest_path abs_dest_path).

(** The [for locale_suffix, expected_path in expected_paths] loop; [Ok None]
    is its [else] branch (no [break]). *)
Fixpoint find_src_path (language docs_dir site_dir initial_src_path name : string)
  (use_directory_urls : option bool) (expected_paths : list (option string * Path))
  : Result (option found) :=
  match expected_paths with
  | [] => Ok None
  | (locale_suffix, expected_path) :: rest =>
      if exists_ expected_path then
        f <- on_found language docs_dir site_dir initial_src_path name
               use_directory_urls locale_suffix expected_path ;;
        Ok (Some f)
      else
        find_src_path language docs_dir site_dir initial_src_path name
                      use_directory_urls rest
  end.

(** The three candidates of [__init__], with the locale each stands for. *)
Definition expected_paths (language default_language docs_dir : string)
  (non_i18n : Path) (suffix_ : string) : list (option string * Path) :=
  [ (Some language,
     Pathlib.of_str docs_dir
       </> Pathlib.of_str (Pathlib.to_str non_i18n ++ "." ++ language ++ suffix_));
    (Some default_language,
     Pathlib.of_str docs_dir
       </> Pathlib.of_str (Pathlib.to_str non_i18n ++ "." ++ default_language ++ suffix_));
    (None,
     Pathlib.of_str docs_dir
       </> Pathlib.of_str (Pathlib.to_str non_i18n ++ suffix_)) ].

(** The texts of the three candidates in the order [__init__] lists them,
    each with the locale it stands for: [stem] is the text of
    [non_i18n_src_path], [suffix_] the extension. *)
Definition candidates (language default_language stem suffix_ : string)
  : list (option string * string) :=
  [ (Some language, stem ++ "." ++ language ++ suffix_);
    (Some default_language, stem ++ "." ++ default_language ++ suffix_);
    (None, stem ++ suffix_) ].

(** [I18nFile.__init__] *)
Definition init (file_from : File.t) (language : string) (all_languages : list string)
  (default_language docs_dir site_dir : string) (use_directory_urls : option bool)
  : Result t :=
  let initial_src_path := File.src_path file_from in
  name <- _get_stem all_languages initial_src_path ;;
  non_i18n <- non_i18n_src_path all_languages initial_src_path ;;
  r <- find_src_path language docs_dir site_dir initial_src_path name use_directory_urls
         (expected_paths language default_language docs_dir non_i18n
                         (suffix initial_src_path)) ;;
  match r with
  | Some f =>
      Ok (mk (File.page file_from) docs_dir site_dir all_languages language
             (File.abs_src_path file_from) (File.abs_dest_path file_from)
             (File.dest_path file_from) initial_src_path
             (f_locale_suffix f) name
             (Pathlib.to_str (f_src_path f)) (Pathlib.to_str (f_abs_src_path f))
             (Some (f_dest_name f))
             (f_dest_path f) (Pathlib.to_str (f_abs_dest_path f))
             (_get_url use_directory_urls language (f_dest_path f)))
  | None =>
      Ok (mk (File.page file_from) docs_dir site_dir all_languages language
             (File.abs_src_path file_from) (File.abs_dest_path file_from)
             (File.dest_path file_from) initial_src_path
             None name
             (File.src_path file_from) (File.abs_src_path file_from)
             None
             (File.dest_path file_from) (File.abs_dest_path file_from)
             (_get_url use_directory_urls language (File.dest_path file_from)))
  end.

End WithCollaborators.

End I18nFile.

(** ** [class I18nFiles(Files)] *)

Module I18nFiles.

(** The collection: the inherited list [_files] and the two attributes its
    owner sets, [locale] and [default_locale]. *)
Record t : Type := mk {
  _files : list I18nFile.t;
  locale : string;
  default_locale : string
}.

(** [append] *)
Definition append (self : t) (file : I18nFile.t) : t :=
  if existsb (fun inside_file =>
                I18nFile.dest_path inside_file =? I18nFile.dest_path file)
             (_files self)
  then self
  else mk (_files self ++ [file])%list (locale self) (default_locale self).

(** A Python [dict] with string keys: an association list in insertion order;
    writing an existing key keeps its position and replaces its value. *)
Definition dict (A : Type) : Type := list (string * A).

Fixpoint dict_set {A : Type} (k : string) (v : A) (d : dict A) : dict A :=
  match d with
  | [] => [(k, v)]
  | (k', v') :: d' => if k' =? k then (k, v) :: d' else (k', v') :: dict_set k v d'
  end.

Fixpoint dict_get {A : Type} (k : string) (d : dict A) : option A :=
  match d with
  | [] => None
  | (k', v) :: d' => if k' =? k then Some v else dict_get k d'
  end.

Definition dict_keys {A : Type} (d : dict A) : list string := map fst d.

(** Modelled from the spec: the inherited [src_paths] of the base class
    [Files] (mkdocs, not a file of this repository), the members keyed by
    their source path: [{file.src_path: file for file in self._files}]. *)
Definition src_paths (self : t) : dict I18nFile.t :=
  fold_left (fun d file => dict_set (I18nFile.src_path file) file d) (_files self) [].

(** The list [expected_src_paths] both lookups build. *)
Definition expected_src_paths (self : t) (path : string) : Result (list Path) :=
  let expected_src_path := Pathlib.of_str path in
  p1 <- Pathlib.with_suffix expected_src_path
          ("." ++ locale self ++ Pathlib.suffix expected_src_path) ;;
  p2 <- Pathlib.with_suffix expected_src_path
          ("." ++ default_locale self ++ Pathlib.suffix expected_src_path) ;;
  Ok [p1; p2; expected_src_path].

(** [Path(s) in expected_src_paths] *)
Definition path_in (expected : list Path) (s : string) : bool :=
  existsb (Pathlib.eqb (Pathlib.of_str s)) expected.

(** [__contains__]: [any] of the source paths that pass the filter (a source
    path counts when it is a true value, that is not empty). *)
Definition contains (self : t) (path : string) : Result bool :=
  expected <- expected_src_paths self path ;;
  Ok (existsb Str.truthy (filter (path_in expected) (dict_keys (src_paths self)))).

(** [get_file_from_path]: the loop returns at its first iteration; without
    an iteration the method returns [None]. *)
Definition get_file_from_path (self : t) (path : string) : Result (option I18nFile.t) :=
  expected <- expected_src_paths self path ;;
  match filter (path_in expected) (dict_keys (src_paths self)) with
  | src_path :: _ => Ok (dict_get (OsPath.normpath src_path) (src_paths self))
  | [] => Ok None
  end.

End I18nFiles.

(** ** [class Locale(Type)] *)

Module Locale.

(** The fragment of [re] the pattern uses. *)
Inductive regex : Type :=
| Bol                          (* ^ *)
| Eol                          (* $ *)
| Range (lo hi : ascii)        (* [lo-hi] *)
| Char (c : ascii)
| Cat (r1 r2 : regex)
| Or (r1 r2 : regex)
| Times (n : nat) (r : regex). (* r{n} *)

Definition newline : ascii := "010"%char.

(** Backtracking matcher in continuation style. [at_start] says whether the
    position is the start of the text. Without [re.MULTILINE], [^] matches at
    the start only and [$] at the end or just before a newline that ends the
    text. *)
Fixpoint rmatch (r : regex) (at_start : bool) (s : string)
  (k : bool -> string -> bool) : bool :=
  match r with
  | Bol => at_start && k at_start s
  | Eol => ((s =? "") || (s =? String newline "")) && k at_start s
  | Range lo hi =>
      match s with
      | String c s' => Urllib.between lo hi c && k false s'
      | "" => false
      end
  | Char c =>
      match s with
      | String c' s' => Ascii.eqb c' c && k false s'
      | "" => false
      end
  | Cat r1 r2 => rmatch r1 at_start s (fun b s' => rmatch r2 b s' k)
  | Or r1 r2 => rmatch r1 at_start s k || rmatch r2 at_start s k
  | Times n r' =>
      (fix loop (n : nat) (b : bool) (s : string) : bool :=
         match n with
         | 0 => k b s
         | S n' => rmatch r' b s (fun b' s' => loop n' b' s')
         end) n at_start s
  end.

(** [pattern.match(s)] as a truth value: a match that starts at position 0. *)
Definition re_match (r : regex) (s : string) : bool :=
  rmatch r true s (fun _ _ => true).

Definition lower : regex := Range "a" "z".
Definition upper : regex := Range "A" "Z".

(** [^[a-z]{2}_[A-Z]{2}$] and [^[a-z]{2}$] *)
Definition RE_TERRITORY : regex :=
  Cat Bol (Cat (Times 2 lower) (Cat (Char "_") (Cat (Times 2 upper) Eol))).
Definition RE_LANGUAGE : regex :=
  Cat Bol (Cat (Times 2 lower) Eol).

(** [RE_LOCALE = compile(r"(^[a-z]{2}_[A-Z]{2}$)|(^[a-z]{2}$)")] *)
Definition RE_LOCALE : regex := Or RE_TERRITORY RE_LANGUAGE.

(** A configuration value: a string, a mapping with string keys, or anything
    else. The values of a mapping ([V]) and the other shapes ([O]) are not
    looked into. *)
Inductive value (V O : Type) : Type :=
| VStr (s : string)
| VDict (d : list (string * V))
| VOther (o : O).

Arguments VStr {V O} s.
Arguments VDict {V O} d.
Arguments VOther {V O} o.

Definition message (v : string) : string :=
  "Language code values must be either ISO-639-1 lower case "
  ++ "or represented with they territory/region/county codes, "
  ++ "received '" ++ v ++ "' expected forms examples: 'en' or 'en_US'.".

(** [_validate_locale]; it returns [None]. *)
Definition _validate_locale (v : string) : Result unit :=
  if negb (re_match RE_LOCALE v)
  then Raise (ValidationError (message v))
  else Ok tt.

(** [for key in value: self._validate_locale(key)] *)
Fixpoint validate_keys {V : Type} (d : list (string * V)) : Result unit :=
  match d with
  | [] => Ok tt
  | (key, _) :: d' => _ <- _validate_locale key ;; validate_keys d'
  end.

Section WithBase.

Variables V O : Type.

(** The inherited [Type.run_validation] (mkdocs): it raises
    [ValidationError] with some message when the value is not of the
    configured type, and returns the value otherwise. [type_error v] is that
    message, [None] when the check passes. *)
Variable type_error : value V O -> option string.

Definition super_run_validation (v : value V O) : Result (value V O) :=
  match type_error v with
  | Some msg => Raise (ValidationError msg)
  | None => Ok v
  end.

(** [run_validation] *)
Definition run_validation (v : value V O) : Result (value V O) :=
  v <- super_run_validation v ;;
  _ <- (match v with VStr s => _validate_locale s | _ => Ok tt end) ;;
  _ <- (match v with VDict d => validate_keys d | _ => Ok tt end) ;;
  Ok v.

End WithBase.

End Locale.

(** * Vocabulary of the properties *)

(** ** Paths *)

(** A component of a parsed path: not empty, without separator. *)
Definition part_ok (x : string) : Prop := x <> "" /\ Str.contains OsPath.sep x = false.

Definition parts_ok (p : Path) : Prop := Forall part_ok (parts p).

(** What [with_suffix] accepts as a suffix. *)
Definition valid_suffix (s : string) : Prop :=
  Str.contains OsPath.sep s = false
  /\ (s = "" \/ (Str.startswith "." s = true /\ s <> ".")).

(** [os.path.join(parent, x)] for a [parent] without trailing separator and a
    relative [x]. *)
Definition under (parent x : string) : string :=
  if parent =? "" then x else parent ++ "/" ++ x.

(** ** The files a walker supplies *)

(** The source path has a final component: it names a file. *)
Definition names_a_file (src : string) : Prop :=
  Pathlib.name (Pathlib.of_str src) <> "".

(** The source path is relative (to [docs_dir]). *)
Definition is_relative (src : string) : Prop := root (Pathlib.of_str src) = "".

(** The file name does not begin with two dots. *)
Definition plain_name (src : string) : Prop :=
  String.prefix ".." (Pathlib.name (Pathlib.of_str src)) = false.

(** A locale that can stand in a file name. *)
Definition locale_ok (l : string) : Prop :=
  l <> "" /\ Str.contains OsPath.sep l = false.

(** ** The resolver *)

(** The logical stem: the initial path without its extension, and without the
    suffix before it when a locale is detected. *)
Definition logical_stem (all_languages : list string) (src : string) : Path :=
  match I18nFile._is_localized_for all_languages src with
  | None => Pathlib.strip_suffix (Pathlib.of_str src)
  | Some _ => Pathlib.strip_suffix (Pathlib.strip_suffix (Pathlib.of_str src))
  end.

(** The name for a logical stem: [index] and [README] are both [index]. *)
Definition stem_name (p : Path) : string :=
  if (Pathlib.name p =? "index") || (Pathlib.name p =? "README") then "index"
  else Pathlib.name p.

(** The suffix chain of the initial path, joined. *)
Definition suffix_chain (src : string) : string :=
  Str.join "" (Pathlib.suffixes (Pathlib.of_str src)).

(** The suffix the destination file name gets for a matched locale. *)
Definition dest_suffix (locale_suffix : option string) (src : string) : string :=
  if I18nFile.truthy locale_suffix then I18nFile.suffix src else suffix_chain src.

(** The suffix a name carries when read as a file name. *)
Definition own_suffix (name : string) : string := Pathlib.suffix (mkPath "" [name]).

(** The destination file name built on a match: the name, its own suffix
    replaced. *)
Definition dest_name_of (name src : string) (locale_suffix : option string) : Path :=
  mkPath "" [Pathlib.stem (mkPath "" [name]) ++ dest_suffix locale_suffix src].

(** What an iteration of the search assigns for the candidate text [c]. *)
Definition found_of (is_documentation_page : string -> bool)
  (use_directory_urls : option bool) (language docs_dir site_dir name src : string)
  (locale_suffix : option string) (c : string) : I18nFile.found :=
  let dest_path :=
    I18nFile._get_dest_path is_documentation_page use_directory_urls
      (Pathlib.of_str c) name (dest_name_of name src locale_suffix) in
  I18nFile.mkFound (Pathlib.of_str c) (Pathlib.of_str docs_dir </> Pathlib.of_str c)
    locale_suffix (dest_name_of name src locale_suffix) dest_path
    (Pathlib.of_str site_dir </> Pathlib.of_str language </> Pathlib.of_str dest_path).

(** The candidate a resolution selects: the first, in the order of
    [candidates], whose path under [docs_dir] exists. *)
Definition selected (exists_ : Path -> bool) (language default_language docs_dir : string)
  (all_languages : list string) (src : string) : option (option string * string) :=
  find (fun lc => exists_ (Pathlib.of_str docs_dir </> Pathlib.of_str (snd lc)))
       (I18nFile.candidates language default_language
          (Pathlib.to_str (logical_stem all_languages src)) (I18nFile.suffix src)).

(** The object [__init__] leaves for the outcome [r] of the search. *)
Definition file_of (file_from : File.t) (language : string) (all_languages : list string)
  (docs_dir site_dir : string) (use_directory_urls : option bool)
  (r : option I18nFile.found) : I18nFile.t :=
  let name := stem_name (logical_stem all_languages (File.src_path file_from)) in
  match r with
  | Some f =>
      I18nFile.mk (File.page file_from) docs_dir site_dir all_languages language
        (File.abs_src_path file_from) (File.abs_dest_path file_from)
        (File.dest_path file_from) (File.src_path file_from)
        (I18nFile.f_locale_suffix f) name
        (Pathlib.to_str (I18nFile.f_src_path f))
        (Pathlib.to_str (I18nFile.f_abs_src_path f))
        (Some (I18nFile.f_dest_name f))
        (I18nFile.f_dest_path f) (Pathlib.to_str (I18nFile.f_abs_dest_path f))
        (I18nFile._get_url use_directory_urls language (I18nFile.f_dest_path f))
  | None =>
      I18nFile.mk (File.page file_from) docs_dir site_dir all_languages language
        (File.abs_src_path file_from) (File.abs_dest_path file_from)
        (File.dest_path file_from) (File.src_path file_from)
        None name
        (File.src_path file_from) (File.abs_src_path file_from)
        None
        (File.dest_path file_from) (File.abs_dest_path file_from)
        (I18nFile._get_url use_directory_urls language (File.dest_path file_from))
  end.

(** ** URLs *)

(** The URL of a destination path before any locale prefix: separators
    become ["/"], and an [index.html] collapses to its directory under
    directory-style URLs. *)
Definition collapse_index (use_directory_urls : option bool) (dest_path : string)
  : string :=
  let url := Str.replace OsPath.sep "/" dest_path in
  if match use_directory_urls with Some true => true | _ => false end
     && (snd (OsPath.split url) =? "index.html")
  then if fst (OsPath.split url) =? "" then "." else fst (OsPath.split url) ++ "/"
  else url.

(** [<locale>/] before a URL; the root URL ["."] becomes [<locale>/]. *)
Definition prefixed (locale url : string) : string :=
  if url =? "." then locale ++ "/" else locale ++ "/" ++ url.

(** The URL with the prefix put unconditionally. *)
Definition always_prefixed_url (use_directory_urls : option bool)
  (locale dest_path : string) : string :=
  urlquote (prefixed locale (collapse_index use_directory_urls dest_path)).

(** The URL with the prefix put for a locale that is not empty. *)
Definition resolved_url (use_directory_urls : option bool)
  (locale dest_path : string) : string :=
  urlquote (if locale =? "" then collapse_index use_directory_urls dest_path
            else prefixed locale (collapse_index use_directory_urls dest_path)).

(** Every byte of [s] is unreserved in a URL. *)
Fixpoint all_safe (s : string) : bool :=
  match s with
  | "" => true
  | String c s' => (Urllib.always_safe c || Str.contains c "/") && all_safe s'
  end.

(** ** The collection *)

(** [l1] is [l2] with some elements left out, order kept. *)
Inductive subseq {A : Type} : list A -> list A -> Prop :=
| subseq_nil : subseq [] []
| subseq_skip (x : A) (l1 l2 : list A) : subseq l1 l2 -> subseq l1 (x :: l2)
| subseq_keep (x : A) (l1 l2 : list A) : subseq l1 l2 -> subseq (x :: l1) (x :: l2).

(** First insertion wins: of the files [fs], in order, those whose
    destination path is neither in [seen] nor taken by an earlier one. *)
Fixpoint keep_first (seen : list string) (fs : list I18nFile.t) : list I18nFile.t :=
  match fs with
  | [] => []
  | f :: fs' =>
      if existsb (String.eqb (I18nFile.dest_path f)) seen
      then keep_first seen fs'
      else f :: keep_first (I18nFile.dest_path f :: seen) fs'
  end.

Definition dest_paths (fs : list I18nFile.t) : list string := map I18nFile.dest_path fs.

(** The path [p] with [.<locale>] inserted before its extension. *)
Definition with_locale (l : string) (p : Path) : Path :=
  mkPath (root p)
         (removelast (parts p) ++ [(Pathlib.stem p ++ "." ++ l ++ Pathlib.suffix p)%string])%list.

(** The three forms of a queried path, in candidate order. *)
Definition forms (self : I18nFiles.t) (path : string) : list Path :=
  [ with_locale (I18nFiles.locale self) (Pathlib.of_str path);
    with_locale (I18nFiles.default_locale self) (Pathlib.of_str path);
    Pathlib.of_str path ].

(** The member a lookup by form priority designates: a member whose source
    path is the first form, in candidate order, that any member matches. *)
Definition matched_by_first_form (self : I18nFiles.t) (path : string) (f : I18nFile.t)
  : Prop :=
  exists before form after,
    forms self path = (before ++ form :: after)%list
    /\ In f (I18nFiles._files self)
    /\ Pathlib.of_str (I18nFile.src_path f) = form
    /\ forall g form', In g (I18nFiles._files self) -> In form' before ->
                       Pathlib.of_str (I18nFile.src_path g) <> form'.

(** ** Locale codes *)

(** Two lower case letters, optionally [_] and two upper case letters. *)
Definition locale_code (s : string) : Prop :=
  exists a b, Urllib.between "a" "z" a = true /\ Urllib.between "a" "z" b = true
    /\ (s = String a (String b "")
        \/ exists c d, Urllib.between "A" "Z" c = true /\ Urllib.between "A" "Z" d = true
             /\ s = String a (String b (String "_" (String c (String d ""))))).

(** ** Sample inputs *)

Module Sample.

(** A filesystem that holds exactly the files whose paths are listed. *)
Definition on_disk (files : list string) (p : Path) : bool :=
  existsb (String.eqb (Pathlib.to_str p)) files.

(** Modelled from the spec: the page test of mkdocs' [File] (not a file of this
    repository): a renderable page is a Markdown source. *)
Definition is_markdown (src_path : string) : bool :=
  existsb (String.eqb (Pathlib.suffix (Pathlib.of_str src_path)))
          [".markdown"; ".mdown"; ".mkdn"; ".mkd"; ".md"].

(** The file a walker reports for [src] with the destination [dest]. *)
Definition discovered (src dest : string) : File.t :=
  File.mk None src ("docs/" ++ src) dest ("site/" ++ dest).

(** A build for the locale [fr] with the default [en]. *)
Definition resolve (files : list string) (file_from : File.t) : Result I18nFile.t :=
  I18nFile.init (on_disk files) is_markdown file_from "fr" ["fr"; "en"] "en"
                "docs" "site" (Some true).

(** The same build for the site root, where the requested locale is empty. *)
Definition resolve_root (files : list string) (file_from : File.t) : Result I18nFile.t :=
  I18nFile.init (on_disk files) is_markdown file_from "" ["fr"; "en"] "en"
                "docs" "site" (Some true).

(** The files of the examples, as the walker reports them. *)
Definition intro : File.t := discovered "guide/intro.md" "guide/intro/index.html".
Definition intro_fr : File.t := discovered "guide/intro.fr.md" "guide/intro.fr/index.html".
Definition home : File.t := discovered "index.md" "index.html".
Definition archive : File.t := discovered "pkg.tar.gz" "pkg.tar.gz".
Definition script_fr : File.t := discovered "a.b.fr.js" "a.b.fr.js".

(** A member of a collection, given by its source and destination paths. *)
Definition member (src dest : string) : I18nFile.t :=
  I18nFile.mk None "docs" "site" ["fr"; "en"] "fr" ("docs/" ++ src) ("site/" ++ dest)
              dest src None "a" src ("docs/" ++ src) None dest ("site/fr/" ++ dest)
              ("fr/" ++ dest).

Definition empty_collection : I18nFiles.t := I18nFiles.mk [] "fr" "en".

(** A page and its French variant, both members, the page first. *)
Definition plain_page : I18nFile.t := member "a.md" "a/index.html".
Definition french_page : I18nFile.t := member "a.fr.md" "a.fr/index.html".
Definition two_variants : I18nFiles.t :=
  I18nFiles.mk [plain_page; french_page] "fr" "en".

End Sample.

(** * Further code of [struct.py] and vocabulary of its properties *)

(** ** [I18nFile.__repr__] *)

Module Repr.

(** Reading an attribute that was never assigned. *)
Inductive attribute_error : Type :=
| AttributeError (msg : string).

(** [f"{x}"] for [x] a [str] or [None] *)
Definition fmt (x : option string) : string :=
  match x with
  | Some s => s
  | None => "None"
  end.

(** [__repr__]: the f-string reads the attributes from [src_path] to [url];
    [dest_name] is the only one [__init__] may have left unassigned. *)
Definition __repr__ (self : I18nFile.t) : string + attribute_error :=
  match I18nFile.dest_name self with
  | None => inr (AttributeError "'I18nFile' object has no attribute 'dest_name'")
  | Some dest_name =>
      inl ("I18nFile(src_path='" ++ I18nFile.src_path self
           ++ "', abs_src_path='" ++ I18nFile.abs_src_path self
           ++ "', dest_path='" ++ I18nFile.dest_path self
           ++ "', abs_dest_path='" ++ I18nFile.abs_dest_path self
           ++ "', name='" ++ I18nFile.name self
           ++ "', locale_suffix='" ++ fmt (I18nFile.locale_suffix self)
           ++ "', dest_language='" ++ I18nFile.dest_language self
           ++ "', dest_name='" ++ Pathlib.to_str dest_name
           ++ "', url='" ++ I18nFile.url self ++ "')")
  end.

End Repr.

(** ** Vocabulary *)

(** Every character of [s] satisfies [p]. *)
Fixpoint all_chars (p : ascii -> bool) (s : string) : bool :=
  match s with
  | "" => true
  | String c s' => p c && all_chars p s'
  end.

(** A character that can stand in a percent-encoded URL: unreserved, [/] or
    [%]. *)
Definition url_char (c : ascii) : bool :=
  Urllib.always_safe c || Str.contains c "/%".

(** The text of a source path is the one [os.path.normpath] returns. *)
Definition normalised (f : I18nFile.t) : Prop :=
  OsPath.normpath (I18nFile.src_path f) = I18nFile.src_path f.

(** The source path of [f] is one of the three forms of the queried path. *)
Definition matches_query (self : I18nFiles.t) (path : string) (f : I18nFile.t) : Prop :=
  In (Pathlib.of_str (I18nFile.src_path f)) (forms self path).

Module Sample2.

(** A README, reported by the walker. *)
Definition readme : File.t := Sample.discovered "guide/README.md" "guide/index.html".

(** A build for [fr] with the directory URL flag as given. *)
Definition resolve_with (use_directory_urls : option bool) (files : list string)
  (file_from : File.t) : Result I18nFile.t :=
  I18nFile.init (Sample.on_disk files) Sample.is_markdown file_from "fr" ["fr"; "en"] "en"
                "docs" "site" use_directory_urls.

(** A collection with a member whose source path is not normalised. *)
Definition dotted_member : I18nFile.t := Sample.member "./a.md" "a/index.html".
Definition unnormalised : I18nFiles.t := I18nFiles.mk [dotted_member] "fr" "en".

End Sample2.

(** * Facts about the string primitives *)

Lemma take_drop (n : nat) (s : string) : Str.take n s ++ Str.drop n s = s.
Proof.
  revert s; induction n as [|n IH]; intros [|a s]; simpl; try reflexivity.
  now rewrite IH.
Qed.

Lemma length_append (s1 s2 : string) :
  String.length (s1 ++ s2) = String.length s1 + String.length s2.
Proof. induction s1; simpl; auto. Qed.

Lemma length_drop (n : nat) (s : string) :
  String.length (Str.drop n s) = String.length s - n.
Proof.
  revert s; induction n as [|n IH]; intros [|a s]; simpl; auto.
Qed.

Lemma length_take (n : nat) (s : string) :
  n <= String.length s -> String.length (Str.take n s) = n.
Proof.
  revert s; induction n as [|n IH]; intros [|a s]; simpl; intros; try lia.
  rewrite IH; lia.
Qed.

Lemma rfind_drop (c : ascii) (s : string) (i : nat) :
  Str.rfind c s = Some i ->
  i < String.length s /\ exists r, Str.drop i s = String c r.
Proof.
  revert i; induction s as [|a s IH]; simpl; intros i H; [discriminate|].
  destruct (Str.rfind c s) as [j|].
  - injection H as <-. destruct (IH j eq_refl) as [Hlt [r Hr]].
    split; [lia|]. exists r. exact Hr.
  - destruct (Ascii.eqb_spec a c) as [->|]; [|discriminate].
    injection H as <-. split; [lia|]. now exists s.
Qed.

Lemma contains_app (c : ascii) (s1 s2 : string) :
  Str.contains c (s1 ++ s2) = Str.contains c s1 || Str.contains c s2.
Proof.
  induction s1 as [|a s1 IH]; simpl; [reflexivity|].
  now rewrite IH, orb_assoc.
Qed.

Lemma contains_take (c : ascii) (n : nat) (s : string) :
  Str.contains c s = false -> Str.contains c (Str.take n s) = false.
Proof.
  intros H. rewrite <- (take_drop n s), contains_app in H.
  now apply orb_false_elim in H.
Qed.

Lemma contains_drop (c : ascii) (n : nat) (s : string) :
  Str.contains c s = false -> Str.contains c (Str.drop n s) = false.
Proof.
  intros H. rewrite <- (take_drop n s), contains_app in H.
  now apply orb_false_elim in H.
Qed.

Lemma contains_lstrip (c d : ascii) (s : string) :
  Str.contains d s = false -> Str.contains d (Str.lstrip c s) = false.
Proof.
  induction s as [|a s IH]; simpl; [reflexivity|].
  intros H. apply orb_false_elim in H as [Ha Hs].
  destruct (Ascii.eqb a c); [auto|]. simpl. now rewrite Ha, Hs.
Qed.

Lemma split_not_nil (c : ascii) (s : string) : Str.split c s <> [].
Proof.
  induction s as [|a s IH]; simpl; [discriminate|].
  destruct (Ascii.eqb a c); [discriminate|].
  destruct (Str.split c s); [contradiction|discriminate].
Qed.

Lemma split_no_sep (c : ascii) (s : string) :
  Str.contains c s = false -> Str.split c s = [s].
Proof.
  induction s as [|a s IH]; simpl; [reflexivity|].
  intros H. apply orb_false_elim in H as [Ha Hs].
  rewrite Ha, (IH Hs). reflexivity.
Qed.

Lemma split_contains (c d : ascii) (s x : string) :
  Str.contains d s = false -> In x (Str.split c s) -> Str.contains d x = false.
Proof.
  revert x; induction s as [|a s IH]; simpl; intros x H Hin.
  - destruct Hin as [<-|[]]. reflexivity.
  - apply orb_false_elim in H as [Ha Hs].
    destruct (Ascii.eqb a c).
    + destruct Hin as [<-|Hin]; [reflexivity|auto].
    + destruct (Str.split c s) as [|h t] eqn:E.
      * destruct Hin as [<-|[]]. simpl. now rewrite Ha.
      * destruct Hin as [<-|Hin].
        -- simpl. rewrite Ha. apply IH; [assumption|now left].
        -- apply IH; [assumption|now right].
Qed.

Lemma startswith_contains (c : ascii) (s : string) :
  Str.contains c s = false -> Str.startswith c s = false.
Proof.
  destruct s as [|a s]; simpl; [reflexivity|].
  intros H. now apply orb_false_elim in H.
Qed.

Lemma truthy_true (s : string) : Str.truthy s = true <-> s <> "".
Proof.
  unfold Str.truthy. rewrite negb_true_iff. apply String.eqb_neq.
Qed.

Lemma truthy_false (s : string) : Str.truthy s = false <-> s = "".
Proof.
  unfold Str.truthy. rewrite negb_false_iff. apply String.eqb_eq.
Qed.

Lemma split_sep_free (c : ascii) (s x : string) :
  In x (Str.split c s) -> Str.contains c x = false.
Proof.
  revert x; induction s as [|a s IH]; simpl; intros x Hin.
  - destruct Hin as [<-|[]]. reflexivity.
  - destruct (Ascii.eqb a c) eqn:Ea.
    + destruct Hin as [<-|Hin]; [reflexivity|auto].
    + destruct (Str.split c s) as [|h t] eqn:E.
      * destruct Hin as [<-|[]]. simpl. now rewrite Ea.
      * destruct Hin as [<-|Hin].
        -- simpl. rewrite Ea. apply IH. now left.
        -- apply IH. now right.
Qed.

Lemma endswith_cons (c a : ascii) (s : string) :
  s <> "" -> Str.endswith c (String a s) = Str.endswith c s.
Proof. destruct s; [congruence|reflexivity]. Qed.

Lemma split_last_empty (c : ascii) (s d : string) :
  last (Str.split c s) d = "" -> s = "" \/ Str.endswith c s = true.
Proof.
  induction s as [|a s IH]; [now left|]. right.
  cbn [Str.split] in H. destruct (Ascii.eqb a c) eqn:Ea.
  - destruct (Str.split c s) as [|h t] eqn:E; [now apply split_not_nil in E|].
    cbn [last] in H. destruct (IH H) as [->|He].
    + simpl. exact Ea.
    + rewrite endswith_cons; [exact He|]. intros ->. discriminate.
  - destruct (Str.split c s) as [|h t] eqn:E; [now apply split_not_nil in E|].
    destruct t as [|h' t]; [discriminate|].
    change (last (h :: h' :: t) d = "") in H.
    destruct (IH H) as [->|He]; [discriminate|].
    rewrite endswith_cons; [exact He|]. intros ->. discriminate.
Qed.

Lemma endswith_lstrip (c c' : ascii) (s : string) :
  Str.endswith c (Str.lstrip c' s) = true -> Str.endswith c s = true.
Proof.
  induction s as [|a s IH]; [discriminate|].
  cbn [Str.lstrip]. destruct (Ascii.eqb a c'); [|auto].
  intros H. rewrite endswith_cons; [auto|].
  intros ->. discriminate.
Qed.

Lemma join_contains (d : ascii) (sep : string) (l : list string) :
  Str.contains d sep = false ->
  (forall x, In x l -> Str.contains d x = false) ->
  Str.contains d (Str.join sep l) = false.
Proof.
  intros Hsep. unfold Str.join. induction l as [|a l IH]; intros H; [reflexivity|].
  destruct l as [|b l]; [apply H; now left|].
  change (Str.contains d (a ++ sep ++ String.concat sep (b :: l)) = false).
  rewrite !contains_app, Hsep, (H a (or_introl eq_refl)), IH; [reflexivity|].
  intros x Hx. apply H. now right.
Qed.

(** * Facts about [pathlib] *)

Lemma of_str_parts_ok (s : string) : parts_ok (Pathlib.of_str s).
Proof.
  unfold parts_ok, Pathlib.of_str. destruct (Pathlib.splitroot s) as [r rel].
  cbn [parts]. apply Forall_forall. intros x Hx.
  apply filter_In in Hx as [Hin Hx]. apply andb_prop in Hx as [Hx _].
  split; [now apply truthy_true|]. now apply split_sep_free in Hin.
Qed.

Lemma of_str_no_dot (s : string) : ~ In "." (parts (Pathlib.of_str s)).
Proof.
  unfold Pathlib.of_str. destruct (Pathlib.splitroot s) as [r rel]. cbn [parts].
  intros Hx. apply filter_In in Hx as [_ Hx]. apply andb_prop in Hx as [_ Hx].
  discriminate.
Qed.

Lemma name_in_parts (p : Path) : Pathlib.name p <> "" -> In (Pathlib.name p) (parts p).
Proof.
  unfold Pathlib.name. destruct (parts p) as [|a l] eqn:E; [simpl; congruence|].
  intros _. destruct (exists_last (l:=a :: l)) as [l' [x Hx]]; [discriminate|].
  rewrite Hx, last_last. apply in_or_app. right. now left.
Qed.

Lemma name_part_ok (p : Path) : parts_ok p -> Pathlib.name p <> "" -> part_ok (Pathlib.name p).
Proof.
  intros Hp Hn. unfold parts_ok in Hp. rewrite Forall_forall in Hp.
  apply Hp. now apply name_in_parts.
Qed.

Lemma name_snoc (r : string) (l : list string) (x : string) :
  Pathlib.name (mkPath r (l ++ [x])) = x.
Proof. unfold Pathlib.name. cbn [parts]. apply last_last. Qed.

(** The three shapes of a name: no suffix, or [stem ++ "." ++ r] with a stem
    and an [r] that are not empty. *)
Lemma suffix_cases (p : Path) :
  (Pathlib.suffix p = "" /\ Pathlib.stem p = Pathlib.name p)
  \/ (exists i r,
        0 < i /\ i < String.length (Pathlib.name p)
        /\ Pathlib.stem p = Str.take i (Pathlib.name p)
        /\ Pathlib.suffix p = String "." r /\ r <> ""
        /\ Str.drop i (Pathlib.name p) = String "." r).
Proof.
  unfold Pathlib.suffix, Pathlib.stem.
  destruct (Str.rfind "." (Pathlib.name p)) as [i|] eqn:E; [|now left].
  destruct (Nat.ltb_spec 0 i); [|now left].
  destruct (Nat.ltb_spec i (String.length (Pathlib.name p) - 1)); [|now left].
  cbn [andb]. right.
  destruct (rfind_drop _ _ E) as [Hlt [r Hr]].
  exists i, r. repeat split; try assumption.
  intros ->. pose proof (length_drop i (Pathlib.name p)) as Hl.
  rewrite Hr in Hl. simpl in Hl. lia.
Qed.

Lemma stem_suffix (p : Path) : Pathlib.stem p ++ Pathlib.suffix p = Pathlib.name p.
Proof.
  destruct (suffix_cases p) as [[-> ->]|(i & r & _ & _ & -> & -> & _ & <-)].
  - clear. induction (Pathlib.name p); simpl; congruence.
  - apply take_drop.
Qed.

Lemma stem_nonempty (p : Path) : Pathlib.name p <> "" -> Pathlib.stem p <> "".
Proof.
  destruct (suffix_cases p) as [[_ ->]|(i & r & Hi & Hlt & -> & _)]; [auto|].
  intros _ H. apply (f_equal String.length) in H.
  rewrite length_take in H; simpl in H; lia.
Qed.

Lemma stem_sep_free (p : Path) :
  Str.contains OsPath.sep (Pathlib.name p) = false ->
  Str.contains OsPath.sep (Pathlib.stem p) = false.
Proof.
  destruct (suffix_cases p) as [[_ ->]|(i & r & _ & _ & -> & _)]; [auto|].
  apply contains_take.
Qed.

Lemma suffix_valid (p : Path) :
  Str.contains OsPath.sep (Pathlib.name p) = false -> valid_suffix (Pathlib.suffix p).
Proof.
  intros H. destruct (suffix_cases p) as [[-> _]|(i & r & _ & _ & _ & E & Hr & Hd)].
  - split; [reflexivity|now left].
  - rewrite E. split.
    + rewrite <- Hd. now apply contains_drop.
    + right. split; [reflexivity|]. intros [= ->]. now apply Hr.
Qed.

Lemma stem_length (p : Path) :
  Pathlib.suffix p <> "" ->
  Str.take (String.length (Pathlib.name p) - String.length (Pathlib.suffix p))
           (Pathlib.name p) = Pathlib.stem p.
Proof.
  destruct (suffix_cases p) as [[-> _]|(i & r & Hi & Hlt & -> & E & _ & Hd)];
    [congruence|].
  intros _. rewrite E, <- Hd, length_drop. f_equal. lia.
Qed.

Lemma with_suffix_ok (p : Path) (s : string) :
  Pathlib.name p <> "" -> valid_suffix s ->
  Pathlib.with_suffix p s = Ok (mkPath (root p) (removelast (parts p) ++ [Pathlib.stem p ++ s])).
Proof.
  intros Hn [Hsep Hs]. unfold Pathlib.with_suffix. rewrite Hsep.
  assert (Str.truthy s && negb (Str.startswith "." s) || (s =? ".") = false) as ->.
  { destruct Hs as [->|[H1 H2]]; [reflexivity|].
    rewrite H1, andb_false_r. simpl. now apply String.eqb_neq. }
  apply truthy_true in Hn. rewrite Hn. cbn [negb].
  destruct (Str.truthy (Pathlib.suffix p)) eqn:E; cbn [negb].
  - apply truthy_true in E. now rewrite stem_length.
  - apply truthy_false in E. destruct (suffix_cases p) as [[_ ->]|(i & r & _ & _ & _ & E' & _)]; [reflexivity|congruence].
Qed.

Lemma with_suffix_inv (p q : Path) (s : string) :
  Pathlib.with_suffix p s = Ok q ->
  Pathlib.name p <> "" /\ valid_suffix s
  /\ q = mkPath (root p) (removelast (parts p) ++ [Pathlib.stem p ++ s]).
Proof.
  intros H. assert (Hn : Pathlib.name p <> "" /\ valid_suffix s).
  { unfold Pathlib.with_suffix in H.
    destruct (Str.contains OsPath.sep s) eqn:E1; [discriminate|].
    destruct (Str.truthy s && negb (Str.startswith "." s) || (s =? ".")) eqn:E2; [discriminate|].
    destruct (Str.truthy (Pathlib.name p)) eqn:E3; [|discriminate].
    split; [now apply truthy_true|]. split; [assumption|].
    apply orb_false_elim in E2 as [E2 E4]. apply String.eqb_neq in E4.
    destruct (Str.truthy s) eqn:E5; [|left; now apply truthy_false].
    right. cbn [andb] in E2. apply negb_false_iff in E2. now split. }
  destruct Hn as [Hn Hs]. rewrite (with_suffix_ok _ Hn Hs) in H.
  injection H as <-. auto.
Qed.

Lemma with_suffix_empty (p : Path) :
  Pathlib.name p <> "" -> Pathlib.with_suffix p "" = Ok (Pathlib.strip_suffix p).
Proof.
  intros Hn. rewrite with_suffix_ok; [|assumption|split; [reflexivity|now left]].
  unfold Pathlib.strip_suffix. do 3 f_equal.
  clear. induction (Pathlib.stem p); simpl; congruence.
Qed.

Lemma removelast_ok (l : list string) : Forall part_ok l -> Forall part_ok (removelast l).
Proof.
  induction 1 as [|a l Ha Hl IH]; [constructor|].
  cbn [removelast]. destruct l; [constructor|]. now constructor.
Qed.

Lemma snoc_parts_ok (p : Path) (x : string) :
  parts_ok p -> part_ok x -> parts_ok (mkPath (root p) (removelast (parts p) ++ [x])).
Proof.
  intros Hp Hx. unfold parts_ok. cbn [parts]. apply Forall_app. split.
  - now apply removelast_ok.
  - now constructor.
Qed.

Lemma strip_suffix_ok (p : Path) :
  parts_ok p -> Pathlib.name p <> "" -> parts_ok (Pathlib.strip_suffix p).
Proof.
  intros Hp Hn. apply snoc_parts_ok; [assumption|].
  destruct (name_part_ok Hp Hn) as [_ Hsep].
  split; [now apply stem_nonempty|now apply stem_sep_free].
Qed.

Lemma strip_suffix_name (p : Path) : Pathlib.name (Pathlib.strip_suffix p) = Pathlib.stem p.
Proof. apply name_snoc. Qed.

Lemma append_empty_r (s : string) : s ++ "" = s.
Proof. induction s; simpl; congruence. Qed.

Lemma append_assoc (s1 s2 s3 : string) : (s1 ++ s2) ++ s3 = s1 ++ (s2 ++ s3).
Proof. induction s1; simpl; congruence. Qed.

Lemma append_eq_empty (s1 s2 : string) : s1 ++ s2 = "" -> s1 = "" /\ s2 = "".
Proof. destruct s1; simpl; [auto|discriminate]. Qed.

(** The joined suffix chain is a suffix [with_suffix] accepts. *)
Lemma chain_valid (p : Path) :
  Str.contains OsPath.sep (Pathlib.name p) = false ->
  valid_suffix (Str.join "" (Pathlib.suffixes p)).
Proof.
  intros Hsep. unfold Pathlib.suffixes.
  destruct (Str.endswith "." (Pathlib.name p)) eqn:Hend.
  { split; [reflexivity|now left]. }
  set (l := Str.split "." (Str.lstrip "." (Pathlib.name p))).
  assert (Hl : forall x, In x l -> Str.contains OsPath.sep x = false).
  { intros x Hx. eapply split_contains; [|exact Hx]. now apply contains_lstrip. }
  split.
  - apply join_contains; [reflexivity|].
    intros x Hx. apply in_map_iff in Hx as [y [<- Hy]].
    cbn. apply Hl. destruct l; [destruct Hy|now right].
  - destruct l as [|h [|x t]] eqn:El; cbn [tl map]; [now left|now left|].
    right. destruct t as [|y t].
    + cbn. split; [reflexivity|]. intros Hx. injection Hx as ->.
      assert (Hlast : last (Str.split "." (Str.lstrip "." (Pathlib.name p))) "" = "")
        by (fold l; now rewrite El).
      apply split_last_empty in Hlast as [He|He].
      * fold l in El. unfold l in El. rewrite He in El. discriminate.
      * apply endswith_lstrip in He. congruence.
    + split; [reflexivity|]. unfold Str.join. cbn [map String.concat].
      cbn. intros Hx. injection Hx as Hx. apply append_eq_empty in Hx as [_ Hx].
      destruct (map (fun suffix : string => String "." suffix) t); discriminate.
Qed.

(** A component other than ["."] parses to the one-component path. *)
Lemma of_str_component (x : string) :
  part_ok x -> x <> "." -> Pathlib.of_str x = mkPath "" [x].
Proof.
  intros [Hne Hsep] Hdot. unfold Pathlib.of_str, Pathlib.splitroot.
  rewrite (startswith_contains _ _ Hsep), (split_no_sep _ _ Hsep).
  cbn [filter]. apply truthy_true in Hne. apply String.eqb_neq in Hdot.
  now rewrite Hne, Hdot.
Qed.

Lemma join_cons_nonempty (sep a : string) (l : list string) :
  exists r, Str.join sep (a :: l) = a ++ r.
Proof.
  destruct l as [|b l]; [exists ""; cbn; now rewrite append_empty_r|].
  now exists (sep ++ String.concat sep (b :: l)).
Qed.

(** The text of a relative path, however extended, parses to a relative path. *)
Lemma to_str_relative (p : Path) (x : string) :
  root p = "" -> parts_ok p -> parts p <> [] ->
  root (Pathlib.of_str (Pathlib.to_str p ++ x)) = "".
Proof.
  intros Hr Hp Hne. unfold Pathlib.to_str. rewrite Hr. cbn [String.append].
  destruct (parts p) as [|a l] eqn:E; [congruence|].
  unfold parts_ok in Hp. rewrite E in Hp. inversion Hp as [|? ? [Ha Hsep] _]; subst.
  destruct (join_cons_nonempty "/" a l) as [r ->].
  destruct a as [|c a]; [congruence|]. cbn [String.append Str.truthy String.eqb negb].
  cbn in Hsep. apply orb_false_elim in Hsep as [Hc _].
  unfold Pathlib.of_str, Pathlib.splitroot. cbn [String.append Str.startswith].
  rewrite Hc. reflexivity.
Qed.

Lemma list_eqb_refl (l : list string) : Pathlib.list_eqb l l = true.
Proof. unfold Pathlib.list_eqb. destruct (list_eq_dec string_dec l l); congruence. Qed.

Lemma list_eqb_eq (l1 l2 : list string) : Pathlib.list_eqb l1 l2 = true <-> l1 = l2.
Proof.
  unfold Pathlib.list_eqb. destruct (list_eq_dec string_dec l1 l2); split; congruence.
Qed.

Lemma path_eqb_eq (p q : Path) : Pathlib.eqb p q = true <-> p = q.
Proof.
  unfold Pathlib.eqb. rewrite andb_true_iff, String.eqb_eq, list_eqb_eq.
  destruct p, q; cbn. split; [intros [-> ->]; reflexivity|intros [= -> ->]; auto].
Qed.

(** [(docs / q).relative_to(docs)] is [q] for a relative [q]. *)
Lemma relative_to_div (docs q : Path) :
  root q = "" -> Pathlib.relative_to (docs </> q) docs = Ok q.
Proof.
  intros Hq. unfold Pathlib.div. rewrite Hq. cbn [Str.truthy String.eqb negb].
  unfold Pathlib.relative_to.
  assert (Habs : Pathlib.abs_parts (mkPath (root docs) (parts docs ++ parts q)%list)
                 = (Pathlib.abs_parts docs ++ parts q)%list).
  { unfold Pathlib.abs_parts. cbn [root parts]. now destruct (Str.truthy (root docs)). }
  rewrite Habs. cbn [root].
  destruct (Pathlib.abs_parts docs) as [|a l] eqn:E.
  - cbn. assert (Str.truthy (root docs) = false) as ->.
    { unfold Pathlib.abs_parts in E. now destruct (Str.truthy (root docs)). }
    destruct q; cbn in *; now subst.
  - rewrite <- E. replace (Nat.eqb (List.length (Pathlib.abs_parts docs)) 0) with false
      by (rewrite E; reflexivity).
    rewrite firstn_app, firstn_all, Nat.sub_diag, firstn_O, app_nil_r, list_eqb_refl.
    cbn [negb]. rewrite skipn_app, skipn_all, Nat.sub_diag, skipn_O.
    destruct q; cbn in *; now subst.
Qed.

Lemma prefix_append (a s t : string) :
  String.prefix a s = true -> String.prefix a (s ++ t) = true.
Proof.
  revert s; induction a as [|x a IH]; intros [|y s]; simpl; try easy.
  - now destruct t.
  - destruct (ascii_dec x y); [auto|discriminate].
Qed.

Lemma stem_plain (p : Path) :
  Pathlib.name p <> "." -> String.prefix ".." (Pathlib.name p) = false ->
  Pathlib.stem p <> "." /\ String.prefix ".." (Pathlib.stem p) = false.
Proof.
  intros Hd Hp.
  destruct (suffix_cases p) as [[_ ->]|(i & r & Hi & Hlt & Hs & _ & _ & Hdrop)]; [auto|].
  rewrite Hs. split.
  - intros Ht. rewrite <- (take_drop i (Pathlib.name p)), Ht, Hdrop in Hp. cbn in Hp. destruct r; discriminate.
  - destruct (String.prefix ".." (Str.take i (Pathlib.name p))) eqn:E; [|reflexivity].
    apply prefix_append with (t := Str.drop i (Pathlib.name p)) in E.
    rewrite take_drop in E. congruence.
Qed.

Lemma non_i18n_ok (langs : list string) (src : string) :
  names_a_file src ->
  I18nFile.non_i18n_src_path langs src = Ok (logical_stem langs src).
Proof.
  intros Hn. unfold I18nFile.non_i18n_src_path, logical_stem.
  destruct (I18nFile._is_localized_for langs src).
  - rewrite (with_suffix_empty (Pathlib.of_str src) Hn). cbn [bind]. apply with_suffix_empty.
    rewrite strip_suffix_name. now apply stem_nonempty.
  - now apply with_suffix_empty.
Qed.

Lemma logical_stem_facts (langs : list string) (src : string) :
  names_a_file src ->
  root (logical_stem langs src) = root (Pathlib.of_str src)
  /\ parts_ok (logical_stem langs src)
  /\ Pathlib.name (logical_stem langs src) <> ""
  /\ parts (logical_stem langs src) <> [].
Proof.
  intros Hn. pose proof (of_str_parts_ok src) as Hp.
  assert (H1 : parts_ok (Pathlib.strip_suffix (Pathlib.of_str src)))
    by now apply strip_suffix_ok.
  assert (H2 : Pathlib.name (Pathlib.strip_suffix (Pathlib.of_str src)) <> "")
    by (rewrite strip_suffix_name; now apply stem_nonempty).
  assert (Hnil : forall p, parts (Pathlib.strip_suffix p) <> [])
    by (intros p; cbn; now destruct (removelast (parts p))).
  unfold logical_stem. destruct (I18nFile._is_localized_for langs src).
  - repeat split; [now apply strip_suffix_ok| |apply Hnil].
    rewrite strip_suffix_name. now apply stem_nonempty.
  - repeat split; [assumption|assumption|apply Hnil].
Qed.

Lemma logical_stem_plain (langs : list string) (src : string) :
  plain_name src -> Pathlib.name (logical_stem langs src) <> ".".
Proof.
  intros Hp. unfold plain_name in Hp.
  assert (Hd : Pathlib.name (Pathlib.of_str src) <> ".").
  { intros E. apply (of_str_no_dot src). rewrite <- E.
    apply name_in_parts. rewrite E. discriminate. }
  destruct (stem_plain _ Hd Hp) as [H1 H2].
  unfold logical_stem. destruct (I18nFile._is_localized_for langs src).
  - rewrite strip_suffix_name. apply stem_plain; now rewrite strip_suffix_name.
  - now rewrite strip_suffix_name.
Qed.

Lemma get_stem_ok (langs : list string) (src : string) :
  names_a_file src ->
  I18nFile._get_stem langs src = Ok (stem_name (logical_stem langs src)).
Proof.
  intros Hn. unfold I18nFile._get_stem. now rewrite (non_i18n_ok langs Hn).
Qed.

(** The name [__init__] stores is a component that [Path] parses to itself. *)
Lemma stem_name_component (langs : list string) (src : string) :
  names_a_file src -> plain_name src ->
  Pathlib.of_str (stem_name (logical_stem langs src))
  = mkPath "" [stem_name (logical_stem langs src)].
Proof.
  intros Hn Hp. destruct (logical_stem_facts langs Hn) as (_ & Hok & Hne & _).
  pose proof (logical_stem_plain langs Hp) as Hd.
  unfold stem_name.
  destruct ((Pathlib.name (logical_stem langs src) =? "index")
            || (Pathlib.name (logical_stem langs src) =? "README")); [reflexivity|].
  apply of_str_component; [|assumption]. now apply name_part_ok.
Qed.

Lemma dest_suffix_valid (ls : option string) (src : string) :
  names_a_file src -> valid_suffix (dest_suffix ls src).
Proof.
  intros Hn. destruct (name_part_ok (of_str_parts_ok src) Hn) as [_ Hsep].
  unfold dest_suffix. destruct (I18nFile.truthy ls).
  - now apply suffix_valid.
  - now apply chain_valid.
Qed.

Section Resolution.

Variable exists_ : Path -> bool.
Variable is_documentation_page : string -> bool.
Variables (file_from : File.t) (language : string) (all_languages : list string).
Variables (default_language docs_dir site_dir : string).
Variable use_directory_urls : option bool.

Local Abbreviation src := (File.src_path file_from).
Local Abbreviation st := (logical_stem all_languages (File.src_path file_from)).
Local Abbreviation nm := (stem_name (logical_stem all_languages (File.src_path file_from))).
Local Abbreviation docs := (Pathlib.of_str docs_dir).
Local Abbreviation found_at ls c :=
  (found_of is_documentation_page use_directory_urls language docs_dir site_dir nm src ls c).
Local Abbreviation chosen :=
  (selected exists_ language default_language docs_dir all_languages src).
Local Abbreviation built r :=
  (file_of file_from language all_languages docs_dir site_dir use_directory_urls r).

Lemma on_found_ok (ls : option string) (c : string) :
  names_a_file src -> plain_name src -> root (Pathlib.of_str c) = "" ->
  I18nFile.on_found is_documentation_page language docs_dir site_dir src nm
    use_directory_urls ls (docs </> Pathlib.of_str c) = Ok (found_at ls c).
Proof.
  intros Hn Hp Hc. unfold I18nFile.on_found.
  rewrite (relative_to_div docs _ Hc). cbn [bind].
  assert (Hd : (if I18nFile.truthy ls
                then Pathlib.with_suffix (Pathlib.of_str nm) (I18nFile.suffix src)
                else Pathlib.with_suffix (Pathlib.of_str nm)
                       (Str.join "" (Pathlib.suffixes (Pathlib.of_str src))))
               = Ok (dest_name_of nm src ls)).
  { transitivity (Pathlib.with_suffix (Pathlib.of_str nm) (dest_suffix ls src)).
    - unfold dest_suffix. now destruct (I18nFile.truthy ls).
    - rewrite (stem_name_component all_languages Hn Hp).
      rewrite with_suffix_ok; [reflexivity| |now apply dest_suffix_valid].
      cbn. pose proof (stem_name_component all_languages Hn Hp) as E.
      intros E'. rewrite E' in E. discriminate. }
  rewrite Hd. reflexivity.
Qed.

Lemma find_src_path_spec (l : list (option string * string)) :
  names_a_file src -> plain_name src ->
  (forall lc, In lc l -> root (Pathlib.of_str (snd lc)) = "") ->
  I18nFile.find_src_path exists_ is_documentation_page language docs_dir site_dir src nm
    use_directory_urls (map (fun lc => (fst lc, docs </> Pathlib.of_str (snd lc))) l)
  = Ok (option_map (fun lc => found_at (fst lc) (snd lc))
          (find (fun lc => exists_ (docs </> Pathlib.of_str (snd lc))) l)).
Proof.
  intros Hn Hp. induction l as [|[ls c] l IH]; intros Hl; [reflexivity|].
  cbn [map find fst snd I18nFile.find_src_path].
  destruct (exists_ (docs </> Pathlib.of_str c)).
  - rewrite on_found_ok; [reflexivity|assumption|assumption|].
    apply (Hl (ls, c)). now left.
  - apply IH. intros lc Hin. apply Hl. now right.
Qed.

Lemma expected_paths_candidates (stem_ : Path) (sfx : string) :
  I18nFile.expected_paths language default_language docs_dir stem_ sfx
  = map (fun lc => (fst lc, docs </> Pathlib.of_str (snd lc)))
        (I18nFile.candidates language default_language (Pathlib.to_str stem_) sfx).
Proof. reflexivity. Qed.

Lemma candidates_relative (lc : option string * string) :
  names_a_file src -> is_relative src ->
  In lc (I18nFile.candidates language default_language (Pathlib.to_str st)
           (I18nFile.suffix src)) ->
  root (Pathlib.of_str (snd lc)) = "".
Proof.
  intros Hn Hr Hin. destruct (logical_stem_facts all_languages Hn) as (Hroot & Hok & _ & Hne).
  unfold is_relative in Hr. rewrite Hr in Hroot.
  destruct Hin as [<-|[<-|[<-|[]]]]; cbn [snd]; now apply to_str_relative.
Qed.

Lemma init_unfold (r : option I18nFile.found) :
  names_a_file src ->
  I18nFile.find_src_path exists_ is_documentation_page language docs_dir site_dir src nm
    use_directory_urls
    (I18nFile.expected_paths language default_language docs_dir st (I18nFile.suffix src))
  = Ok r ->
  I18nFile.init exists_ is_documentation_page file_from language all_languages
    default_language docs_dir site_dir use_directory_urls = Ok (built r).
Proof.
  intros Hn Hr. unfold I18nFile.init.
  rewrite (get_stem_ok all_languages Hn), (non_i18n_ok all_languages Hn). cbn [bind].
  rewrite Hr. cbn [bind]. now destruct r.
Qed.

(** Construction succeeds for a relative path that names a file. *)
Lemma init_ok :
  names_a_file src -> is_relative src -> plain_name src ->
  I18nFile.init exists_ is_documentation_page file_from language all_languages
    default_language docs_dir site_dir use_directory_urls
  = Ok (built (option_map (fun lc => found_at (fst lc) (snd lc)) chosen)).
Proof.
  intros Hn Hr Hp. apply init_unfold; [assumption|].
  rewrite expected_paths_candidates. apply find_src_path_spec; try assumption.
  intros lc Hin. now apply candidates_relative.
Qed.

(** Without an existing candidate nothing but the name has to be computed. *)
Lemma init_fallback :
  names_a_file src -> chosen = None ->
  I18nFile.init exists_ is_documentation_page file_from language all_languages
    default_language docs_dir site_dir use_directory_urls = Ok (built None).
Proof.
  intros Hn Hs. apply init_unfold; [assumption|].
  rewrite expected_paths_candidates. unfold selected in Hs.
  revert Hs. generalize (I18nFile.candidates language default_language
                           (Pathlib.to_str st) (I18nFile.suffix src)).
  induction l as [|[ls c] l IH]; [reflexivity|].
  cbn [map find fst snd I18nFile.find_src_path].
  destruct (exists_ (docs </> Pathlib.of_str c)); [discriminate|auto].
Qed.

End Resolution.

(** * Facts about [os.path] and URLs *)

Lemma rstrip_endswith (c : ascii) (s : string) : Str.endswith c (Str.rstrip c s) = false.
Proof.
  induction s as [|a s IH]; [reflexivity|]. cbn [Str.rstrip].
  destruct (Str.rstrip c s) as [|b r] eqn:E.
  - destruct (Ascii.eqb a c) eqn:Ea; [reflexivity|]. cbn. exact Ea.
  - rewrite endswith_cons; [exact IH|discriminate].
Qed.

Lemma endswith_append (c : ascii) (s1 s2 : string) :
  s2 <> "" -> Str.endswith c (s1 ++ s2) = Str.endswith c s2.
Proof.
  intros H. induction s1 as [|a s1 IH]; [reflexivity|].
  cbn [String.append]. rewrite endswith_cons; [exact IH|].
  intros E. apply append_eq_empty in E as [_ E]. contradiction.
Qed.

Lemma endswith_contains (c : ascii) (s : string) :
  Str.contains c s = false -> Str.endswith c s = false.
Proof.
  induction s as [|a s IH]; [reflexivity|]. cbn [Str.contains].
  intros H. apply orb_false_elim in H as [Ha Hs].
  destruct s as [|b s]; [exact Ha|]. rewrite endswith_cons; [auto|discriminate].
Qed.

(** The text of a relative path does not begin with the separator. *)
Lemma to_str_not_abs (p : Path) :
  root p = "" -> parts_ok p -> Str.startswith OsPath.sep (Pathlib.to_str p) = false.
Proof.
  intros Hr Hp. unfold Pathlib.to_str. rewrite Hr. cbn [String.append].
  destruct (parts p) as [|a l] eqn:E; [reflexivity|].
  unfold parts_ok in Hp. rewrite E in Hp. inversion Hp as [|? ? [Ha Hsep] _]; subst.
  destruct (join_cons_nonempty "/" a l) as [r ->].
  destruct a as [|c a]; [congruence|]. cbn [String.append Str.truthy String.eqb negb].
  cbn in Hsep. apply orb_false_elim in Hsep as [Hc _]. exact Hc.
Qed.

(** The directory part [os.path.split] returns for a relative path has no
    trailing separator. *)
Lemma split_parent_clean (s : string) :
  Str.startswith OsPath.sep s = false ->
  Str.endswith OsPath.sep (fst (OsPath.split s)) = false.
Proof.
  intros Hs. unfold OsPath.split. cbn [fst].
  set (i := match Str.rfind OsPath.sep s with Some i => S i | None => 0 end).
  destruct (Str.truthy (Str.take i s)
            && negb (Str.take i s =? Str.repeat OsPath.sep (String.length (Str.take i s))))
    eqn:E; [apply rstrip_endswith|].
  apply andb_false_iff in E as [E|E].
  - apply truthy_false in E. now rewrite E.
  - apply negb_false_iff, String.eqb_eq in E.
    destruct s as [|a s]; [now destruct i|]. destruct i as [|i]; [reflexivity|].
    cbn in E, Hs. injection E as E _. rewrite E in Hs. discriminate.
Qed.

Lemma join_under (parent x : string) :
  Str.endswith OsPath.sep parent = false -> Str.startswith OsPath.sep x = false ->
  OsPath.join parent [x] = under parent x.
Proof.
  intros Hp Hx. unfold OsPath.join, OsPath.join_step, under. cbn [fold_left].
  rewrite Hx, Hp, orb_false_r. unfold Str.truthy. rewrite negb_involutive.
  destruct (String.eqb_spec parent ""); [now subst|reflexivity].
Qed.

Lemma join_under2 (parent x y : string) :
  Str.endswith OsPath.sep parent = false ->
  x <> "" -> Str.contains OsPath.sep x = false ->
  Str.startswith OsPath.sep y = false ->
  OsPath.join parent [x; y] = under (under parent x) y.
Proof.
  intros Hp Hx Hsep Hy.
  change (OsPath.join parent [x; y]) with (OsPath.join (OsPath.join parent [x]) [y]).
  rewrite (join_under parent x Hp (startswith_contains _ _ Hsep)).
  apply join_under; [|assumption].
  unfold under. destruct (parent =? ""); [now apply endswith_contains|].
  rewrite endswith_append.
  - rewrite endswith_append; [now apply endswith_contains|assumption].
  - destruct x; [congruence|discriminate].
Qed.

Lemma quote_append (s1 s2 : string) : urlquote (s1 ++ s2) = urlquote s1 ++ urlquote s2.
Proof.
  unfold urlquote, Urllib.quote. induction s1 as [|c s1 IH]; [reflexivity|].
  cbn [String.append Urllib.quote_from_bytes]. rewrite IH.
  unfold Urllib.quoter. destruct (Urllib.always_safe c || Str.contains c "/"); reflexivity.
Qed.

Lemma quote_safe (s : string) : all_safe s = true -> urlquote s = s.
Proof.
  unfold urlquote, Urllib.quote. induction s as [|c s IH]; [reflexivity|].
  cbn [all_safe Urllib.quote_from_bytes]. intros H. apply andb_prop in H as [Hc Hs].
  rewrite (IH Hs). unfold Urllib.quoter. now rewrite Hc.
Qed.

Lemma prefix_self_append (s t : string) : String.prefix s (s ++ t) = true.
Proof.
  induction s as [|a s IH]; [now destruct t|]. cbn.
  destruct (ascii_dec a a); [exact IH|congruence].
Qed.

(** [_get_url] computes [resolved_url]. *)
Lemma get_url_rule (use_directory_urls : option bool) (language dest_path : string) :
  I18nFile._get_url use_directory_urls language dest_path
  = resolved_url use_directory_urls language dest_path.
Proof.
  unfold I18nFile._get_url, resolved_url, collapse_index, prefixed, Str.truthy.
  destruct (OsPath.split (Str.replace OsPath.sep "/" dest_path)) as [dirname filename].
  cbn [fst snd]. now destruct (language =? "").
Qed.

(** * Further facts about the resolver *)

Lemma split_app_sep (c : ascii) (a r : string) :
  Str.contains c a = false -> Str.split c (a ++ String c r) = a :: Str.split c r.
Proof.
  induction a as [|x a IH]; cbn [String.append Str.split Str.contains]; intros H.
  - now rewrite Ascii.eqb_refl.
  - apply orb_false_elim in H as [Hx Ha]. now rewrite Hx, (IH Ha).
Qed.

Lemma split_join (l : list string) :
  l <> [] -> Forall part_ok l -> Str.split OsPath.sep (Str.join "/" l) = l.
Proof.
  intros Hne Hl. induction Hl as [|a l [_ Ha] Hl IH]; [congruence|].
  destruct l as [|b l].
  - cbn. now apply split_no_sep.
  - change (Str.join "/" (a :: b :: l)) with (a ++ String OsPath.sep (Str.join "/" (b :: l))).
    rewrite (@split_app_sep _ _ _ Ha), IH; [reflexivity|discriminate].
Qed.

Lemma join_first (a : string) (l : list string) :
  a <> "" -> Str.join "/" (a :: l) <> "".
Proof.
  intros Ha. destruct (join_cons_nonempty "/" a l) as [r ->].
  intros E. now apply append_eq_empty in E as [E _].
Qed.

(** A relative path whose components are proper parses back from its text. *)
Lemma of_str_to_str (p : Path) :
  root p = "" -> parts_ok p -> parts p <> [] -> ~ In "." (parts p) ->
  Pathlib.of_str (Pathlib.to_str p) = p.
Proof.
  intros Hr Hp Hne Hdot.
  assert (Hs : Str.startswith OsPath.sep (Pathlib.to_str p) = false)
    by now apply to_str_not_abs.
  unfold Pathlib.of_str, Pathlib.splitroot. rewrite Hs.
  unfold Pathlib.to_str. rewrite Hr. cbn [String.append].
  destruct (parts p) as [|a l] eqn:E; [congruence|].
  assert (Ha : a <> "").
  { unfold parts_ok in Hp. rewrite E in Hp. inversion Hp as [|? ? [Ha _] _]. exact Ha. }
  pose proof (join_first l Ha) as Hj. apply truthy_true in Hj. rewrite Hj.
  rewrite <- E in *. rewrite split_join; [|assumption|exact Hp].
  replace (filter (fun x => Str.truthy x && negb (x =? ".")) (parts p)) with (parts p).
  - destruct p; cbn in *; now subst.
  - symmetry. apply forallb_filter_id. apply forallb_forall. intros x Hx.
    unfold parts_ok in Hp. rewrite Forall_forall in Hp. destruct (Hp x Hx) as [Hx1 _].
    apply truthy_true in Hx1. rewrite Hx1. cbn [andb]. apply negb_true_iff, String.eqb_neq.
    intros ->. contradiction.
Qed.

Lemma join_snoc (l : list string) (a x : string) :
  Str.join "/" (l ++ [a]) ++ x = Str.join "/" (l ++ [a ++ x]).
Proof.
  induction l as [|b l IH]; [cbn; reflexivity|].
  destruct l as [|b' l].
  - cbn. now rewrite append_assoc.
  - change (Str.join "/" ((b :: b' :: l) ++ [a]))
      with (b ++ "/" ++ Str.join "/" ((b' :: l) ++ [a])).
    change (Str.join "/" ((b :: b' :: l) ++ [a ++ x]))
      with (b ++ "/" ++ Str.join "/" ((b' :: l) ++ [a ++ x])).
    rewrite <- IH, !append_assoc. reflexivity.
Qed.

Lemma removelast_app_last (l : list string) (d : string) :
  l <> [] -> (removelast l ++ [last l d])%list = l.
Proof. intros H. symmetry. now apply app_removelast_last. Qed.

Lemma in_removelast (l : list string) (x : string) : In x (removelast l) -> In x l.
Proof.
  induction l as [|a l IH]; [intros []|]. cbn [removelast].
  destruct l as [|b l]; [intros []|]. intros [<-|H]; [now left|right; auto].
Qed.

Lemma strip_suffix_no_dot (p : Path) :
  ~ In "." (parts p) -> Pathlib.stem p <> "." -> ~ In "." (parts (Pathlib.strip_suffix p)).
Proof.
  intros Hp Hs Hin. cbn in Hin. apply in_app_or in Hin as [Hin|[Hin|[]]].
  - apply Hp. now apply in_removelast.
  - congruence.
Qed.

Lemma logical_stem_no_dot (langs : list string) (src : string) :
  names_a_file src -> plain_name src -> ~ In "." (parts (logical_stem langs src)).
Proof.
  intros Hn Hp. unfold plain_name in Hp.
  assert (Hd : Pathlib.name (Pathlib.of_str src) <> ".").
  { intros E. apply (of_str_no_dot src). rewrite <- E. now apply name_in_parts. }
  destruct (stem_plain _ Hd Hp) as [H1 H2].
  assert (H3 : ~ In "." (parts (Pathlib.strip_suffix (Pathlib.of_str src))))
    by (apply strip_suffix_no_dot; [apply of_str_no_dot|assumption]).
  unfold logical_stem. destruct (I18nFile._is_localized_for langs src); [|assumption].
  apply strip_suffix_no_dot; [assumption|].
  apply stem_plain; now rewrite strip_suffix_name.
Qed.

(** A candidate, the text of the logical stem extended by a text without
    separator, is its own normal form. *)
Lemma candidate_roundtrip (langs : list string) (src x : string) :
  names_a_file src -> is_relative src -> plain_name src ->
  Str.contains OsPath.sep x = false ->
  Pathlib.to_str (Pathlib.of_str (Pathlib.to_str (logical_stem langs src) ++ x))
  = Pathlib.to_str (logical_stem langs src) ++ x.
Proof.
  intros Hn Hr Hp Hx.
  destruct (logical_stem_facts langs Hn) as (Hroot & Hok & Hname & Hne).
  pose proof (logical_stem_no_dot langs Hn Hp) as Hdot.
  pose proof (logical_stem_plain langs Hp) as Hnd.
  unfold is_relative in Hr. rewrite Hr in Hroot.
  set (st := logical_stem langs src) in *.
  set (q := mkPath "" (removelast (parts st) ++ [Pathlib.name st ++ x])).
  assert (Hq : Pathlib.to_str st ++ x = Pathlib.to_str q).
  { unfold Pathlib.to_str. subst q. rewrite Hroot. cbn [root parts String.append].
    rewrite <- join_snoc.
    unfold Pathlib.name. rewrite removelast_app_last by assumption.
    destruct (parts st) as [|a l] eqn:E; [congruence|].
    assert (Ha : a <> "").
    { unfold parts_ok in Hok. rewrite E in Hok. inversion Hok as [|? ? [Ha _] _]. exact Ha. }
    pose proof (join_first l Ha) as Hj.
    assert (Hj' : Str.join "/" (a :: l) ++ x <> "").
    { intros E'. now apply append_eq_empty in E' as [E' _]. }
    apply truthy_true in Hj, Hj'. now rewrite Hj, Hj'. }
  rewrite Hq. f_equal. apply of_str_to_str.
  - reflexivity.
  - apply snoc_parts_ok; [assumption|]. destruct (name_part_ok Hok Hname) as [H1 H2].
    split.
    + intros E. now apply append_eq_empty in E as [E _].
    + now rewrite contains_app, H2, Hx.
  - cbn. now destruct (removelast (parts st)).
  - cbn. intros Hin. apply in_app_or in Hin as [Hin|[Hin|[]]].
    + apply Hdot. now apply in_removelast.
    + destruct (Pathlib.name st) as [|c [|c' n]] eqn:E; cbn in Hin; congruence.
Qed.

Section Outcome.

Variable exists_ : Path -> bool.
Variable is_documentation_page : string -> bool.
Variables (file_from : File.t) (language : string) (all_languages : list string).
Variables (default_language docs_dir site_dir : string).
Variable use_directory_urls : option bool.

Local Abbreviation src := (File.src_path file_from).
Local Abbreviation nm := (stem_name (logical_stem all_languages (File.src_path file_from))).
Local Abbreviation built r :=
  (file_of file_from language all_languages docs_dir site_dir use_directory_urls r).

(** A constructed file is the object of some outcome of the search. *)
Lemma init_inv (f : I18nFile.t) :
  I18nFile.init exists_ is_documentation_page file_from language all_languages
    default_language docs_dir site_dir use_directory_urls = Ok f ->
  names_a_file src /\ exists r, f = built r.
Proof.
  intros H.
  assert (Hn : names_a_file src).
  { unfold I18nFile.init, I18nFile._get_stem, I18nFile.non_i18n_src_path in H.
    destruct (I18nFile._is_localized_for all_languages src).
    - destruct (Pathlib.with_suffix (Pathlib.of_str src) "") eqn:E; [|discriminate].
      now apply with_suffix_inv in E as [E _].
    - destruct (Pathlib.with_suffix (Pathlib.of_str src) "") eqn:E; [|discriminate].
      now apply with_suffix_inv in E as [E _]. }
  split; [assumption|].
  unfold I18nFile.init in H.
  rewrite (get_stem_ok all_languages Hn), (non_i18n_ok all_languages Hn) in H.
  cbn [bind] in H.
  destruct (I18nFile.find_src_path _ _ _ _ _ _ _ _ _) as [r|e] eqn:E; [|discriminate].
  cbn [bind] in H. exists r. destruct r; now injection H as <-.
Qed.

End Outcome.

Lemma to_str_single (t : string) : t <> "" -> Pathlib.to_str (mkPath "" [t]) = t.
Proof.
  intros H. unfold Pathlib.to_str. cbn. apply truthy_true in H. now rewrite H.
Qed.

(** [_get_dest_path] in terms of [under]. *)
Lemma get_dest_path_rule (is_documentation_page : string -> bool)
  (use_directory_urls : option bool) (q : Path) (name t : string) :
  root q = "" -> parts_ok q -> part_ok name -> part_ok t ->
  I18nFile._get_dest_path is_documentation_page use_directory_urls q name (mkPath "" [t])
  = let parent := fst (OsPath.split (Pathlib.to_str q)) in
    if is_documentation_page (Pathlib.to_str q) then
      if match use_directory_urls with Some false => true | _ => false end
         || (name =? "index")
      then under parent (name ++ ".html")
      else under (under parent name) "index.html"
    else under parent t.
Proof.
  intros Hr Hq [Hn Hnsep] [Ht Htsep]. unfold I18nFile._get_dest_path.
  pose proof (split_parent_clean _ (to_str_not_abs Hr Hq)) as Hparent.
  destruct (OsPath.split (Pathlib.to_str q)) as [parent tail]. cbn [fst] in *.
  destruct (is_documentation_page (Pathlib.to_str q)).
  - destruct (_ || _).
    + apply join_under; [assumption|]. apply startswith_contains.
      now rewrite contains_app, Hnsep.
    + now apply join_under2.
  - rewrite (to_str_single Ht). apply join_under; [assumption|].
    now apply startswith_contains.
Qed.

(** * Facts about the collection *)

Lemma existsb_dest (d : string) (fs : list I18nFile.t) :
  existsb (fun inside_file => I18nFile.dest_path inside_file =? d) fs
  = existsb (String.eqb d) (dest_paths fs).
Proof.
  induction fs as [|g fs IH]; [reflexivity|]. cbn. now rewrite IH, String.eqb_sym.
Qed.

Lemma existsb_eqb_in (d : string) (l : list string) :
  existsb (String.eqb d) l = true <-> In d l.
Proof.
  rewrite existsb_exists. split.
  - intros [x [Hx E]]. apply String.eqb_eq in E. now subst.
  - intros H. exists d. split; [assumption|apply String.eqb_refl].
Qed.

Lemma existsb_eqb_ext (d : string) (l1 l2 : list string) :
  (forall x, In x l1 <-> In x l2) ->
  existsb (String.eqb d) l1 = existsb (String.eqb d) l2.
Proof.
  intros H. apply eq_true_iff_eq. rewrite !existsb_eqb_in. apply H.
Qed.

Lemma keep_first_ext (s1 s2 : list string) (fs : list I18nFile.t) :
  (forall x, In x s1 <-> In x s2) -> keep_first s1 fs = keep_first s2 fs.
Proof.
  revert s1 s2. induction fs as [|f fs IH]; intros s1 s2 H; [reflexivity|].
  cbn [keep_first]. rewrite (@existsb_eqb_ext _ _ _ H).
  destruct (existsb _ s2); [now apply IH|]. f_equal. apply IH.
  intros x. cbn. now rewrite H.
Qed.

Lemma keep_first_subseq (seen : list string) (fs : list I18nFile.t) :
  subseq (keep_first seen fs) fs.
Proof.
  revert seen. induction fs as [|f fs IH]; intros seen; [constructor|].
  cbn [keep_first]. destruct (existsb _ seen); now constructor.
Qed.

Lemma keep_first_fresh (seen : list string) (fs : list I18nFile.t) (f : I18nFile.t) :
  In f (keep_first seen fs) -> ~ In (I18nFile.dest_path f) seen.
Proof.
  revert seen. induction fs as [|g fs IH]; intros seen; [intros []|].
  cbn [keep_first]. destruct (existsb _ seen) eqn:E; [apply IH|].
  intros [<-|Hin] Hs.
  - apply existsb_eqb_in in Hs. congruence.
  - apply (IH _ Hin). now right.
Qed.

Lemma keep_first_nodup (seen : list string) (fs : list I18nFile.t) :
  NoDup (dest_paths (keep_first seen fs)).
Proof.
  revert seen. induction fs as [|g fs IH]; intros seen; [constructor|].
  cbn [keep_first]. destruct (existsb _ seen); [apply IH|].
  cbn. constructor; [|apply IH].
  intros Hin. apply in_map_iff in Hin as [f [E Hf]].
  apply keep_first_fresh in Hf. apply Hf. left. now symmetry.
Qed.

Lemma append_files (c : I18nFiles.t) (f : I18nFile.t) :
  I18nFiles._files (I18nFiles.append c f)
  = (I18nFiles._files c ++ keep_first (dest_paths (I18nFiles._files c)) [f])%list.
Proof.
  unfold I18nFiles.append. cbn [keep_first]. rewrite existsb_dest.
  destruct (existsb _ _); cbn; [now rewrite app_nil_r|reflexivity].
Qed.

Lemma fold_append_files (fs : list I18nFile.t) (c : I18nFiles.t) :
  I18nFiles._files (fold_left I18nFiles.append fs c)
  = (I18nFiles._files c ++ keep_first (dest_paths (I18nFiles._files c)) fs)%list.
Proof.
  revert c. induction fs as [|f fs IH]; intros c; [cbn; now rewrite app_nil_r|].
  cbn [fold_left]. rewrite IH. unfold I18nFiles.append. rewrite existsb_dest.
  cbn [keep_first]. destruct (existsb _ _) eqn:E; [reflexivity|].
  cbn [I18nFiles._files]. rewrite <- app_assoc. cbn [app]. do 2 f_equal.
  apply keep_first_ext. intros x. unfold dest_paths. rewrite map_app, in_app_iff. cbn.
  tauto.
Qed.

(** ** The dictionary [src_paths] *)

Lemma dict_keys_set {A : Type} (k : string) (v : A) (d : I18nFiles.dict A) :
  I18nFiles.dict_keys (I18nFiles.dict_set k v d)
  = if existsb (String.eqb k) (I18nFiles.dict_keys d)
    then I18nFiles.dict_keys d
    else (I18nFiles.dict_keys d ++ [k])%list.
Proof.
  unfold I18nFiles.dict_keys. induction d as [|[k' v'] d IH]; [reflexivity|].
  cbn [I18nFiles.dict_set map fst existsb].
  rewrite (String.eqb_sym k k'). destruct (k' =? k) eqn:E.
  - apply String.eqb_eq in E. now subst.
  - cbn [map fst orb]. rewrite IH. now destruct (existsb _ _).
Qed.

Lemma dict_get_set {A : Type} (k k' : string) (v : A) (d : I18nFiles.dict A) :
  I18nFiles.dict_get k' (I18nFiles.dict_set k v d)
  = if k =? k' then Some v else I18nFiles.dict_get k' d.
Proof.
  induction d as [|[k0 v0] d IH]; cbn; [reflexivity|].
  destruct (k0 =? k) eqn:E.
  - apply String.eqb_eq in E. subst. cbn. now destruct (k =? k').
  - cbn. rewrite IH. destruct (k0 =? k') eqn:E'; [|reflexivity].
    apply String.eqb_eq in E'. subst. now rewrite (String.eqb_sym k k'), E.
Qed.

Lemma find_app_first {A : Type} (p : A -> bool) (l1 l2 : list A) :
  find p (l1 ++ l2) = match find p l1 with Some x => Some x | None => find p l2 end.
Proof.
  induction l1 as [|a l1 IH]; [reflexivity|]. cbn. now destruct (p a).
Qed.

Lemma find_split {A : Type} (p : A -> bool) (l : list A) (x : A) :
  find p l = Some x ->
  exists before after,
    l = (before ++ x :: after)%list /\ p x = true
    /\ forall y, In y before -> p y = false.
Proof.
  induction l as [|a l IH]; [discriminate|]. cbn. destruct (p a) eqn:E.
  - intros [= ->]. exists [], l. repeat split; [assumption|intros y []].
  - intros H. destruct (IH H) as (before & after & -> & Hx & Hb).
    exists (a :: before), after. repeat split; [assumption|].
    intros y [<-|Hy]; auto.
Qed.

Lemma find_unique (l : list I18nFile.t) (m : I18nFile.t) :
  NoDup (map I18nFile.src_path l) -> In m l ->
  find (fun f => I18nFile.src_path f =? I18nFile.src_path m) l = Some m.
Proof.
  induction l as [|a l IH]; [intros _ []|]. cbn. intros Hnd Hin.
  apply NoDup_cons_iff in Hnd as [Ha Hnd].
  destruct (String.eqb_spec (I18nFile.src_path a) (I18nFile.src_path m)) as [E|E].
  - destruct Hin as [->|Hin]; [reflexivity|]. exfalso. apply Ha. rewrite E.
    now apply in_map.
  - destruct Hin as [->|Hin]; [congruence|auto].
Qed.

Section SrcPaths.

Local Abbreviation step :=
  (fun (d : I18nFiles.dict I18nFile.t) (file : I18nFile.t) =>
     I18nFiles.dict_set (I18nFile.src_path file) file d).

Lemma find_keys_fold (p : string -> bool) (fs : list I18nFile.t)
  (acc : I18nFiles.dict I18nFile.t) :
  find p (I18nFiles.dict_keys (fold_left step fs acc))
  = match find p (I18nFiles.dict_keys acc) with
    | Some k => Some k
    | None => option_map I18nFile.src_path (find (fun f => p (I18nFile.src_path f)) fs)
    end.
Proof.
  revert acc. induction fs as [|f fs IH]; intros acc.
  - cbn. now destruct (find p _).
  - cbn [fold_left find]. rewrite IH, dict_keys_set.
    destruct (existsb _ _) eqn:E.
    + destruct (find p (I18nFiles.dict_keys acc)) eqn:F; [reflexivity|].
      apply existsb_eqb_in in E. rewrite (find_none _ _ F _ E). reflexivity.
    + rewrite find_app_first. destruct (find p (I18nFiles.dict_keys acc)); [reflexivity|].
      cbn. now destruct (p (I18nFile.src_path f)).
Qed.

Lemma keys_fold (k : string) (fs : list I18nFile.t) (acc : I18nFiles.dict I18nFile.t) :
  In k (I18nFiles.dict_keys (fold_left step fs acc))
  <-> In k (I18nFiles.dict_keys acc) \/ exists f, In f fs /\ I18nFile.src_path f = k.
Proof.
  revert acc. induction fs as [|f fs IH]; intros acc.
  - cbn. split; [auto|]. intros [H|[f [[] _]]]. exact H.
  - cbn [fold_left]. rewrite IH, dict_keys_set. split.
    + intros [H|[g [Hg E]]].
      * destruct (existsb _ _); [now left|]. apply in_app_or in H as [H|[<-|[]]]; [now left|].
        right. exists f. split; [now left|reflexivity].
      * right. exists g. split; [now right|assumption].
    + intros [H|[g [[<-|Hg] E]]].
      * left. destruct (existsb _ _); [assumption|]. apply in_or_app. now left.
      * left. subst k. destruct (existsb _ _) eqn:X; [now apply existsb_eqb_in|].
        apply in_or_app. right. now left.
      * right. now exists g.
Qed.

Lemma get_fold (k : string) (fs : list I18nFile.t) (acc : I18nFiles.dict I18nFile.t) :
  I18nFiles.dict_get k (fold_left step fs acc)
  = match find (fun f => I18nFile.src_path f =? k) (rev fs) with
    | Some f => Some f
    | None => I18nFiles.dict_get k acc
    end.
Proof.
  revert acc. induction fs as [|f fs IH]; intros acc; [reflexivity|].
  cbn [fold_left rev]. rewrite IH, find_app_first, dict_get_set.
  destruct (find _ (rev fs)); [reflexivity|]. cbn.
  now destruct (I18nFile.src_path f =? k).
Qed.

End SrcPaths.

Lemma src_paths_find (self : I18nFiles.t) (p : string -> bool) :
  find p (I18nFiles.dict_keys (I18nFiles.src_paths self))
  = option_map I18nFile.src_path
      (find (fun f => p (I18nFile.src_path f)) (I18nFiles._files self)).
Proof. unfold I18nFiles.src_paths. now rewrite find_keys_fold. Qed.

Lemma src_paths_keys (self : I18nFiles.t) (k : string) :
  In k (I18nFiles.dict_keys (I18nFiles.src_paths self))
  <-> exists f, In f (I18nFiles._files self) /\ I18nFile.src_path f = k.
Proof.
  unfold I18nFiles.src_paths. rewrite keys_fold. cbn. split; [|auto].
  now intros [[]|H].
Qed.

Lemma src_paths_get (self : I18nFiles.t) (k : string) :
  I18nFiles.dict_get k (I18nFiles.src_paths self)
  = find (fun f => I18nFile.src_path f =? k) (rev (I18nFiles._files self)).
Proof.
  unfold I18nFiles.src_paths. rewrite get_fold. now destruct (find _ _).
Qed.

Lemma filter_head {A : Type} (p : A -> bool) (l : list A) :
  find p l = match filter p l with x :: _ => Some x | [] => None end.
Proof.
  induction l as [|a l IH]; [reflexivity|]. cbn. now destruct (p a).
Qed.

Lemma path_in_spec (expected : list Path) (s : string) :
  I18nFiles.path_in expected s = true <-> In (Pathlib.of_str s) expected.
Proof.
  unfold I18nFiles.path_in. rewrite existsb_exists. split.
  - intros [q [Hq E]]. apply path_eqb_eq in E. now subst.
  - intros H. exists (Pathlib.of_str s). split; [assumption|now apply path_eqb_eq].
Qed.

Lemma with_locale_ok (l : string) (p : Path) :
  parts_ok p -> Pathlib.name p <> "" -> locale_ok l ->
  Pathlib.with_suffix p ("." ++ l ++ Pathlib.suffix p) = Ok (with_locale l p).
Proof.
  intros Hp Hn [Hl Hsep]. rewrite with_suffix_ok; [reflexivity|assumption|].
  destruct (name_part_ok Hp Hn) as [_ Hname].
  destruct (suffix_valid _ Hname) as [Hs _]. split.
  - cbn [String.append Str.contains]. now rewrite contains_app, Hsep, Hs.
  - right. split; [reflexivity|]. cbn [String.append]. intros [= E].
    apply append_eq_empty in E as [E _]. contradiction.
Qed.

Lemma expected_src_paths_ok (self : I18nFiles.t) (path : string) :
  names_a_file path -> locale_ok (I18nFiles.locale self) ->
  locale_ok (I18nFiles.default_locale self) ->
  I18nFiles.expected_src_paths self path = Ok (forms self path).
Proof.
  intros Hn Hl Hd. unfold I18nFiles.expected_src_paths.
  rewrite !with_locale_ok; try assumption; try apply of_str_parts_ok. reflexivity.
Qed.

Lemma forms_named (self : I18nFiles.t) (path : string) (q : Path) :
  names_a_file path -> In q (forms self path) -> Pathlib.name q <> "".
Proof.
  intros Hn [<-|[<-|[<-|[]]]]; [| |exact Hn].
  - unfold with_locale. rewrite name_snoc. intros E.
    apply append_eq_empty in E as [_ E]. discriminate.
  - unfold with_locale. rewrite name_snoc. intros E.
    apply append_eq_empty in E as [_ E]. discriminate.
Qed.

(** * Facts about the locale pattern *)

Ltac bools :=
  repeat match goal with
         | H : _ && _ = true |- _ => apply andb_prop in H as [? ?]
         | H : _ || _ = true |- _ => apply orb_prop in H as [?|?]
         | H : (_ =? _)%string = true |- _ => apply String.eqb_eq in H; subst
         | H : Ascii.eqb _ _ = true |- _ => apply Ascii.eqb_eq in H; subst
         end.

Lemma re_language_spec (s : string) :
  Locale.re_match Locale.RE_LANGUAGE s = true
  <-> exists a b,
        Urllib.between "a" "z" a = true /\ Urllib.between "a" "z" b = true
        /\ (s = String a (String b "")
            \/ s = String a (String b (String Locale.newline ""))).
Proof.
  unfold Locale.re_match, Locale.RE_LANGUAGE, Locale.lower. cbn [Locale.rmatch andb].
  split.
  - destruct s as [|a [|b s]]; try discriminate; [now rewrite andb_false_r|].
    intros H. bools; exists a, b; auto.
  - intros (a & b & Ha & Hb & [->| ->]); now rewrite Ha, Hb.
Qed.

Lemma re_territory_spec (s : string) :
  Locale.re_match Locale.RE_TERRITORY s = true
  <-> exists a b c d,
        Urllib.between "a" "z" a = true /\ Urllib.between "a" "z" b = true
        /\ Urllib.between "A" "Z" c = true /\ Urllib.between "A" "Z" d = true
        /\ (s = String a (String b (String "_" (String c (String d ""))))
            \/ s = String a (String b (String "_" (String c (String d
                     (String Locale.newline "")))))).
Proof.
  unfold Locale.re_match, Locale.RE_TERRITORY, Locale.lower, Locale.upper.
  cbn [Locale.rmatch andb]. split.
  - destruct s as [|a [|b [|u [|c [|d s]]]]]; intros H; bools; try discriminate.
    + exists a, b, c, d. auto 6.
    + exists a, b, c, d. auto 6.
  - intros (a & b & c & d & Ha & Hb & Hc & Hd & [->| ->]); now rewrite Ha, Hb, Hc, Hd.
Qed.

Lemma re_locale_alt (s : string) :
  Locale.re_match Locale.RE_LOCALE s
  = Locale.re_match Locale.RE_TERRITORY s || Locale.re_match Locale.RE_LANGUAGE s.
Proof. reflexivity. Qed.

Lemma validate_locale_ok (s : string) :
  Locale.re_match Locale.RE_LOCALE s = true -> Locale._validate_locale s = Ok tt.
Proof. intros H. unfold Locale._validate_locale. now rewrite H. Qed.

Lemma validate_locale_raise (s : string) :
  Locale.re_match Locale.RE_LOCALE s = false ->
  Locale._validate_locale s = Raise (ValidationError (Locale.message s)).
Proof. intros H. unfold Locale._validate_locale. now rewrite H. Qed.

Lemma validate_keys_spec {V : Type} (d : list (string * V)) :
  match Locale.validate_keys d with
  | Ok _ => forall k, In k (map fst d) -> Locale.re_match Locale.RE_LOCALE k = true
  | Raise e =>
      exists before k v after,
        d = (before ++ (k, v) :: after)%list
        /\ (forall k', In k' (map fst before) ->
            Locale.re_match Locale.RE_LOCALE k' = true)
        /\ Locale.re_match Locale.RE_LOCALE k = false
        /\ e = ValidationError (Locale.message k)
  end.
Proof.
  induction d as [|[k v] d IH]; [intros k []|]. cbn [Locale.validate_keys].
  destruct (Locale.re_match Locale.RE_LOCALE k) eqn:E.
  - rewrite (validate_locale_ok _ E). cbn [bind].
    destruct (Locale.validate_keys d) as [u|e].
    + intros k' [<-|H]; auto.
    + destruct IH as (before & k' & v' & after & -> & H1 & H2 & H3).
      exists ((k, v) :: before), k', v', after. repeat split; try assumption.
      intros k'' [<-|H]; auto.
  - rewrite (validate_locale_raise _ E). cbn [bind].
    exists [], k, v, d. repeat split; [intros k' []|assumption].
Qed.

(** * The resolver: properties of [I18nFile] *)

Lemma find_ext_in {A : Type} (f g : A -> bool) (l : list A) :
  (forall x, In x l -> f x = g x) -> find f l = find g l.
Proof.
  induction l as [|a l IH]; intros H; [reflexivity|]. cbn [find].
  rewrite (H a (or_introl eq_refl)), IH; [reflexivity|].
  intros x Hx. apply H. now right.
Qed.

Lemma find_all_false {A : Type} (f : A -> bool) (l : list A) :
  (forall x, In x l -> f x = false) -> find f l = None.
Proof.
  induction l as [|a l IH]; intros H; [reflexivity|]. cbn [find].
  rewrite (H a (or_introl eq_refl)). apply IH. intros x Hx. apply H. now right.
Qed.

Lemma stem_name_part_ok (langs : list string) (src : string) :
  names_a_file src -> part_ok (stem_name (logical_stem langs src)).
Proof.
  intros Hn. destruct (logical_stem_facts langs Hn) as (_ & Hok & Hname & _).
  unfold stem_name. destruct (_ || _); [split; [discriminate|reflexivity]|].
  now apply name_part_ok.
Qed.

Lemma dest_name_part_ok (langs : list string) (src : string) (ls : option string) :
  names_a_file src ->
  part_ok (Pathlib.stem (mkPath "" [stem_name (logical_stem langs src)])
           ++ dest_suffix ls src).
Proof.
  intros Hn. destruct (stem_name_part_ok langs Hn) as [H1 H2].
  destruct (dest_suffix_valid ls Hn) as [H3 _]. split.
  - intros E. apply append_eq_empty in E as [E _]. revert E. now apply stem_nonempty.
  - rewrite contains_app, H3, orb_false_r. now apply stem_sep_free.
Qed.

Lemma suffix_empty_stem (p : Path) : Pathlib.suffix p = "" -> Pathlib.stem p = Pathlib.name p.
Proof.
  intros H. destruct (suffix_cases p) as [[_ E]|(i & r & _ & _ & _ & E & _)]; congruence.
Qed.

Lemma is_localized_for_spec (langs : list string) (src : string) :
  match I18nFile._is_localized_for langs src with
  | Some l =>
      exists before after,
        langs = (before ++ l :: after)%list
        /\ I18nFile.set_le ["." ++ l; I18nFile.suffix src]
             (Pathlib.suffixes (Pathlib.of_str src)) = true
        /\ forall l', In l' before ->
             I18nFile.set_le ["." ++ l'; I18nFile.suffix src]
               (Pathlib.suffixes (Pathlib.of_str src)) = false
  | None =>
      forall l, In l langs ->
        I18nFile.set_le ["." ++ l; I18nFile.suffix src]
          (Pathlib.suffixes (Pathlib.of_str src)) = false
  end.
Proof.
  induction langs as [|a langs IH]; [intros l []|]. cbn [I18nFile._is_localized_for].
  destruct (I18nFile.set_le _ _) eqn:E.
  - exists [], langs. repeat split; [assumption|intros l' []].
  - destruct (I18nFile._is_localized_for langs src) as [l|].
    + destruct IH as (before & after & -> & H1 & H2).
      exists (a :: before), after. repeat split; [assumption|].
      intros l' [<-|Hin]; [assumption|auto].
    + intros l [<-|Hin]; [assumption|auto].
Qed.

Lemma set_le_spec (a b : list string) :
  I18nFile.set_le a b = true <-> forall s, In s a -> In s b.
Proof.
  unfold I18nFile.set_le. rewrite forallb_forall. split; intros H s Hs.
  - apply H in Hs. apply existsb_exists in Hs as [y [Hy E]].
    apply String.eqb_eq in E. now subst.
  - apply existsb_exists. exists s. split; [auto|apply String.eqb_refl].
Qed.

(** C5. A locale suffix is detected exactly when, for some configured locale,
    both [.] + locale and the final extension occur in the suffix chain of
    the initial path; the whole configured list is scanned, in order. The
    logical stem is then the path with two trailing suffixes removed, and
    with one removed otherwise; removing a trailing suffix leaves the name
    without its [suffix]. *)
Theorem locale_suffix_detection (all_languages : list string) (src : string) :
  let p := Pathlib.of_str src in
  let carries l := forall s, In s ["." ++ l; Pathlib.suffix p] -> In s (Pathlib.suffixes p) in
  ((exists l, I18nFile._is_localized_for all_languages src = Some l)
   <-> (exists l, In l all_languages /\ carries l))
  /\ (forall l, I18nFile._is_localized_for all_languages src = Some l ->
        exists before after,
          all_languages = (before ++ l :: after)%list /\ carries l
          /\ forall l', In l' before -> ~ carries l')
  /\ (names_a_file src ->
      I18nFile.non_i18n_src_path all_languages src
      = Ok (match I18nFile._is_localized_for all_languages src with
            | Some _ => Pathlib.strip_suffix (Pathlib.strip_suffix p)
            | None => Pathlib.strip_suffix p
            end))
  /\ (forall q : Path,
        Pathlib.name (Pathlib.strip_suffix q) ++ Pathlib.suffix q = Pathlib.name q
        /\ root (Pathlib.strip_suffix q) = root q
        /\ removelast (parts (Pathlib.strip_suffix q)) = removelast (parts q)).
Proof.
  intros p carries.
  assert (Hc : forall l, carries l
                 <-> I18nFile.set_le ["." ++ l; I18nFile.suffix src]
                       (Pathlib.suffixes (Pathlib.of_str src)) = true)
    by (intros l; symmetry; apply set_le_spec).
  pose proof (is_localized_for_spec all_languages src) as Hs.
  split; [|split; [|split]].
  - split.
    + intros [l Hl]. rewrite Hl in Hs. destruct Hs as (before & after & -> & H1 & _).
      exists l. split; [apply in_or_app; right; now left|now apply Hc].
    + intros [l [Hin Hl]]. destruct (I18nFile._is_localized_for all_languages src) as [l'|].
      * now exists l'.
      * apply Hc in Hl. rewrite (Hs l Hin) in Hl. discriminate.
  - intros l Hl. rewrite Hl in Hs. destruct Hs as (before & after & -> & H1 & H2).
    exists before, after. repeat split; [now apply Hc|].
    intros l' Hin Hl'. apply Hc in Hl'. rewrite (H2 l' Hin) in Hl'. discriminate.
  - intros Hn. apply (non_i18n_ok all_languages Hn).
  - intros q. repeat split.
    + rewrite strip_suffix_name. apply stem_suffix.
    + cbn. apply removelast_last.
Qed.

Section ResolverClaims.

Variable exists_ : Path -> bool.
Variable is_documentation_page : string -> bool.
Variables (file_from : File.t) (language : string) (all_languages : list string).
Variables (default_language docs_dir site_dir : string).
Variable use_directory_urls : option bool.

Local Abbreviation src := (File.src_path file_from).
Local Abbreviation stem := (Pathlib.to_str (logical_stem all_languages (File.src_path file_from))).
Local Abbreviation ext := (I18nFile.suffix (File.src_path file_from)).
Local Abbreviation chain := (suffix_chain (File.src_path file_from)).
Local Abbreviation tried :=
  [ (Some language, stem ++ "." ++ language ++ ext);
    (Some default_language, stem ++ "." ++ default_language ++ ext);
    (@None string, stem ++ ext) ].
Local Abbreviation at_docs ex c := (ex (Pathlib.of_str docs_dir </> Pathlib.of_str c)).
Local Abbreviation new_file ex :=
  (I18nFile.init ex is_documentation_page file_from language all_languages
     default_language docs_dir site_dir use_directory_urls).
Local Abbreviation nm := (stem_name (logical_stem all_languages (File.src_path file_from))).

Lemma tried_sep_free (lc : option string * string) :
  names_a_file src -> is_relative src -> plain_name src ->
  Str.contains OsPath.sep language = false ->
  Str.contains OsPath.sep default_language = false ->
  In lc tried -> Pathlib.to_str (Pathlib.of_str (snd lc)) = snd lc.
Proof.
  intros Hn Hr Hp Hl Hd Hin.
  destruct (name_part_ok (of_str_parts_ok src) Hn) as [_ Hsep].
  destruct (suffix_valid _ Hsep) as [Hext _].
  destruct Hin as [<-|[<-|[<-|[]]]]; cbn [snd];
    apply candidate_roundtrip; try assumption;
    cbn [String.append Str.contains]; rewrite ?contains_app; unfold I18nFile.suffix;
    now rewrite ?Hl, ?Hd, ?Hext.
Qed.

(** C1. The resolver tries three candidate source paths in a fixed order,
    logical stem + [.] + requested locale + extension, then logical stem +
    [.] + default locale + extension, then logical stem + extension; it
    selects the first whose path under [docs_dir] exists and records the
    locale of that candidate (requested, default, or none). The outcome
    depends on the filesystem through these three paths only, and for
    locales without separator the recorded source path is the candidate
    text itself. *)
Theorem first_existing_candidate_is_selected :
  names_a_file src -> is_relative src -> plain_name src ->
  I18nFile.non_i18n_src_path all_languages src = Ok (logical_stem all_languages src)
  /\ (exists f,
        new_file exists_ = Ok f
        /\ match find (fun lc => at_docs exists_ (snd lc)) tried with
           | Some (locale, c) =>
               I18nFile.locale_suffix f = locale
               /\ I18nFile.src_path f = Pathlib.to_str (Pathlib.of_str c)
           | None =>
               I18nFile.locale_suffix f = None /\ I18nFile.src_path f = src
           end)
  /\ (forall exists' : Path -> bool,
        (forall lc, In lc tried -> at_docs exists' (snd lc) = at_docs exists_ (snd lc)) ->
        new_file exists' = new_file exists_)
  /\ (Str.contains OsPath.sep language = false ->
      Str.contains OsPath.sep default_language = false ->
      forall lc, In lc tried -> Pathlib.to_str (Pathlib.of_str (snd lc)) = snd lc).
Proof.
  intros Hn Hr Hp. split; [now apply non_i18n_ok|]. split; [|split].
  - eexists. split; [now apply init_ok|].
    unfold selected, I18nFile.candidates.
    destruct (find _ _) as [[locale c]|]; cbn; auto.
  - intros exists' H. rewrite !init_ok by assumption. do 3 f_equal.
    unfold selected. now apply find_ext_in.
  - intros Hl Hd lc Hin. now apply tried_sep_free.
Qed.

(** C2. When none of the three candidates exists the construction raises no
    error: the file keeps the source path and the destination path the walker
    supplied. *)
Theorem missing_candidates_fall_back :
  names_a_file src ->
  (forall lc, In lc tried -> at_docs exists_ (snd lc) = false) ->
  exists f,
    new_file exists_ = Ok f
    /\ I18nFile.src_path f = File.src_path file_from
    /\ I18nFile.dest_path f = File.dest_path file_from.
Proof.
  intros Hn Hnone. eexists. split.
  - apply init_fallback; [assumption|]. unfold selected. now apply find_all_false.
  - split; reflexivity.
Qed.

(** C6, as the code has it. When one of the three candidates exists: the
    destination file name is the name plus the extension for a match with a
    locale that is not empty and a name without suffix of its own; it is the
    name plus the whole suffix chain of the initial path for a match without
    locale and such a name; for a match without locale and a chain that
    consists of the name's own suffix and the extension (as in [a.tar.gz]) it
    is the name plus the extension, the original file name. A page goes to
    [parent/<name>.html] when directory URLs are disabled or the name is
    [index], to [parent/<name>/index.html] otherwise; any other file goes to
    [parent/<destination file name>]. When no candidate exists no
    destination file name is assigned and the destination path is the
    walker's. *)
Theorem destination_naming :
  names_a_file src -> is_relative src -> plain_name src ->
  exists f,
    new_file exists_ = Ok f
    /\ match find (fun lc => at_docs exists_ (snd lc)) tried with
       | Some (locale, _) =>
           let parent := fst (OsPath.split (I18nFile.src_path f)) in
           let name := I18nFile.name f in
           exists file_name,
             option_map Pathlib.to_str (I18nFile.dest_name f) = Some file_name
             /\ (I18nFile.truthy locale = true -> own_suffix name = "" ->
                 file_name = name ++ ext)
             /\ (I18nFile.truthy locale = false -> own_suffix name = "" ->
                 file_name = name ++ chain)
             /\ (I18nFile.truthy locale = false -> chain = own_suffix name ++ ext ->
                 file_name = name ++ ext)
             /\ I18nFile.dest_path f
                = if is_documentation_page (I18nFile.src_path f) then
                    if match use_directory_urls with Some false => true | _ => false end
                       || (name =? "index")
                    then under parent (name ++ ".html")
                    else under (under parent name) "index.html"
                  else under parent file_name
       | None =>
           I18nFile.dest_name f = None
           /\ I18nFile.dest_path f = File.dest_path file_from
       end.
Proof.
  intros Hn Hr Hp. eexists. split; [now apply init_ok|].
  unfold selected, I18nFile.candidates.
  destruct (find _ _) as [[locale c]|] eqn:E; [|split; reflexivity].
  cbn [option_map fst snd file_of found_of I18nFile.dest_name I18nFile.dest_path
       I18nFile.name I18nFile.src_path I18nFile.f_dest_name I18nFile.f_dest_path
       I18nFile.f_src_path].
  pose proof (dest_name_part_ok all_languages locale Hn) as Hdn.
  pose proof (stem_name_part_ok all_languages Hn) as Hnm.
  exists (Pathlib.stem (mkPath "" [nm]) ++ dest_suffix locale src).
  unfold dest_name_of. split; [|split; [|split; [|split]]].
  - f_equal. apply to_str_single. apply Hdn.
  - intros Ht Hown. unfold dest_suffix. rewrite Ht.
    now rewrite (suffix_empty_stem _ Hown).
  - intros Ht Hown. unfold dest_suffix. rewrite Ht.
    now rewrite (suffix_empty_stem _ Hown).
  - intros Ht Hchain. unfold dest_suffix. rewrite Ht, Hchain, <- append_assoc.
    f_equal. apply (stem_suffix (mkPath "" [nm])).
  - apply get_dest_path_rule; try assumption; [|apply of_str_parts_ok].
    apply find_some in E as [Hin _].
    now apply (@candidates_relative file_from language all_languages default_language (locale, c)).
Qed.

(** C7, as the code has it. The URL of a constructed file is its
    destination path with separators turned into [/], collapsed to the parent
    directory with a trailing slash when directory URLs are enabled and the
    file is an [index.html] ([.] for the root); for a requested locale that
    is not empty it is then prefixed with [<locale>/], the root URL [.]
    becoming [<locale>/]; for the empty locale no prefix is put. The result
    is percent-encoded. *)
Theorem url_of_a_resolved_file :
  (forall f,
     new_file exists_ = Ok f ->
     let url := collapse_index use_directory_urls (I18nFile.dest_path f) in
     I18nFile.url f
     = urlquote (if language =? "" then url
                 else if url =? "." then language ++ "/"
                 else language ++ "/" ++ url))
  /\ (names_a_file src -> is_relative src -> plain_name src ->
      exists f, new_file exists_ = Ok f).
Proof.
  split.
  - intros f Hf. apply init_inv in Hf as [_ [r ->]].
    destruct r; cbn [file_of I18nFile.url I18nFile.dest_path]; apply get_url_rule.
  - intros Hn Hr Hp. eexists. now apply init_ok.
Qed.

(** C9. The name used for destination naming is [index] when the final
    component of the logical stem is [index] or [README], and that final
    component otherwise. *)
Theorem name_of_a_resolved_file :
  (forall f,
     new_file exists_ = Ok f ->
     let final := Pathlib.name (logical_stem all_languages src) in
     I18nFile.name f
     = if (final =? "index") || (final =? "README") then "index" else final)
  /\ (names_a_file src -> is_relative src -> plain_name src ->
      exists f, new_file exists_ = Ok f).
Proof.
  split.
  - intros f Hf. apply init_inv in Hf as [_ [r ->]]. now destruct r.
  - intros Hn Hr Hp. eexists. now apply init_ok.
Qed.

(** C10. When none of the three candidates exists the constructed file keeps
    the walker's [src_path], [abs_src_path], [dest_path] and [abs_dest_path]
    (no locale directory enters the absolute destination), its matched locale
    stays none and its destination file name is never assigned; its URL is
    still computed from that unchanged destination path, and it is prefixed
    with the (percent-encoded) requested locale. *)
Theorem fallback_keeps_the_walker_paths :
  names_a_file src ->
  (forall lc, In lc tried -> at_docs exists_ (snd lc) = false) ->
  exists f,
    new_file exists_ = Ok f
    /\ I18nFile.src_path f = File.src_path file_from
    /\ I18nFile.abs_src_path f = File.abs_src_path file_from
    /\ I18nFile.dest_path f = File.dest_path file_from
    /\ I18nFile.abs_dest_path f = File.abs_dest_path file_from
    /\ I18nFile.locale_suffix f = None
    /\ I18nFile.dest_name f = None
    /\ I18nFile.url f = I18nFile._get_url use_directory_urls language (File.dest_path file_from)
    /\ String.prefix (urlquote language) (I18nFile.url f) = true
    /\ (language <> "" ->
        exists rest, I18nFile.url f = urlquote language ++ "/" ++ rest)
    /\ (language <> "" -> all_safe language = true ->
        String.prefix (language ++ "/") (I18nFile.url f) = true).
Proof.
  intros Hn Hnone.
  assert (Hurl : language <> "" ->
                 exists rest,
                   I18nFile._get_url use_directory_urls language (File.dest_path file_from)
                   = urlquote language ++ "/" ++ rest).
  { intros Hl. rewrite get_url_rule. unfold resolved_url, prefixed.
    apply String.eqb_neq in Hl. rewrite Hl.
    destruct (_ =? "."); rewrite quote_append.
    - now exists "".
    - rewrite quote_append. now eexists. }
  eexists. split.
  - apply init_fallback; [assumption|]. unfold selected. now apply find_all_false.
  - cbn [file_of I18nFile.src_path I18nFile.abs_src_path I18nFile.dest_path
         I18nFile.abs_dest_path I18nFile.locale_suffix I18nFile.dest_name I18nFile.url].
    repeat (split; [reflexivity|]). split; [|split].
    + destruct (String.eqb_spec language "") as [->|Hl]; [now destruct (I18nFile._get_url _ _ _)|].
      destruct (Hurl Hl) as [rest ->]. apply prefix_self_append.
    + exact Hurl.
    + intros Hl Hsafe. destruct (Hurl Hl) as [rest ->].
      rewrite (quote_safe _ Hsafe), <- append_assoc. apply prefix_self_append.
Qed.

End ResolverClaims.

(** * The collection: properties of [I18nFiles] *)

(** C3. Appending a file whose destination path a member already has leaves
    the collection unchanged, so the earlier member is kept. After any
    sequence of appends the collection is its former content followed by the
    first-inserted file of each new destination path, in insertion order; and
    when no two members shared a destination path before, none do after, in
    particular in a collection built from the empty one. *)
Theorem append_keeps_the_first_insertion :
  (forall (c : I18nFiles.t) (f : I18nFile.t),
     In (I18nFile.dest_path f) (dest_paths (I18nFiles._files c)) ->
     I18nFiles.append c f = c)
  /\ (forall (c : I18nFiles.t) (fs : list I18nFile.t),
        I18nFiles._files (fold_left I18nFiles.append fs c)
        = (I18nFiles._files c ++ keep_first (dest_paths (I18nFiles._files c)) fs)%list
        /\ subseq (keep_first (dest_paths (I18nFiles._files c)) fs) fs)
  /\ (forall (c : I18nFiles.t) (fs : list I18nFile.t),
        NoDup (dest_paths (I18nFiles._files c)) ->
        NoDup (dest_paths (I18nFiles._files (fold_left I18nFiles.append fs c))))
  /\ (forall (fs : list I18nFile.t) (locale default_locale : string),
        NoDup (dest_paths
                 (I18nFiles._files
                    (fold_left I18nFiles.append fs
                       (I18nFiles.mk [] locale default_locale))))).
Proof.
  assert (Hnd : forall c fs,
             NoDup (dest_paths (I18nFiles._files c)) ->
             NoDup (dest_paths (I18nFiles._files (fold_left I18nFiles.append fs c)))).
  { intros c fs Hc. rewrite fold_append_files. unfold dest_paths. rewrite map_app.
    apply NoDup_app; [exact Hc|apply keep_first_nodup|].
    intros d Hd Hin. apply in_map_iff in Hin as [f [<- Hf]].
    now apply keep_first_fresh in Hf. }
  split; [|split; [|split]].
  - intros c f Hin. unfold I18nFiles.append. rewrite existsb_dest.
    apply existsb_eqb_in in Hin. now rewrite Hin.
  - intros c fs. split; [apply fold_append_files|apply keep_first_subseq].
  - exact Hnd.
  - intros fs locale default_locale. apply Hnd. constructor.
Qed.

(** C4, as the code has it. For a queried path that names a file and locales
    that can stand in a file name, the three forms are the path with
    [.<requested locale>] inserted before its extension, the path with
    [.<default locale>] inserted, and the path itself. Containment holds if
    and only if the source path of some member is, as a path, one of the
    three forms. Lookup goes by the order of the members, not of the forms:
    it takes the first member, in insertion order, whose source path is any
    of the three forms, and returns the member stored last under the
    normalised text of that source path, which is that first member itself
    when its source path is normalised and no other member has it. *)
Theorem lookup_follows_insertion_order (self : I18nFiles.t) (path : string) :
  names_a_file path ->
  locale_ok (I18nFiles.locale self) -> locale_ok (I18nFiles.default_locale self) ->
  let matches f := In (Pathlib.of_str (I18nFile.src_path f)) (forms self path) in
  let first_match :=
    find (fun f => I18nFiles.path_in (forms self path) (I18nFile.src_path f))
         (I18nFiles._files self) in
  I18nFiles.expected_src_paths self path = Ok (forms self path)
  /\ (exists b,
        I18nFiles.contains self path = Ok b
        /\ (b = true <-> exists f, In f (I18nFiles._files self) /\ matches f))
  /\ I18nFiles.get_file_from_path self path
     = Ok (match first_match with
           | Some m =>
               find (fun f => I18nFile.src_path f =? OsPath.normpath (I18nFile.src_path m))
                    (rev (I18nFiles._files self))
           | None => None
           end)
  /\ (forall m, first_match = Some m ->
        exists before after,
          I18nFiles._files self = (before ++ m :: after)%list
          /\ matches m /\ forall g, In g before -> ~ matches g)
  /\ (first_match = None <-> forall f, In f (I18nFiles._files self) -> ~ matches f)
  /\ (forall m, first_match = Some m ->
        OsPath.normpath (I18nFile.src_path m) = I18nFile.src_path m ->
        NoDup (map I18nFile.src_path (I18nFiles._files self)) ->
        I18nFiles.get_file_from_path self path = Ok (Some m)).
Proof.
  intros Hn Hl Hd matches first_match.
  pose proof (expected_src_paths_ok self Hn Hl Hd) as He.
  assert (Hm : forall f, I18nFiles.path_in (forms self path) (I18nFile.src_path f) = true
                         <-> matches f) by (intros f; apply path_in_spec).
  assert (Hget : I18nFiles.get_file_from_path self path
                 = Ok (match first_match with
                       | Some m =>
                           find (fun f => I18nFile.src_path f
                                          =? OsPath.normpath (I18nFile.src_path m))
                                (rev (I18nFiles._files self))
                       | None => None
                       end)).
  { unfold I18nFiles.get_file_from_path. rewrite He. cbn [bind].
    pose proof (src_paths_find self (I18nFiles.path_in (forms self path))) as Hf.
    rewrite filter_head in Hf. fold first_match in Hf.
    destruct (filter _ _) as [|k ks]; destruct first_match as [m|]; try discriminate.
    - reflexivity.
    - injection Hf as ->. now rewrite src_paths_get. }
  split; [exact He|]. split; [|split; [exact Hget|split; [|split]]].
  - unfold I18nFiles.contains. rewrite He. cbn [bind]. eexists. split; [reflexivity|].
    rewrite existsb_exists. split.
    + intros [k [Hk _]]. apply filter_In in Hk as [Hk Hp].
      apply src_paths_keys in Hk as [f [Hf <-]]. exists f. split; [assumption|].
      now apply Hm.
    + intros [f [Hf Hmf]]. exists (I18nFile.src_path f). split.
      * apply filter_In. split; [|now apply Hm]. apply src_paths_keys. now exists f.
      * apply truthy_true. intros E. unfold matches in Hmf. rewrite E in Hmf.
        now apply (@forms_named self path _ Hn) in Hmf.
  - intros m Hfm. apply find_split in Hfm as (before & after & E & Hx & Hb).
    exists before, after. repeat split; [assumption|now apply Hm|].
    intros g Hg Hmg. apply Hm in Hmg. rewrite (Hb g Hg) in Hmg. discriminate.
  - split.
    + intros Hnone f Hf Hmf. apply Hm in Hmf.
      rewrite (find_none _ _ Hnone f Hf) in Hmf. discriminate.
    + intros Hall. apply find_all_false. intros f Hf.
      destruct (I18nFiles.path_in _ _) eqn:E; [|reflexivity].
      apply Hm in E. now apply Hall in E.
  - intros m Hfm Hnorm Hnd. rewrite Hget, Hfm, Hnorm. f_equal.
    apply find_unique.
    + rewrite map_rev. now apply NoDup_rev.
    + apply in_rev. rewrite rev_involutive. now apply find_some in Hfm.
Qed.

(** * Locale validation: properties of [Locale] *)

(** What the validation does, for every value that passes the inherited type
    check. A string is returned exactly when [RE_LOCALE] matches it, and the
    configuration error that names the string is raised otherwise. For a
    mapping the same check is applied to every key, in order, whatever the
    values are. Any other shape is returned unchanged. With the anchors of
    Python's [re], a match is a locale code, possibly followed by one final
    newline. *)
Theorem locale_validation (V O : Type) (type_error : Locale.value V O -> option string) :
  let accepted s :=
    Locale.re_match Locale.RE_LANGUAGE s = true
    \/ Locale.re_match Locale.RE_TERRITORY s = true in
  let validate := Locale.run_validation type_error in
  (forall s, type_error (Locale.VStr s) = None ->
     (validate (Locale.VStr s) = Ok (Locale.VStr s) <-> accepted s)
     /\ (~ accepted s ->
         validate (Locale.VStr s) = Raise (ValidationError (Locale.message s))))
  /\ (forall d, type_error (Locale.VDict d) = None ->
        (validate (Locale.VDict d) = Ok (Locale.VDict d)
         <-> forall k, In k (map fst d) -> accepted k)
        /\ (forall before k v after,
              d = (before ++ (k, v) :: after)%list ->
              (forall k', In k' (map fst before) -> accepted k') ->
              ~ accepted k ->
              validate (Locale.VDict d) = Raise (ValidationError (Locale.message k))))
  /\ (forall o, type_error (Locale.VOther o) = None ->
        validate (Locale.VOther o) = Ok (Locale.VOther o))
  /\ (forall v msg, type_error v = Some msg -> validate v = Raise (ValidationError msg))
  /\ (forall s,
        accepted s
        <-> exists c, locale_code c /\ (s = c \/ s = c ++ String Locale.newline ""))
  /\ (forall v, exists before after, Locale.message v = before ++ "'" ++ v ++ "'" ++ after).
Proof.
  intros accepted validate.
  assert (Hacc : forall s, accepted s <-> Locale.re_match Locale.RE_LOCALE s = true).
  { intros s. unfold accepted. rewrite re_locale_alt, orb_true_iff. tauto. }
  assert (Hrej : forall s, ~ accepted s -> Locale.re_match Locale.RE_LOCALE s = false).
  { intros s H. destruct (Locale.re_match Locale.RE_LOCALE s) eqn:E; [|reflexivity].
    now apply Hacc in E. }
  split; [|split; [|split; [|split; [|split]]]].
  - intros s Ht. unfold validate, Locale.run_validation, Locale.super_run_validation.
    rewrite Ht. cbn [bind]. split; [split|].
    + intros H. apply Hacc. destruct (Locale.re_match Locale.RE_LOCALE s) eqn:E; [reflexivity|].
      rewrite (validate_locale_raise _ E) in H. discriminate.
    + intros H. apply Hacc in H. now rewrite (validate_locale_ok _ H).
    + intros H. now rewrite (validate_locale_raise _ (Hrej _ H)).
  - intros d Ht. unfold validate, Locale.run_validation, Locale.super_run_validation.
    rewrite Ht. cbn [bind]. pose proof (validate_keys_spec d) as Hk. split; [split|].
    + intros H k Hin. apply Hacc. destruct (Locale.validate_keys d); [auto|discriminate].
    + intros H. destruct (Locale.validate_keys d) as [u|e]; [reflexivity|].
      destruct Hk as (before & k & v & after & -> & _ & Hk & _).
      assert (Hin : In k (map fst (before ++ (k, v) :: after))).
      { rewrite map_app. apply in_or_app. right. now left. }
      apply H, Hacc in Hin. congruence.
    + intros before k v after -> Hb Hk'. apply Hrej in Hk'.
      destruct (Locale.validate_keys _) as [u|e].
      * rewrite Hk in Hk'; [discriminate|]. rewrite map_app. apply in_or_app. right. now left.
      * destruct Hk as (before' & k' & v' & after' & E & H1 & H2 & ->). cbn [bind].
        enough (k' = k) by now subst.
        clear - E Hb Hk' H1 H2 Hacc. revert before' E H1.
        induction before as [|[k0 v0] before IH]; intros [|[k1 v1] before'] E H1.
        -- now injection E.
        -- injection E as <- <- _. rewrite H1 in Hk'; [discriminate|now left].
        -- injection E as -> -> _. specialize (Hb k' (or_introl eq_refl)).
           apply Hacc in Hb. congruence.
        -- injection E as <- <- E. eapply IH; [|exact E|].
           ++ intros k'' H. apply Hb. now right.
           ++ intros k'' H. apply H1. now right.
  - intros o Ht. unfold validate, Locale.run_validation, Locale.super_run_validation.
    now rewrite Ht.
  - intros v msg Ht. unfold validate, Locale.run_validation, Locale.super_run_validation.
    now rewrite Ht.
  - intros s. unfold accepted. rewrite re_language_spec, re_territory_spec.
    unfold locale_code. split.
    + intros [(a & b & Ha & Hb & [->| ->])|(a & b & c & d & Ha & Hb & Hc & Hd & [->| ->])].
      * exists (String a (String b "")). split; [exists a, b; auto|now left].
      * exists (String a (String b "")). split; [exists a, b; auto|now right].
      * exists (String a (String b (String "_" (String c (String d ""))))).
        split; [|now left]. exists a, b. repeat split; try assumption. right.
        exists c, d. auto.
      * exists (String a (String b (String "_" (String c (String d ""))))).
        split; [|now right]. exists a, b. repeat split; try assumption. right.
        exists c, d. auto.
    + intros (c & (a & b & Ha & Hb & [->|(u & d & Hu & Hd & ->)]) & [->| ->]).
      * left. exists a, b. auto.
      * left. exists a, b. auto.
      * right. exists a, b, u, d. auto 6.
      * right. exists a, b, u, d. auto 6.
  - intros v. unfold Locale.message.
    exists ("Language code values must be either ISO-639-1 lower case "
            ++ "or represented with they territory/region/county codes, "
            ++ "received "), " expected forms examples: 'en' or 'en_US'.".
    cbn. reflexivity.
Qed.

(** C8, at the input where the code leaves it. The claim has validation fail
    for every string that is not of one of the two forms. The text [en]
    followed by a newline is of neither form, yet [RE_LOCALE] matches it (its
    [$] also matches before a final newline): [_validate_locale] returns, and
    [run_validation] returns the value unchanged, as a string and as the key
    of a mapping. *)
Theorem newline_terminated_code_is_accepted :
  let value := "en" ++ String Locale.newline "" in
  let validate := Locale.run_validation (fun _ : Locale.value nat nat => None) in
  ~ locale_code value
  /\ Locale.re_match Locale.RE_LOCALE value = true
  /\ Locale._validate_locale value = Ok tt
  /\ validate (Locale.VStr value) = Ok (Locale.VStr value)
  /\ validate (Locale.VDict [(value, 0)]) = Ok (Locale.VDict [(value, 0)]).
Proof.
  cbv zeta. split; [|repeat split; reflexivity].
  intros (a & b & _ & _ & [H|(c & d & _ & _ & H)]); cbn in H; discriminate H.
Qed.

(** * The properties at sample inputs *)

Lemma intro_is_walkable :
  names_a_file (File.src_path Sample.intro) /\ is_relative (File.src_path Sample.intro)
  /\ plain_name (File.src_path Sample.intro).
Proof. repeat split. vm_compute. discriminate. Qed.

(** With [intro.md] and [intro.fr.md] on disk the French file backs the page. *)
Example resolve_requested_locale :
  Sample.resolve ["docs/guide/intro.md"; "docs/guide/intro.fr.md"] Sample.intro
  = Ok (I18nFile.mk None "docs" "site" ["fr"; "en"] "fr"
          "docs/guide/intro.md" "site/guide/intro/index.html" "guide/intro/index.html"
          "guide/intro.md" (Some "fr") "intro"
          "guide/intro.fr.md" "docs/guide/intro.fr.md"
          (Some (mkPath "" ["intro.md"]))
          "guide/intro/index.html" "site/fr/guide/intro/index.html" "fr/guide/intro/").
Proof. reflexivity. Qed.

(** With only [intro.en.md] the default locale backs the page; the output
    stays under [fr]. *)
Example resolve_default_locale :
  exists f,
    Sample.resolve ["docs/guide/intro.en.md"] Sample.intro = Ok f
    /\ I18nFile.locale_suffix f = Some "en"
    /\ I18nFile.src_path f = "guide/intro.en.md"
    /\ I18nFile.abs_dest_path f = "site/fr/guide/intro/index.html"
    /\ I18nFile.url f = "fr/guide/intro/".
Proof. eexists. split; [reflexivity|]. repeat split. Qed.

(** With only [intro.md] the unsuffixed file backs the page. *)
Example resolve_unsuffixed :
  exists f,
    Sample.resolve ["docs/guide/intro.md"] Sample.intro = Ok f
    /\ I18nFile.locale_suffix f = None
    /\ I18nFile.src_path f = "guide/intro.md"
    /\ I18nFile.url f = "fr/guide/intro/".
Proof. eexists. split; [reflexivity|]. repeat split. Qed.

(** The root document goes to [index.html] and has the URL [fr/]. *)
Example resolve_root_document :
  exists f,
    Sample.resolve ["docs/index.md"] Sample.home = Ok f
    /\ I18nFile.dest_path f = "index.html" /\ I18nFile.url f = "fr/".
Proof. eexists. split; [reflexivity|]. repeat split. Qed.

(** A file whose name begins with two dots cannot be constructed once it
    exists: its name reduces to [.]. *)
Example dotted_name_raises :
  Sample.resolve ["docs/..b"] (Sample.discovered "..b" "..b")
  = Raise (ValueError "PosixPath('.') has an empty name").
Proof. reflexivity. Qed.

Lemma first_existing_candidate_is_selected_witness :
  names_a_file "guide/intro.md" /\ is_relative "guide/intro.md"
  /\ plain_name "guide/intro.md"
  /\ exists f,
       Sample.resolve ["docs/guide/intro.md"; "docs/guide/intro.fr.md"] Sample.intro = Ok f
       /\ I18nFile.locale_suffix f = Some "fr"
       /\ I18nFile.src_path f = "guide/intro.fr.md".
Proof.
  destruct intro_is_walkable as (H1 & H2 & H3).
  repeat (split; [assumption|]).
  destruct (@first_existing_candidate_is_selected
              (Sample.on_disk ["docs/guide/intro.md"; "docs/guide/intro.fr.md"])
              Sample.is_markdown Sample.intro "fr" ["fr"; "en"] "en" "docs" "site"
              (Some true) H1 H2 H3) as (_ & (f & Hf & Hm) & _).
  exists f. split; [exact Hf|]. exact Hm.
Defined.

Lemma missing_candidates_fall_back_witness :
  names_a_file "guide/intro.md"
  /\ exists f,
       Sample.resolve [] Sample.intro = Ok f
       /\ I18nFile.src_path f = "guide/intro.md"
       /\ I18nFile.dest_path f = "guide/intro/index.html".
Proof.
  destruct intro_is_walkable as (H1 & _).
  split; [assumption|].
  apply (@missing_candidates_fall_back (Sample.on_disk []) Sample.is_markdown Sample.intro
           "fr" ["fr"; "en"] "en" "docs" "site" (Some true) H1).
  intros lc _. reflexivity.
Defined.

Lemma locale_suffix_detection_witness :
  names_a_file "guide/intro.fr.md"
  /\ I18nFile._is_localized_for ["fr"; "en"] "guide/intro.fr.md" = Some "fr"
  /\ I18nFile.non_i18n_src_path ["fr"; "en"] "guide/intro.fr.md"
     = Ok (Pathlib.of_str "guide/intro").
Proof.
  assert (H1 : names_a_file "guide/intro.fr.md") by (vm_compute; discriminate).
  destruct (locale_suffix_detection ["fr"; "en"] "guide/intro.fr.md") as (_ & _ & H & _).
  split; [assumption|]. split; [reflexivity|]. exact (H H1).
Defined.

Lemma destination_naming_witness :
  names_a_file "guide/intro.md" /\ is_relative "guide/intro.md"
  /\ plain_name "guide/intro.md"
  /\ exists f,
       Sample.resolve ["docs/guide/intro.md"; "docs/guide/intro.fr.md"] Sample.intro = Ok f
       /\ option_map Pathlib.to_str (I18nFile.dest_name f) = Some "intro.md"
       /\ I18nFile.dest_path f = "guide/intro/index.html".
Proof.
  destruct intro_is_walkable as (H1 & H2 & H3).
  repeat (split; [assumption|]).
  destruct (@destination_naming
              (Sample.on_disk ["docs/guide/intro.md"; "docs/guide/intro.fr.md"])
              Sample.is_markdown Sample.intro "fr" ["fr"; "en"] "en" "docs" "site"
              (Some true) H1 H2 H3) as (f & Hf & Hm).
  exists f. split; [exact Hf|].
  change (Sample.resolve ["docs/guide/intro.md"; "docs/guide/intro.fr.md"] Sample.intro
          = Ok f) in Hf.
  rewrite resolve_requested_locale in Hf. injection Hf as <-.
  destruct Hm as (file_name & Hname & Hlocale & _ & _ & Hdest).
  split; [|exact Hdest].
  rewrite Hname. f_equal. apply Hlocale; reflexivity.
Defined.

Lemma url_of_a_resolved_file_witness :
  names_a_file "index.md" /\ is_relative "index.md" /\ plain_name "index.md"
  /\ exists f,
       Sample.resolve ["docs/index.md"] Sample.home = Ok f /\ I18nFile.url f = "fr/".
Proof.
  assert (H1 : names_a_file "index.md") by (vm_compute; discriminate).
  assert (H2 : is_relative "index.md") by reflexivity.
  assert (H3 : plain_name "index.md") by reflexivity.
  repeat (split; [assumption|]).
  destruct (@url_of_a_resolved_file (Sample.on_disk ["docs/index.md"]) Sample.is_markdown
              Sample.home "fr" ["fr"; "en"] "en" "docs" "site" (Some true))
    as (Hurl & Htotal).
  destruct (Htotal H1 H2 H3) as (f & Hf).
  exists f. split; [exact Hf|].
  pose proof (Hurl f Hf) as Hu. vm_compute in Hf. injection Hf as <-. exact Hu.
Defined.

Lemma name_of_a_resolved_file_witness :
  names_a_file "guide/README.md" /\ is_relative "guide/README.md"
  /\ plain_name "guide/README.md"
  /\ exists f,
       Sample.resolve ["docs/guide/README.md"]
                      (Sample.discovered "guide/README.md" "guide/index.html") = Ok f
       /\ I18nFile.name f = "index".
Proof.
  assert (H1 : names_a_file "guide/README.md") by (vm_compute; discriminate).
  assert (H2 : is_relative "guide/README.md") by reflexivity.
  assert (H3 : plain_name "guide/README.md") by reflexivity.
  repeat (split; [assumption|]).
  destruct (@name_of_a_resolved_file (Sample.on_disk ["docs/guide/README.md"])
              Sample.is_markdown (Sample.discovered "guide/README.md" "guide/index.html")
              "fr" ["fr"; "en"] "en" "docs" "site" (Some true))
    as (Hname & Htotal).
  destruct (Htotal H1 H2 H3) as (f & Hf).
  exists f. split; [exact Hf|]. exact (Hname f Hf).
Defined.

Lemma fallback_keeps_the_walker_paths_witness :
  names_a_file "guide/intro.md"
  /\ exists f,
       Sample.resolve [] Sample.intro = Ok f
       /\ I18nFile.abs_dest_path f = "site/guide/intro/index.html"
       /\ I18nFile.dest_name f = None
       /\ I18nFile.url f = "fr/guide/intro/".
Proof.
  destruct intro_is_walkable as (H1 & _).
  split; [assumption|].
  destruct (@fallback_keeps_the_walker_paths (Sample.on_disk []) Sample.is_markdown
              Sample.intro "fr" ["fr"; "en"] "en" "docs" "site" (Some true) H1)
    as (f & Hf & _ & _ & _ & Habs & _ & Hname & Hurl & _).
  - intros lc _. reflexivity.
  - exists f. repeat split; assumption.
Defined.

Lemma append_keeps_the_first_insertion_witness :
  In (I18nFile.dest_path Sample.plain_page)
     (dest_paths (I18nFiles._files Sample.two_variants))
  /\ I18nFiles.append Sample.two_variants Sample.plain_page = Sample.two_variants
  /\ NoDup (dest_paths
              (I18nFiles._files
                 (fold_left I18nFiles.append
                    [Sample.plain_page; Sample.french_page; Sample.plain_page]
                    Sample.empty_collection))).
Proof.
  assert (H : In (I18nFile.dest_path Sample.plain_page)
                 (dest_paths (I18nFiles._files Sample.two_variants)))
    by (left; reflexivity).
  destruct append_keeps_the_first_insertion as (H1 & _ & H3 & _).
  split; [exact H|]. split; [exact (H1 _ _ H)|].
  apply H3. simpl. constructor.
Defined.

Example append_drops_the_later_duplicate :
  I18nFiles._files
    (fold_left I18nFiles.append
       [Sample.plain_page; Sample.french_page; Sample.member "a.en.md" "a/index.html"]
       Sample.empty_collection)
  = [Sample.plain_page; Sample.french_page].
Proof. reflexivity. Qed.

Lemma lookup_follows_insertion_order_witness :
  names_a_file "a.md" /\ locale_ok "fr" /\ locale_ok "en"
  /\ I18nFiles.contains Sample.two_variants "a.md" = Ok true
  /\ I18nFiles.get_file_from_path Sample.two_variants "a.md" = Ok (Some Sample.plain_page).
Proof.
  assert (H1 : names_a_file "a.md") by (vm_compute; discriminate).
  assert (H2 : locale_ok "fr") by (split; [discriminate|reflexivity]).
  assert (H3 : locale_ok "en") by (split; [discriminate|reflexivity]).
  repeat (split; [assumption|]).
  destruct (@lookup_follows_insertion_order Sample.two_variants "a.md" H1 H2 H3)
    as (_ & _ & _ & _ & _ & Hget).
  split; [reflexivity|].
  apply Hget; [reflexivity|reflexivity|].
  simpl. repeat constructor; simpl; intuition discriminate.
Defined.

Lemma locale_validation_witness :
  Locale.run_validation (fun _ : Locale.value nat nat => None) (Locale.VStr "en_US")
  = Ok (Locale.VStr "en_US")
  /\ Locale.run_validation (fun _ : Locale.value nat nat => None) (Locale.VStr "english")
     = Raise (ValidationError (Locale.message "english"))
  /\ Locale.run_validation (fun _ : Locale.value nat nat => None)
       (Locale.VDict [("en", 1); ("fr_FR", 2)])
     = Ok (Locale.VDict [("en", 1); ("fr_FR", 2)])
  /\ Locale.run_validation (fun _ : Locale.value nat nat => None) (Locale.VOther 7)
     = Ok (Locale.VOther 7).
Proof.
  destruct (@locale_validation nat nat (fun _ : Locale.value nat nat => None))
    as (Hstr & Hdict & Hother & _).
  split; [|split; [|split]].
  - apply (Hstr "en_US" eq_refl). right. reflexivity.
  - apply (Hstr "english" eq_refl). intros [H|H]; vm_compute in H; discriminate.
  - apply (Hdict [("en", 1); ("fr_FR", 2)] eq_refl).
    intros k [<-|[<-|[]]]; [left|right]; reflexivity.
  - apply (Hother 7 eq_refl).
Defined.

(** ** Where the claims as stated fail *)

(** C4 as stated: lookup returns the member the first matching form
    designates. With the page and its French variant both members, the page
    first, the form with [.fr] designates the French member; lookup returns
    the other one. *)
Lemma lookup_priority_counterexample :
  matched_by_first_form Sample.two_variants "a.md" Sample.french_page
  /\ I18nFiles.get_file_from_path Sample.two_variants "a.md" = Ok (Some Sample.plain_page)
  /\ I18nFiles.get_file_from_path Sample.two_variants "a.md"
     <> Ok (Some Sample.french_page).
Proof.
  split; [|split; [reflexivity|]].
  - exists [], (with_locale "fr" (Pathlib.of_str "a.md")),
      [with_locale "en" (Pathlib.of_str "a.md"); Pathlib.of_str "a.md"].
    repeat split.
    + right. now left.
    + intros g form' _ [].
  - vm_compute. discriminate.
Qed.

(** C6 as stated: the destination file name is the name plus the suffix
    chain when no locale matched, the fallback included, and the name plus
    the extension when a locale matched. For [pkg.tar.gz] the name is
    [pkg.tar] and the file name [pkg.tar.gz], not [pkg.tar.tar.gz]; in the
    fallback case there is no destination file name; for [a.b.fr.js] the name
    is [a.b] and the file name [a.js], not [a.b.js]. *)
Lemma destination_file_name_counterexample :
  (exists f,
     Sample.resolve ["docs/pkg.tar.gz"] Sample.archive = Ok f
     /\ I18nFile.locale_suffix f = None
     /\ option_map Pathlib.to_str (I18nFile.dest_name f)
        <> Some (I18nFile.name f ++ suffix_chain (File.src_path Sample.archive)))
  /\ (exists f,
        Sample.resolve [] Sample.archive = Ok f
        /\ I18nFile.locale_suffix f = None
        /\ option_map Pathlib.to_str (I18nFile.dest_name f)
           <> Some (I18nFile.name f ++ suffix_chain (File.src_path Sample.archive)))
  /\ (exists f,
        Sample.resolve ["docs/a.b.fr.js"] Sample.script_fr = Ok f
        /\ I18nFile.locale_suffix f = Some "fr"
        /\ option_map Pathlib.to_str (I18nFile.dest_name f)
           <> Some (I18nFile.name f ++ I18nFile.suffix (File.src_path Sample.script_fr))).
Proof.
  split; [|split]; eexists; (split; [reflexivity|]); (split; [reflexivity|]);
    vm_compute; discriminate.
Qed.

(** C7 as stated: the URL always carries the prefix [<requested locale>/].
    For the empty requested locale the code puts no prefix: the URL is
    [guide/intro/], not [/guide/intro/]. *)
Lemma url_prefix_counterexample :
  exists f,
    Sample.resolve_root ["docs/guide/intro.md"] Sample.intro = Ok f
    /\ I18nFile.url f = "guide/intro/"
    /\ I18nFile.url f
       <> always_prefixed_url (Some true) (I18nFile.dest_language f) (I18nFile.dest_path f).
Proof.
  eexists. split; [reflexivity|]. split; [reflexivity|]. vm_compute. discriminate.
Qed.

(** * Further properties of the resolver *)

Lemma suffixes_dotted (p : Path) (s : string) :
  In s (Pathlib.suffixes p) -> Str.startswith "." s = true.
Proof.
  unfold Pathlib.suffixes. destruct (Str.endswith "." (Pathlib.name p)); [intros []|].
  intros H. apply in_map_iff in H as [x [<- _]]. reflexivity.
Qed.

Lemma strip_suffix_none (p : Path) :
  Pathlib.name p <> "" -> Pathlib.suffix p = "" -> Pathlib.strip_suffix p = p.
Proof.
  intros Hn Hs. unfold Pathlib.strip_suffix. rewrite (suffix_empty_stem _ Hs).
  unfold Pathlib.name in *. rewrite removelast_app_last.
  - now destruct p.
  - intros E. rewrite E in Hn. now apply Hn.
Qed.

(** X1. A file without extension is never taken for a localized one,
    whatever the configured locales: its logical stem is the path itself, and
    the candidates are the path followed by [.<locale>]. *)
Theorem no_extension_is_never_localized (all_languages : list string) (src : string) :
  I18nFile.suffix src = "" ->
  I18nFile._is_localized_for all_languages src = None
  /\ (names_a_file src ->
      I18nFile.non_i18n_src_path all_languages src = Ok (Pathlib.of_str src)
      /\ forall language default_language,
           I18nFile.candidates language default_language
             (Pathlib.to_str (logical_stem all_languages src)) (I18nFile.suffix src)
           = [ (Some language, Pathlib.to_str (Pathlib.of_str src) ++ "." ++ language);
               (Some default_language,
                Pathlib.to_str (Pathlib.of_str src) ++ "." ++ default_language);
               (None, Pathlib.to_str (Pathlib.of_str src)) ]).
Proof.
  intros Hs.
  assert (Hnone : I18nFile._is_localized_for all_languages src = None).
  { induction all_languages as [|l langs IH]; [reflexivity|].
    cbn [I18nFile._is_localized_for]. rewrite Hs.
    destruct (I18nFile.set_le _ _) eqn:E; [|exact IH].
    apply set_le_spec with (s := "") in E; [|right; now left].
    apply suffixes_dotted in E. discriminate. }
  split; [exact Hnone|]. intros Hn.
  assert (Hstem : logical_stem all_languages src = Pathlib.of_str src).
  { unfold logical_stem. rewrite Hnone. now apply strip_suffix_none. }
  split.
  - rewrite (non_i18n_ok all_languages Hn). now rewrite Hstem.
  - intros language default_language. unfold I18nFile.candidates.
    rewrite Hstem, Hs, !append_empty_r. reflexivity.
Qed.

Section MoreResolver.

Variable exists_ : Path -> bool.
Variable is_documentation_page : string -> bool.
Variables (file_from : File.t) (language : string) (all_languages : list string).
Variables (default_language docs_dir site_dir : string).
Variable use_directory_urls : option bool.

Local Abbreviation src := (File.src_path file_from).
Local Abbreviation new_file ex dl :=
  (I18nFile.init ex is_documentation_page file_from language all_languages
     dl docs_dir site_dir use_directory_urls).
Local Abbreviation chosen :=
  (selected exists_ language default_language docs_dir all_languages src).

(** X2. [repr] of a constructed file raises [AttributeError] exactly when no
    candidate existed (the fallback never assigns [dest_name]); after a match
    it returns a text. *)
Theorem repr_fails_after_fallback :
  names_a_file src -> is_relative src -> plain_name src ->
  exists f,
    new_file exists_ default_language = Ok f
    /\ (chosen = None ->
        Repr.__repr__ f
        = inr (Repr.AttributeError "'I18nFile' object has no attribute 'dest_name'"))
    /\ (chosen <> None -> exists text, Repr.__repr__ f = inl text).
Proof.
  intros Hn Hr Hp. eexists. split; [now apply init_ok|].
  unfold Repr.__repr__. destruct chosen as [[ls c]|]; cbn [option_map file_of I18nFile.dest_name].
  - split; [discriminate|]. intros _. now eexists.
  - split; [reflexivity|]. intros H. now elim H.
Qed.

(** X3. When the file of the requested locale exists the default locale
    plays no role: the constructed file is the same for every default. *)
Theorem requested_locale_overrides_default (other_default : string) :
  names_a_file src -> is_relative src -> plain_name src ->
  exists_ (Pathlib.of_str docs_dir
           </> Pathlib.of_str (Pathlib.to_str (logical_stem all_languages src)
                               ++ "." ++ language ++ I18nFile.suffix src)) = true ->
  new_file exists_ default_language = new_file exists_ other_default
  /\ exists f, new_file exists_ default_language = Ok f
               /\ I18nFile.locale_suffix f = Some language.
Proof.
  intros Hn Hr Hp He. rewrite !init_ok by assumption.
  unfold selected, I18nFile.candidates. cbn [find snd]. rewrite He.
  split; [reflexivity|]. eexists. split; reflexivity.
Qed.

(** X4. On a match the resolved source is a file that exists: for locales
    without separator, [src_path] is the text of the selected candidate, the
    filesystem holds [docs_dir / src_path], and [abs_src_path] is the text of
    that path. *)
Theorem resolved_source_exists :
  names_a_file src -> is_relative src -> plain_name src ->
  Str.contains OsPath.sep language = false ->
  Str.contains OsPath.sep default_language = false ->
  chosen <> None ->
  exists f,
    new_file exists_ default_language = Ok f
    /\ exists_ (Pathlib.of_str docs_dir </> Pathlib.of_str (I18nFile.src_path f)) = true
    /\ I18nFile.abs_src_path f
       = Pathlib.to_str (Pathlib.of_str docs_dir </> Pathlib.of_str (I18nFile.src_path f))
    /\ In (I18nFile.src_path f)
          (map snd (I18nFile.candidates language default_language
                      (Pathlib.to_str (logical_stem all_languages src))
                      (I18nFile.suffix src))).
Proof.
  intros Hn Hr Hp Hl Hd Hc. eexists. split; [now apply init_ok|].
  destruct chosen as [[ls c]|] eqn:E; [|now elim Hc].
  cbn [option_map file_of found_of fst snd I18nFile.src_path I18nFile.abs_src_path
       I18nFile.f_src_path I18nFile.f_abs_src_path].
  unfold selected in E. apply find_some in E as [Hin He]. cbn [snd] in He.
  assert (Hrt : Pathlib.to_str (Pathlib.of_str c) = c).
  { apply (@tried_sep_free file_from language all_languages default_language
             (ls, c) Hn Hr Hp Hl Hd Hin). }
  rewrite Hrt. repeat split; [exact He|]. apply in_map_iff. now exists (ls, c).
Qed.

End MoreResolver.

Lemma append_same_dest (c : I18nFiles.t) (f1 f2 : I18nFile.t) :
  I18nFile.dest_path f1 = I18nFile.dest_path f2 ->
  I18nFiles.append (I18nFiles.append c f1) f2 = I18nFiles.append c f1.
Proof.
  intros E.
  unfold I18nFiles.append at 1. rewrite existsb_dest, <- E.
  assert (H : existsb (String.eqb (I18nFile.dest_path f1))
                (dest_paths (I18nFiles._files (I18nFiles.append c f1))) = true).
  { apply existsb_eqb_in. unfold I18nFiles.append. rewrite existsb_dest.
    destruct (existsb _ _) eqn:X; [now apply existsb_eqb_in|].
    cbn. unfold dest_paths. rewrite map_app. apply in_or_app. right. now left. }
  now rewrite H.
Qed.

Section Variants.

Variable exists_ : Path -> bool.
Variable is_documentation_page : string -> bool.
Variables (file1 file2 : File.t) (language : string) (all_languages : list string).
Variables (default_language docs_dir site_dir : string).
Variable use_directory_urls : option bool.

Local Abbreviation src1 := (File.src_path file1).
Local Abbreviation src2 := (File.src_path file2).
Local Abbreviation resolve file :=
  (I18nFile.init exists_ is_documentation_page file language all_languages
     default_language docs_dir site_dir use_directory_urls).

(** X5. Two files the walker reports that are variants of one logical
    document (same logical stem, same extension) resolve alike once a
    candidate exists: same source path, same matched locale, same name; when
    the document is a page, or when the match carries a locale that is not
    empty, also the same destination path and URL, so that the collection
    keeps only the first of them. *)
Theorem variants_resolve_alike :
  names_a_file src1 -> is_relative src1 -> plain_name src1 ->
  names_a_file src2 -> is_relative src2 -> plain_name src2 ->
  logical_stem all_languages src1 = logical_stem all_languages src2 ->
  I18nFile.suffix src1 = I18nFile.suffix src2 ->
  selected exists_ language default_language docs_dir all_languages src1 <> None ->
  exists f1 f2,
    resolve file1 = Ok f1 /\ resolve file2 = Ok f2
    /\ I18nFile.src_path f1 = I18nFile.src_path f2
    /\ I18nFile.abs_src_path f1 = I18nFile.abs_src_path f2
    /\ I18nFile.locale_suffix f1 = I18nFile.locale_suffix f2
    /\ I18nFile.name f1 = I18nFile.name f2
    /\ (is_documentation_page (I18nFile.src_path f1) = true
        \/ I18nFile.truthy (I18nFile.locale_suffix f1) = true ->
        I18nFile.dest_path f1 = I18nFile.dest_path f2
        /\ I18nFile.abs_dest_path f1 = I18nFile.abs_dest_path f2
        /\ I18nFile.url f1 = I18nFile.url f2
        /\ forall c, I18nFiles.append (I18nFiles.append c f1) f2 = I18nFiles.append c f1).
Proof.
  intros Hn1 Hr1 Hp1 Hn2 Hr2 Hp2 Hstem Hext Hsel.
  exists (file_of file1 language all_languages docs_dir site_dir use_directory_urls
            (option_map
               (fun lc => found_of is_documentation_page use_directory_urls language
                            docs_dir site_dir
                            (stem_name (logical_stem all_languages src1)) src1
                            (fst lc) (snd lc))
               (selected exists_ language default_language docs_dir all_languages src1))).
  exists (file_of file2 language all_languages docs_dir site_dir use_directory_urls
            (option_map
               (fun lc => found_of is_documentation_page use_directory_urls language
                            docs_dir site_dir
                            (stem_name (logical_stem all_languages src2)) src2
                            (fst lc) (snd lc))
               (selected exists_ language default_language docs_dir all_languages src2))).
  split; [now apply init_ok|]. split; [now apply init_ok|].
  assert (Hsel2 : selected exists_ language default_language docs_dir all_languages src2
                  = selected exists_ language default_language docs_dir all_languages src1)
    by (unfold selected; now rewrite Hstem, Hext).
  rewrite Hsel2.
  destruct (selected exists_ language default_language docs_dir all_languages src1)
    as [[ls c]|]; [|now elim Hsel].
  cbn [option_map file_of found_of fst snd I18nFile.src_path I18nFile.abs_src_path
       I18nFile.locale_suffix I18nFile.name I18nFile.dest_path I18nFile.abs_dest_path
       I18nFile.url I18nFile.f_src_path I18nFile.f_abs_src_path I18nFile.f_locale_suffix
       I18nFile.f_dest_path I18nFile.f_abs_dest_path].
  rewrite <- Hstem. repeat (split; [reflexivity|]).
  intros Hcase.
  assert (Hdest :
            I18nFile._get_dest_path is_documentation_page use_directory_urls
              (Pathlib.of_str c) (stem_name (logical_stem all_languages src1))
              (dest_name_of (stem_name (logical_stem all_languages src1)) src1 ls)
            = I18nFile._get_dest_path is_documentation_page use_directory_urls
                (Pathlib.of_str c) (stem_name (logical_stem all_languages src1))
                (dest_name_of (stem_name (logical_stem all_languages src1)) src2 ls)).
  { destruct Hcase as [Hpage|Htruthy].
    - unfold I18nFile._get_dest_path.
      destruct (OsPath.split (Pathlib.to_str (Pathlib.of_str c))) as [parent tail].
      now rewrite Hpage.
    - unfold dest_name_of, dest_suffix. now rewrite Htruthy, Hext. }
  rewrite <- Hdest. repeat (split; [reflexivity|]).
  intros c0. now apply append_same_dest.
Qed.

End Variants.

Section IndexPages.

Variable exists_ : Path -> bool.
Variable is_documentation_page : string -> bool.
Variables (file_from : File.t) (language : string) (all_languages : list string).
Variables (default_language docs_dir site_dir : string).
Variable use_directory_urls : option bool.

Local Abbreviation src := (File.src_path file_from).
Local Abbreviation new_file :=
  (I18nFile.init exists_ is_documentation_page file_from language all_languages
     default_language docs_dir site_dir use_directory_urls).

(** X6. A page whose logical stem ends in [index] or [README] is written to
    the [index.html] of its directory, whatever the directory URL flag is, as
    soon as a candidate exists. *)
Theorem readme_becomes_index :
  names_a_file src -> is_relative src -> plain_name src ->
  selected exists_ language default_language docs_dir all_languages src <> None ->
  Pathlib.name (logical_stem all_languages src) = "index"
  \/ Pathlib.name (logical_stem all_languages src) = "README" ->
  exists f,
    new_file = Ok f
    /\ I18nFile.name f = "index"
    /\ (is_documentation_page (I18nFile.src_path f) = true ->
        I18nFile.dest_path f
        = under (fst (OsPath.split (I18nFile.src_path f))) "index.html").
Proof.
  intros Hn Hr Hp Hsel Hname. eexists. split; [now apply init_ok|].
  assert (Hnm : stem_name (logical_stem all_languages src) = "index").
  { unfold stem_name. destruct Hname as [-> | ->]; reflexivity. }
  destruct (selected _ _ _ _ _ _) as [[ls c]|] eqn:E; [|now elim Hsel].
  cbn [option_map file_of found_of fst snd I18nFile.name I18nFile.src_path
       I18nFile.dest_path I18nFile.f_src_path I18nFile.f_dest_path].
  split; [exact Hnm|]. intros Hpage.
  unfold selected in E. apply find_some in E as [Hin _].
  unfold dest_name_of. rewrite get_dest_path_rule.
  - cbv zeta. rewrite Hpage, Hnm. cbn [String.eqb Ascii.eqb Bool.eqb].
    now rewrite orb_true_r.
  - now apply (@candidates_relative file_from language all_languages default_language
                 (ls, c)).
  - apply of_str_parts_ok.
  - now apply stem_name_part_ok.
  - now apply dest_name_part_ok.
Qed.

End IndexPages.


(** * Further properties of destinations and URLs *)

Lemma replace_same (c : ascii) (s : string) : Str.replace c c s = s.
Proof.
  induction s as [|a s IH]; [reflexivity|]. cbn. rewrite IH.
  destruct (Ascii.eqb_spec a c); congruence.
Qed.

Lemma rfind_none (c : ascii) (s : string) :
  Str.contains c s = false -> Str.rfind c s = None.
Proof.
  induction s as [|a s IH]; [reflexivity|]. cbn. intros H.
  apply orb_false_elim in H as [Ha Hs]. now rewrite (IH Hs), Ha.
Qed.

Lemma rfind_last_sep (c : ascii) (a b : string) :
  Str.contains c b = false ->
  Str.rfind c (a ++ String c b) = Some (String.length a).
Proof.
  intros Hb. induction a as [|x a IH]; cbn.
  - now rewrite (@rfind_none c b Hb), Ascii.eqb_refl.
  - now rewrite IH.
Qed.

Lemma take_append (a b : string) : Str.take (String.length a) (a ++ b) = a.
Proof. induction a as [|x a IH]; cbn; [now destruct b|now rewrite IH]. Qed.

Lemma drop_append (a b : string) : Str.drop (String.length a) (a ++ b) = b.
Proof. induction a as [|x a IH]; cbn; [reflexivity|exact IH]. Qed.

Lemma rstrip_keeps (c : ascii) (s : string) :
  Str.endswith c s = false -> Str.rstrip c s = s.
Proof.
  induction s as [|a s IH]; [reflexivity|]. intros H. cbn [Str.rstrip].
  destruct s as [|b s].
  - cbn in *. now rewrite H.
  - rewrite endswith_cons in H by discriminate. rewrite (IH H). reflexivity.
Qed.

Lemma rstrip_sep (c : ascii) (s : string) :
  s <> "" -> Str.endswith c s = false -> Str.rstrip c (s ++ String c "") = s.
Proof.
  induction s as [|a s IH]; [congruence|]. intros _ H.
  cbn [String.append Str.rstrip]. destruct s as [|b s].
  - cbn in *. now rewrite Ascii.eqb_refl, H.
  - rewrite endswith_cons in H by discriminate.
    rewrite IH; [reflexivity|discriminate|assumption].
Qed.

Lemma not_all_sep (c : ascii) (s x : string) (n : nat) :
  s <> "" -> Str.endswith c s = false -> s ++ x <> Str.repeat c n.
Proof.
  revert n. induction s as [|a s IH]; [congruence|]. intros n _ H.
  destruct s as [|b s].
  - cbn in *. destruct n; [discriminate|]. cbn. intros [= -> _].
    now rewrite Ascii.eqb_refl in H.
  - rewrite endswith_cons in H by discriminate.
    destruct n; [discriminate|]. cbn [String.append Str.repeat]. intros [= _ E].
    revert E. apply IH; [discriminate|assumption].
Qed.

(** [os.path.split] of [a/b] for a one-component [b]. *)
Lemma split_under (a b : string) :
  a <> "" -> Str.endswith OsPath.sep a = false -> Str.contains OsPath.sep b = false ->
  OsPath.split (a ++ "/" ++ b) = (a, b).
Proof.
  intros Ha He Hb. unfold OsPath.split.
  change (a ++ "/" ++ b) with (a ++ String OsPath.sep b).
  rewrite (@rfind_last_sep OsPath.sep a b Hb).
  replace (a ++ String OsPath.sep b) with ((a ++ String OsPath.sep "") ++ b)
    by (rewrite append_assoc; reflexivity).
  replace (S (String.length a)) with (String.length (a ++ String OsPath.sep ""))
    by (rewrite length_append; cbn; lia).
  rewrite take_append, drop_append.
  assert (Ht : Str.truthy (a ++ String OsPath.sep "") = true).
  { apply truthy_true. intros E. now apply append_eq_empty in E as [E _]. }
  assert (Hr : (a ++ String OsPath.sep ""
                =? Str.repeat OsPath.sep (String.length (a ++ String OsPath.sep "")))
               = false)
    by (apply String.eqb_neq; now apply not_all_sep).
  rewrite Ht, Hr. cbn [andb negb]. now rewrite rstrip_sep.
Qed.

Lemma split_plain (b : string) :
  Str.contains OsPath.sep b = false -> OsPath.split b = ("", b).
Proof.
  intros Hb. unfold OsPath.split. rewrite (@rfind_none OsPath.sep b Hb). cbn.
  now destruct b.
Qed.

Lemma under_clean (parent x : string) :
  Str.endswith OsPath.sep parent = false -> x <> "" ->
  Str.contains OsPath.sep x = false ->
  under parent x <> "" /\ Str.endswith OsPath.sep (under parent x) = false.
Proof.
  intros Hp Hx Hsep. unfold under. destruct (parent =? "") eqn:E.
  - split; [assumption|now apply endswith_contains].
  - split.
    + intros H. apply append_eq_empty in H as [H _]. apply String.eqb_neq in E.
      contradiction.
    + rewrite endswith_append by discriminate.
      rewrite endswith_append by assumption. now apply endswith_contains.
Qed.

(** [os.path.split] of [parent/x] built by [under]. *)
Lemma split_of_under (parent x : string) :
  Str.endswith OsPath.sep parent = false -> Str.contains OsPath.sep x = false ->
  OsPath.split (under parent x) = (parent, x).
Proof.
  intros Hp Hx. unfold under. destruct (String.eqb_spec parent "") as [->|Hne].
  - now apply split_plain.
  - now apply split_under.
Qed.

Lemma quoter_chars (c : ascii) : all_chars url_char (Urllib.quoter "/" c) = true.
Proof.
  unfold Urllib.quoter.
  destruct (Urllib.always_safe c || Str.contains c "/") eqn:E.
  - cbn [all_chars]. rewrite andb_true_r. unfold url_char.
    apply orb_prop in E as [E|E]; [now rewrite E|].
    rewrite orb_true_iff. right. cbn in *. apply orb_prop in E as [E|E]; [|discriminate].
    now rewrite E.
  - assert (Hhex : forall n, n < 16 -> Urllib.always_safe (Urllib.hex_digit n) = true).
    { intros n Hn. do 16 (destruct n as [|n]; [reflexivity|]). lia. }
    pose proof (nat_ascii_bounded c) as Hc.
    cbn [all_chars]. unfold url_char at 1 2 3.
    rewrite !Hhex.
    + reflexivity.
    + apply Nat.mod_upper_bound. discriminate.
    + apply Nat.Div0.div_lt_upper_bound. exact Hc.
Qed.

Lemma all_chars_append (p : ascii -> bool) (s1 s2 : string) :
  all_chars p (s1 ++ s2) = all_chars p s1 && all_chars p s2.
Proof.
  induction s1 as [|c s1 IH]; [reflexivity|]. cbn. now rewrite IH, andb_assoc.
Qed.

Lemma quote_chars (s : string) : all_chars url_char (urlquote s) = true.
Proof.
  unfold urlquote, Urllib.quote. induction s as [|c s IH]; [reflexivity|].
  cbn [Urllib.quote_from_bytes]. now rewrite all_chars_append, quoter_chars, IH.
Qed.

Section MoreUrls.

Variable exists_ : Path -> bool.
Variable is_documentation_page : string -> bool.
Variables (file_from : File.t) (language : string) (all_languages : list string).
Variables (default_language docs_dir site_dir : string).

Local Abbreviation src := (File.src_path file_from).
Local Abbreviation new_file flag :=
  (I18nFile.init exists_ is_documentation_page file_from language all_languages
     default_language docs_dir site_dir flag).
Local Abbreviation chosen :=
  (selected exists_ language default_language docs_dir all_languages src).

(** X7. The URL of a constructed file is made of unreserved characters, [/]
    and [%] only. *)
Theorem url_is_percent_encoded (flag : option bool) (f : I18nFile.t) :
  new_file flag = Ok f -> all_chars url_char (I18nFile.url f) = true.
Proof.
  intros Hf. apply init_inv in Hf as [_ [r ->]].
  destruct r; cbn [file_of I18nFile.url]; rewrite get_url_rule; apply quote_chars.
Qed.

(** X8. With directory URLs enabled, the destination and the URL of a page
    agree, once a candidate exists and for a requested locale that is not
    empty: an [index] page goes to [parent/index.html] and is served at
    [<locale>/parent/] ([<locale>/] at the root); any other page goes to
    [parent/<name>/index.html] and is served at [<locale>/parent/<name>/]. *)
Theorem directory_urls_agree :
  names_a_file src -> is_relative src -> plain_name src ->
  chosen <> None -> language <> "" ->
  exists f,
    new_file (Some true) = Ok f
    /\ (is_documentation_page (I18nFile.src_path f) = true ->
        let parent := fst (OsPath.split (I18nFile.src_path f)) in
        if I18nFile.name f =? "index" then
          I18nFile.dest_path f = under parent "index.html"
          /\ I18nFile.url f
             = urlquote (language ++ "/" ++ (if parent =? "" then "" else parent ++ "/"))
        else
          I18nFile.dest_path f = under (under parent (I18nFile.name f)) "index.html"
          /\ I18nFile.url f
             = urlquote (language ++ "/" ++ under parent (I18nFile.name f) ++ "/")).
Proof.
  intros Hn Hr Hp Hsel Hl. eexists. split; [now apply init_ok|].
  destruct chosen as [[ls c]|] eqn:E; [|now elim Hsel].
  cbn [option_map file_of found_of fst snd I18nFile.name I18nFile.src_path
       I18nFile.dest_path I18nFile.url I18nFile.f_src_path I18nFile.f_dest_path].
  intros Hpage. unfold selected in E. apply find_some in E as [Hin _].
  assert (Hrel : root (Pathlib.of_str c) = "")
    by now apply (@candidates_relative file_from language all_languages
                    default_language (ls, c)).
  pose proof (stem_name_part_ok all_languages Hn) as [Hnm Hsep].
  pose proof (@split_parent_clean _ (@to_str_not_abs _ Hrel (of_str_parts_ok c))) as Hparent.
  unfold dest_name_of. rewrite get_dest_path_rule;
    [|assumption|apply of_str_parts_ok|now apply stem_name_part_ok
     |now apply dest_name_part_ok].
  cbv zeta. rewrite Hpage. cbn [orb].
  set (parent := fst (OsPath.split (Pathlib.to_str (Pathlib.of_str c)))) in *.
  set (name := stem_name (logical_stem all_languages src)) in *.
  rewrite get_url_rule. unfold resolved_url, collapse_index, prefixed.
  rewrite replace_same. apply String.eqb_neq in Hl. rewrite Hl.
  destruct (name =? "index") eqn:En.
  - apply String.eqb_eq in En. rewrite En.
    change ("index" ++ ".html") with "index.html". split; [reflexivity|].
    rewrite (@split_of_under parent "index.html" Hparent) by reflexivity. cbn [fst snd andb].
    rewrite String.eqb_refl. destruct (parent =? "") eqn:Ep; [reflexivity|].
    assert (Hd : (parent ++ "/" =? ".") = false).
    { apply String.eqb_neq. destruct parent as [|a [|b p]]; cbn; discriminate. }
    now rewrite Hd.
  - split; [reflexivity|].
    destruct (@under_clean parent name Hparent Hnm Hsep) as [Hu1 Hu2].
    rewrite (@split_of_under (under parent name) "index.html" Hu2) by reflexivity. cbn [fst snd andb].
    rewrite String.eqb_refl.
    apply String.eqb_neq in Hu1. rewrite Hu1.
    assert (Hd : (under parent name ++ "/" =? ".") = false).
    { apply String.eqb_neq. apply String.eqb_neq in Hu1.
      destruct (under parent name) as [|a [|b p]]; cbn; discriminate. }
    now rewrite Hd.
Qed.

(** X9. Unless the directory URL flag is [True] the URL is never collapsed:
    it is the destination path, prefixed and encoded. With the flag unset
    ([None]) a page other than [index] still goes to
    [parent/<name>/index.html], so that its URL ends in [index.html]. *)
Theorem url_keeps_index_without_flag (flag : option bool) :
  flag <> Some true ->
  (forall f,
     new_file flag = Ok f ->
     I18nFile.url f
     = urlquote (if language =? "" then I18nFile.dest_path f
                 else prefixed language (I18nFile.dest_path f)))
  /\ (flag = None ->
      names_a_file src -> is_relative src -> plain_name src -> chosen <> None ->
      exists f,
        new_file flag = Ok f
        /\ (is_documentation_page (I18nFile.src_path f) = true ->
            I18nFile.name f <> "index" ->
            I18nFile.dest_path f
            = under (under (fst (OsPath.split (I18nFile.src_path f))) (I18nFile.name f))
                    "index.html")).
Proof.
  intros Hflag. split.
  - intros f Hf. apply init_inv in Hf as [_ [r ->]].
    assert (Hc : forall d, collapse_index flag d = d).
    { intros d. unfold collapse_index. rewrite replace_same.
      destruct flag as [[|]|]; [now elim Hflag|reflexivity|reflexivity]. }
    destruct r; cbn [file_of I18nFile.url I18nFile.dest_path];
      rewrite get_url_rule; unfold resolved_url; now rewrite Hc.
  - intros -> Hn Hr Hp Hsel. eexists. split; [now apply init_ok|].
    destruct chosen as [[ls c]|] eqn:E; [|now elim Hsel].
    cbn [option_map file_of found_of fst snd I18nFile.name I18nFile.src_path
         I18nFile.dest_path I18nFile.f_src_path I18nFile.f_dest_path].
    intros Hpage Hname. unfold selected in E. apply find_some in E as [Hin _].
    unfold dest_name_of. rewrite get_dest_path_rule;
      [|now apply (@candidates_relative file_from language all_languages
                     default_language (ls, c))
       |apply of_str_parts_ok|now apply stem_name_part_ok|now apply dest_name_part_ok].
    cbv zeta. rewrite Hpage. apply String.eqb_neq in Hname. now rewrite Hname.
Qed.

End MoreUrls.


(** * Further properties of the collection *)

Lemma of_str_empty_name (s : string) : Pathlib.name (Pathlib.of_str s) <> "" -> s <> "".
Proof. intros H ->. now apply H. Qed.

Lemma locale_suffix_checks (l : string) (p : Path) :
  parts_ok p ->
  (exists q, Pathlib.with_suffix p ("." ++ l ++ Pathlib.suffix p) = Ok q)
  <-> Pathlib.name p <> ""
      /\ Str.contains OsPath.sep l = false
      /\ (l = "" -> Pathlib.suffix p <> "").
Proof.
  intros Hp. split.
  - intros [q Hq]. apply with_suffix_inv in Hq as [Hn [[Hsep Hv] _]].
    split; [exact Hn|].
    change ("." ++ l ++ Pathlib.suffix p) with (String "." (l ++ Pathlib.suffix p)) in *.
    cbn [Str.contains] in Hsep. apply orb_false_elim in Hsep as [_ Hsep].
    rewrite contains_app in Hsep. apply orb_false_elim in Hsep as [Hl _].
    split; [exact Hl|]. intros -> E. cbn [String.append] in Hv. rewrite E in Hv.
    destruct Hv as [Hv|[_ Hv]]; [discriminate|now apply Hv].
  - intros [Hn [Hl Hs]]. eexists. apply with_suffix_ok; [exact Hn|].
    destruct (name_part_ok Hp Hn) as [_ Hname].
    destruct (suffix_valid _ Hname) as [Hsfx _]. split.
    + change ("." ++ l ++ Pathlib.suffix p) with (String "." (l ++ Pathlib.suffix p)).
      cbn [Str.contains]. rewrite contains_app, Hl, Hsfx. reflexivity.
    + right. split; [reflexivity|].
      change ("." ++ l ++ Pathlib.suffix p) with (String "." (l ++ Pathlib.suffix p)).
      intros [= E]. apply append_eq_empty in E as [E1 E2]. now apply Hs.
Qed.

Lemma with_suffix_raises (p : Path) (s : string) (e : exn) :
  Pathlib.with_suffix p s = Raise e -> exists msg, e = ValueError msg.
Proof.
  unfold Pathlib.with_suffix.
  repeat match goal with
         | |- context [if ?b then _ else _] => destruct b
         end; intros [= <-]; now eexists.
Qed.

Lemma expected_src_paths_cases (self : I18nFiles.t) (path : string) :
  let p := Pathlib.of_str path in
  let fits l := Str.contains OsPath.sep l = false /\ (l = "" -> Pathlib.suffix p <> "") in
  match I18nFiles.expected_src_paths self path with
  | Ok _ =>
      names_a_file path /\ fits (I18nFiles.locale self)
      /\ fits (I18nFiles.default_locale self)
  | Raise e =>
      (exists msg, e = ValueError msg)
      /\ ~ (names_a_file path /\ fits (I18nFiles.locale self)
            /\ fits (I18nFiles.default_locale self))
  end.
Proof.
  intros p fits. unfold I18nFiles.expected_src_paths. fold p.
  pose proof (@locale_suffix_checks (I18nFiles.locale self) p (of_str_parts_ok path)) as H1.
  pose proof (@locale_suffix_checks (I18nFiles.default_locale self) p
                (of_str_parts_ok path)) as H2.
  destruct (Pathlib.with_suffix p ("." ++ I18nFiles.locale self ++ Pathlib.suffix p))
    as [p1|e1] eqn:E1; cbn [bind].
  - destruct (proj1 H1 (ex_intro _ p1 eq_refl)) as [Hn Hl].
    destruct (Pathlib.with_suffix p ("." ++ I18nFiles.default_locale self
                                       ++ Pathlib.suffix p)) as [p2|e2] eqn:E2; cbn [bind].
    + destruct (proj1 H2 (ex_intro _ p2 eq_refl)) as [_ Hd]. now repeat split.
    + split; [now apply with_suffix_raises in E2|].
      intros [_ [_ Hd]]. destruct (proj2 H2 (conj Hn Hd)) as [q Hq]. discriminate.
  - split; [now apply with_suffix_raises in E1|].
    intros [Hn [Hl _]]. destruct (proj2 H1 (conj Hn Hl)) as [q Hq]. discriminate.
Qed.

(** X10. The two lookups raise in the same cases, and only [ValueError]:
    they answer exactly when the queried path names a file, neither locale
    holds a separator, and no empty locale meets a path without extension. *)
Theorem lookups_raise_exactly_when (self : I18nFiles.t) (path : string) :
  let p := Pathlib.of_str path in
  let fits l := Str.contains OsPath.sep l = false /\ (l = "" -> Pathlib.suffix p <> "") in
  ((exists b, I18nFiles.contains self path = Ok b)
   <-> names_a_file path /\ fits (I18nFiles.locale self)
       /\ fits (I18nFiles.default_locale self))
  /\ ((exists r, I18nFiles.get_file_from_path self path = Ok r)
      <-> exists b, I18nFiles.contains self path = Ok b)
  /\ (forall e, I18nFiles.contains self path = Raise e
                <-> I18nFiles.get_file_from_path self path = Raise e)
  /\ (forall e, I18nFiles.contains self path = Raise e -> exists msg, e = ValueError msg).
Proof.
  intros p fits. pose proof (expected_src_paths_cases self path) as H.
  cbv zeta in H. fold p in H. fold fits in H.
  unfold I18nFiles.contains, I18nFiles.get_file_from_path.
  destruct (I18nFiles.expected_src_paths self path) as [expected|e0]; cbn [bind].
  - split; [|split; [|split]].
    + split; [intros _; exact H|intros _; now eexists].
    + split; intros _; [now eexists|].
      destruct (filter _ _); now eexists.
    + intros e. split; [discriminate|]. destruct (filter _ _); discriminate.
    + discriminate.
  - destruct H as [Hmsg Hnot]. split; [|split; [|split]].
    + split; [intros [b Hb]; discriminate|intros Hc; now elim Hnot].
    + split; intros [x Hx]; discriminate.
    + intros e. split; intros [= <-]; reflexivity.
    + intros e [= <-]. exact Hmsg.
Qed.

Lemma matching_key_truthy (self : I18nFiles.t) (path k : string) :
  names_a_file path -> I18nFiles.path_in (forms self path) k = true -> Str.truthy k = true.
Proof.
  intros Hn Hk. apply path_in_spec in Hk. apply truthy_true.
  apply of_str_empty_name. now apply (@forms_named self path _ Hn).
Qed.

Lemma filter_first_in {A : Type} (p : A -> bool) (l : list A) (x : A) (r : list A) :
  filter p l = x :: r -> In x l /\ p x = true.
Proof.
  intros E. apply filter_In. rewrite E. now left.
Qed.

(** X11. A lookup that returns a file agrees with containment: the file is
    a member and the path is contained. When every member's source path is
    normalised the converse holds too, and the file returned is one whose
    source path is a form of the query. *)
Theorem lookup_agrees_with_contains (self : I18nFiles.t) (path : string) :
  names_a_file path ->
  locale_ok (I18nFiles.locale self) -> locale_ok (I18nFiles.default_locale self) ->
  (forall g, I18nFiles.get_file_from_path self path = Ok (Some g) ->
     I18nFiles.contains self path = Ok true /\ In g (I18nFiles._files self))
  /\ ((forall f, In f (I18nFiles._files self) -> normalised f) ->
      (I18nFiles.contains self path = Ok true
       <-> exists g, I18nFiles.get_file_from_path self path = Ok (Some g))
      /\ forall g, I18nFiles.get_file_from_path self path = Ok (Some g) ->
                   matches_query self path g).
Proof.
  intros Hn Hl Hd.
  pose proof (expected_src_paths_ok self Hn Hl Hd) as He.
  unfold I18nFiles.contains, I18nFiles.get_file_from_path. rewrite He. cbn [bind].
  assert (Hfirst : forall g,
            match filter (I18nFiles.path_in (forms self path))
                    (I18nFiles.dict_keys (I18nFiles.src_paths self)) with
            | src_path :: _ =>
                Ok (I18nFiles.dict_get (OsPath.normpath src_path) (I18nFiles.src_paths self))
            | [] => Ok None
            end = Ok (Some g) ->
            Ok (existsb Str.truthy
                  (filter (I18nFiles.path_in (forms self path))
                     (I18nFiles.dict_keys (I18nFiles.src_paths self)))) = Ok true
            /\ In g (I18nFiles._files self)).
  { intros g. destruct (filter _ _) as [|k r] eqn:E; [discriminate|]. intros [= Hg].
    apply filter_first_in in E as [_ Hk]. split.
    - cbn [existsb]. now rewrite (@matching_key_truthy self path k Hn Hk).
    - rewrite src_paths_get in Hg. apply find_some in Hg as [Hg _].
      now apply in_rev. }
  split; [exact Hfirst|]. intros Hnorm.
  assert (Hk : forall k r,
            filter (I18nFiles.path_in (forms self path))
              (I18nFiles.dict_keys (I18nFiles.src_paths self)) = k :: r ->
            exists g, I18nFiles.dict_get (OsPath.normpath k) (I18nFiles.src_paths self)
                      = Some g
                      /\ I18nFile.src_path g = k
                      /\ In (Pathlib.of_str k) (forms self path)).
  { intros k r E. apply filter_first_in in E as [Hin Hk].
    apply src_paths_keys in Hin as [m [Hm Hsrc]].
    pose proof (Hnorm m Hm) as Hnm. unfold normalised in Hnm. rewrite Hsrc in Hnm.
    rewrite Hnm, src_paths_get.
    destruct (find _ _) as [g|] eqn:Ef.
    - exists g. apply find_some in Ef as [_ Eg]. apply String.eqb_eq in Eg.
      split; [reflexivity|]. split; [exact Eg|]. now apply path_in_spec.
    - apply find_none with (x := m) in Ef; [|now apply in_rev in Hm].
      rewrite Hsrc, String.eqb_refl in Ef. discriminate. }
  split.
  - split.
    + intros [= Hc]. destruct (filter _ _) as [|k r] eqn:E; [discriminate|].
      destruct (Hk k r eq_refl) as [g [Hg _]]. exists g. now rewrite Hg.
    + intros [g Hg]. now apply Hfirst in Hg.
  - intros g. destruct (filter _ _) as [|k r] eqn:E; [discriminate|]. intros [= Hg].
    destruct (Hk k r eq_refl) as [g' [Hg' [Hsrc Hform]]].
    rewrite Hg in Hg'. injection Hg' as <-. unfold matches_query. now rewrite Hsrc.
Qed.

(** X12. The lookup reads the member stored under the normalised text of the
    first matching source path: when no member has that text as its source
    path the lookup returns [None] although the path is contained. *)
Theorem unnormalised_member_is_not_found (self : I18nFiles.t) (path : string)
  (m : I18nFile.t) :
  names_a_file path ->
  locale_ok (I18nFiles.locale self) -> locale_ok (I18nFiles.default_locale self) ->
  find (fun f => I18nFiles.path_in (forms self path) (I18nFile.src_path f))
       (I18nFiles._files self) = Some m ->
  (forall g, In g (I18nFiles._files self) ->
             I18nFile.src_path g <> OsPath.normpath (I18nFile.src_path m)) ->
  I18nFiles.contains self path = Ok true
  /\ I18nFiles.get_file_from_path self path = Ok None.
Proof.
  intros Hn Hl Hd Hfind Hmiss.
  pose proof (expected_src_paths_ok self Hn Hl Hd) as He.
  unfold I18nFiles.contains, I18nFiles.get_file_from_path. rewrite He. cbn [bind].
  pose proof (src_paths_find self (I18nFiles.path_in (forms self path))) as Hf.
  rewrite Hfind, filter_head in Hf. cbn [option_map] in Hf.
  destruct (filter _ _) as [|k r] eqn:E; [discriminate|]. injection Hf as ->.
  apply filter_first_in in E as [_ Hk]. split.
  - cbn [existsb]. now rewrite (@matching_key_truthy self path _ Hn Hk).
  - rewrite src_paths_get. destruct (find _ (rev _)) as [g|] eqn:Ef; [|reflexivity].
    apply find_some in Ef as [Hg Eg]. apply String.eqb_eq in Eg.
    apply in_rev in Hg. now elim (Hmiss g Hg).
Qed.

Lemma keep_first_dests (seen : list string) (fs : list I18nFile.t) (d : string) :
  In d seen \/ In d (dest_paths (keep_first seen fs)) <-> In d seen \/ In d (dest_paths fs).
Proof.
  revert seen. induction fs as [|f fs IH]; intros seen; [reflexivity|].
  cbn [keep_first]. destruct (existsb _ seen) eqn:E.
  - rewrite IH. cbn. apply existsb_eqb_in in E. split.
    + intros [H|H]; auto.
    + intros [H|[<-|H]]; auto.
  - cbn [dest_paths map]. fold (dest_paths (keep_first (I18nFile.dest_path f :: seen) fs)).
    fold (dest_paths fs). specialize (IH (I18nFile.dest_path f :: seen)). cbn in IH |- *.
    tauto.
Qed.

Lemma keep_first_length (seen : list string) (fs : list I18nFile.t) :
  List.length (keep_first seen fs) <= List.length fs.
Proof.
  revert seen. induction fs as [|f fs IH]; intros seen; [constructor|].
  cbn [keep_first]. destruct (existsb _ seen); cbn.
  - specialize (IH seen). lia.
  - specialize (IH (I18nFile.dest_path f :: seen)). lia.
Qed.

Lemma fold_append_locale (fs : list I18nFile.t) (c : I18nFiles.t) :
  I18nFiles.locale (fold_left I18nFiles.append fs c) = I18nFiles.locale c
  /\ I18nFiles.default_locale (fold_left I18nFiles.append fs c)
     = I18nFiles.default_locale c.
Proof.
  revert c. induction fs as [|f fs IH]; intros c; [now split|].
  cbn [fold_left]. destruct (IH (I18nFiles.append c f)) as [-> ->].
  unfold I18nFiles.append. now destruct (existsb _ _).
Qed.

(** X13. Appending loses no destination: after any sequence of appends the
    destination paths of the collection are those it had and those of the
    appended files. The members it had stay, at most one member is added per
    append, and the two locales of the collection are untouched. *)
Theorem append_covers_every_destination (c : I18nFiles.t) (fs : list I18nFile.t) :
  let c' := fold_left I18nFiles.append fs c in
  (forall d, In d (dest_paths (I18nFiles._files c'))
             <-> In d (dest_paths (I18nFiles._files c)) \/ In d (dest_paths fs))
  /\ (forall f, In f (I18nFiles._files c) -> In f (I18nFiles._files c'))
  /\ List.length (I18nFiles._files c) <= List.length (I18nFiles._files c')
  /\ List.length (I18nFiles._files c') <= List.length (I18nFiles._files c) + List.length fs
  /\ I18nFiles.locale c' = I18nFiles.locale c
  /\ I18nFiles.default_locale c' = I18nFiles.default_locale c.
Proof.
  intros c'. unfold c'. rewrite fold_append_files.
  split; [|split; [|split; [|split]]].
  - intros d. unfold dest_paths at 1. rewrite map_app, in_app_iff.
    apply keep_first_dests.
  - intros f Hf. apply in_or_app. now left.
  - rewrite length_app. lia.
  - rewrite length_app.
    pose proof (keep_first_length (dest_paths (I18nFiles._files c)) fs). lia.
  - apply fold_append_locale.
Qed.

(** * Validated locales *)

Lemma between_not (lo hi c x : ascii) :
  Urllib.between lo hi c = true ->
  Nat.ltb (nat_of_ascii x) (nat_of_ascii lo) || Nat.ltb (nat_of_ascii hi) (nat_of_ascii x)
  = true ->
  c <> x.
Proof.
  unfold Urllib.between. intros H Hx ->.
  apply andb_prop in H as [H1 H2]. apply Nat.leb_le in H1, H2.
  apply orb_prop in Hx as [Hx|Hx]; apply Nat.ltb_lt in Hx; lia.
Qed.

Lemma locale_code_ok (s : string) : locale_code s -> locale_ok s /\ all_safe s = true.
Proof.
  intros [a [b [Ha [Hb H]]]].
  assert (Hlow : forall x, Urllib.between "a" "z" x = true ->
                           Ascii.eqb x "/" = false
                           /\ Urllib.always_safe x = true).
  { intros x Hx. split.
    - apply Ascii.eqb_neq. now apply (@between_not _ _ _ "/"%char Hx).
    - unfold Urllib.always_safe. rewrite Hx. now rewrite orb_true_r. }
  assert (Hup : forall x, Urllib.between "A" "Z" x = true ->
                          Ascii.eqb x "/" = false
                          /\ Urllib.always_safe x = true).
  { intros x Hx. split.
    - apply Ascii.eqb_neq. now apply (@between_not _ _ _ "/"%char Hx).
    - unfold Urllib.always_safe. now rewrite Hx. }
  destruct (Hlow a Ha) as [Ea Sa]. destruct (Hlow b Hb) as [Eb Sb].
  destruct H as [->|[c [d [Hc [Hd ->]]]]].
  - split; [split; [discriminate|]|].
    + unfold OsPath.sep. cbn [Str.contains]. now rewrite Ea, Eb.
    + cbn [all_safe]. now rewrite Sa, Sb.
  - destruct (Hup c Hc) as [Ec Sc]. destruct (Hup d Hd) as [Ed Sd].
    split; [split; [discriminate|]|].
    + unfold OsPath.sep. cbn [Str.contains]. now rewrite Ea, Eb, Ec, Ed.
    + cbn [all_safe]. now rewrite Sa, Sb, Sc, Sd.
Qed.

Lemma validated_code (s : string) :
  Locale._validate_locale s = Ok tt ->
  exists code, locale_code code /\ (s = code \/ s = code ++ String Locale.newline "").
Proof.
  unfold Locale._validate_locale.
  destruct (Locale.re_match Locale.RE_LOCALE s) eqn:E; [|discriminate]. intros _.
  rewrite re_locale_alt in E. apply orb_prop in E as [E|E].
  - apply re_territory_spec in E as [a [b [c [d [Ha [Hb [Hc [Hd E]]]]]]]].
    exists (String a (String b (String "_" (String c (String d ""))))). split.
    + exists a, b. repeat split; try assumption. right. now exists c, d.
    + destruct E as [->| ->]; [now left|now right].
  - apply re_language_spec in E as [a [b [Ha [Hb E]]]].
    exists (String a (String b "")). split.
    + exists a, b. repeat split; try assumption. now left.
    + destruct E as [->| ->]; [now left|now right].
Qed.

Lemma locale_ok_newline (code : string) :
  locale_ok code -> locale_ok (code ++ String Locale.newline "").
Proof.
  intros [Hne Hsep]. split.
  - intros E. now apply append_eq_empty in E as [E _].
  - now rewrite contains_app, Hsep.
Qed.

Lemma validated_locale_ok (s : string) : Locale._validate_locale s = Ok tt -> locale_ok s.
Proof.
  intros H. apply validated_code in H as [code [Hc [->| ->]]].
  - now apply locale_code_ok.
  - apply locale_ok_newline. now apply locale_code_ok.
Qed.

(** X14. Locales that passed [_validate_locale] never make a lookup fail: for
    every queried path that names a file both lookups return, and the
    forms compared are the path with [.<locale>] before its extension, for
    the two locales, and the path. *)
Theorem validated_locales_keep_lookups_total (self : I18nFiles.t) (path : string) :
  Locale._validate_locale (I18nFiles.locale self) = Ok tt ->
  Locale._validate_locale (I18nFiles.default_locale self) = Ok tt ->
  names_a_file path ->
  I18nFiles.expected_src_paths self path = Ok (forms self path)
  /\ (exists b, I18nFiles.contains self path = Ok b)
  /\ (exists r, I18nFiles.get_file_from_path self path = Ok r).
Proof.
  intros Hl Hd Hn. apply validated_locale_ok in Hl, Hd.
  pose proof (expected_src_paths_ok self Hn Hl Hd) as He.
  split; [exact He|].
  unfold I18nFiles.contains, I18nFiles.get_file_from_path. rewrite He. cbn [bind].
  split; [now eexists|]. destruct (filter _ _); now eexists.
Qed.

Section ValidatedUrls.

Variable exists_ : Path -> bool.
Variable is_documentation_page : string -> bool.
Variables (file_from : File.t) (language : string) (all_languages : list string).
Variables (default_language docs_dir site_dir : string).
Variable use_directory_urls : option bool.

Local Abbreviation new_file :=
  (I18nFile.init exists_ is_documentation_page file_from language all_languages
     default_language docs_dir site_dir use_directory_urls).

(** X15. The URL of every file constructed for a validated locale begins
    with the locale code and a slash; a final newline, which the pattern lets
    through, is encoded as [%0A] before that slash. *)
Theorem validated_locale_leads_the_url (f : I18nFile.t) :
  Locale._validate_locale language = Ok tt ->
  new_file = Ok f ->
  exists code rest,
    locale_code code
    /\ all_chars url_char rest = true
    /\ ((language = code /\ I18nFile.url f = code ++ "/" ++ rest)
        \/ (language = code ++ String Locale.newline ""
            /\ I18nFile.url f = code ++ "%0A/" ++ rest)).
Proof.
  intros Hv Hf. apply validated_code in Hv as [code [Hc Hlang]].
  destruct (locale_code_ok Hc) as [[Hne _] Hsafe].
  apply init_inv in Hf as [_ [r ->]].
  assert (Hurl : forall d,
            exists rest,
              all_chars url_char rest = true
              /\ resolved_url use_directory_urls language d
                 = urlquote language ++ "/" ++ rest).
  { intros d. unfold resolved_url, prefixed.
    assert (Hl : (language =? "") = false).
    { apply String.eqb_neq. destruct Hlang as [->| ->]; [exact Hne|].
      intros E. now apply append_eq_empty in E as [E _]. }
    rewrite Hl. destruct (collapse_index use_directory_urls d =? ".").
    - exists "". split; [reflexivity|]. now rewrite quote_append.
    - exists (urlquote (collapse_index use_directory_urls d)).
      split; [apply quote_chars|]. now rewrite !quote_append. }
  assert (Hq : urlquote code = code) by now apply quote_safe.
  assert (Hres : forall d,
            exists rest,
              all_chars url_char rest = true
              /\ ((language = code
                   /\ I18nFile._get_url use_directory_urls language d
                      = code ++ "/" ++ rest)
                  \/ (language = code ++ String Locale.newline ""
                      /\ I18nFile._get_url use_directory_urls language d
                         = code ++ "%0A/" ++ rest))).
  { intros d. destruct (Hurl d) as [rest [Hrest E]]. exists rest.
    split; [exact Hrest|]. rewrite get_url_rule, E.
    destruct Hlang as [->| ->].
    - left. now rewrite Hq.
    - right. split; [reflexivity|]. rewrite quote_append, Hq.
      now rewrite append_assoc. }
  exists code. destruct r; cbn [file_of I18nFile.url];
    match goal with
    | |- context [I18nFile._get_url _ _ ?d] =>
        destruct (Hres d) as [rest [Hrest Hcase]]; exists rest; now repeat split
    end.
Qed.

End ValidatedUrls.


(** * Candidates as variants of the document *)

Lemma split_app (c : ascii) (x y : string) :
  Str.split c (x ++ String c y) = (Str.split c x ++ Str.split c y)%list.
Proof.
  induction x as [|a x IH]; cbn [String.append Str.split].
  - now rewrite Ascii.eqb_refl.
  - rewrite IH. destruct (Ascii.eqb a c); [reflexivity|].
    pose proof (split_not_nil c x) as Hne.
    destruct (Str.split c x) as [|h t]; [congruence|reflexivity].
Qed.

Lemma rfind_none_free (c : ascii) (s : string) :
  Str.rfind c s = None -> Str.contains c s = false.
Proof.
  induction s as [|a s IH]; [reflexivity|]. cbn.
  destruct (Str.rfind c s); [discriminate|].
  destruct (Ascii.eqb a c); [discriminate|]. intros _. now apply IH.
Qed.

Lemma rfind_tail_free (c : ascii) (s r : string) (i : nat) :
  Str.rfind c s = Some i -> Str.drop i s = String c r -> Str.contains c r = false.
Proof.
  revert i. induction s as [|a s IH]; [discriminate|]. cbn [Str.rfind]. intros i.
  destruct (Str.rfind c s) as [j|] eqn:E.
  - intros [= <-]. cbn [Str.drop]. now apply IH.
  - destruct (Ascii.eqb a c); [|discriminate]. intros [= <-]. cbn [Str.drop].
    intros [= _ <-]. now apply rfind_none_free.
Qed.

Lemma suffix_dot_free (p : Path) (r : string) :
  Pathlib.suffix p = String "." r -> Str.contains "." r = false.
Proof.
  unfold Pathlib.suffix. destruct (Str.rfind "." (Pathlib.name p)) as [i|] eqn:E;
    [|discriminate].
  destruct (Nat.ltb 0 i && Nat.ltb i (String.length (Pathlib.name p) - 1));
    [|discriminate].
  intros H. exact (rfind_tail_free _ E H).
Qed.

Lemma lstrip_app (c : ascii) (s x : string) :
  Str.lstrip c s <> "" -> Str.lstrip c (s ++ x) = Str.lstrip c s ++ x.
Proof.
  induction s as [|a s IH]; [cbn; congruence|]. cbn [String.append Str.lstrip].
  destruct (Ascii.eqb a c); [exact IH|reflexivity].
Qed.

(** The suffixes of a name [n.l.e]. *)
Lemma localized_name (q : Path) (n l e : string) :
  Pathlib.name q = n ++ "." ++ l ++ String "." e ->
  n <> "" -> Str.lstrip "." n <> "" ->
  l <> "" -> Str.contains "." l = false ->
  e <> "" -> Str.contains "." e = false ->
  Pathlib.suffix q = String "." e
  /\ Pathlib.stem q = n ++ "." ++ l
  /\ In ("." ++ l) (Pathlib.suffixes q)
  /\ In (String "." e) (Pathlib.suffixes q).
Proof.
  intros Hq Hn Hls Hl Hdl He Hde.
  assert (Hname : Pathlib.name q = (n ++ "." ++ l) ++ String "." e)
    by (rewrite Hq, !append_assoc; reflexivity).
  assert (Hr : Str.rfind "." (Pathlib.name q) = Some (String.length (n ++ "." ++ l)))
    by (rewrite Hname; now apply rfind_last_sep).
  assert (Hlen : String.length (Pathlib.name q)
                 = String.length (n ++ "." ++ l) + S (String.length e))
    by (rewrite Hname, length_append; reflexivity).
  assert (Hpos : 0 < String.length (n ++ "." ++ l)).
  { rewrite length_append. destruct n; [congruence|cbn; lia]. }
  assert (He' : 0 < String.length e) by (destruct e; [congruence|cbn; lia]).
  assert (Hcond : Nat.ltb 0 (String.length (n ++ "." ++ l))
                  && Nat.ltb (String.length (n ++ "." ++ l))
                       (String.length (Pathlib.name q) - 1) = true).
  { apply andb_true_intro. split; apply Nat.ltb_lt; lia. }
  assert (Hend : Str.endswith "." (Pathlib.name q) = false).
  { rewrite Hname, endswith_append by discriminate.
    rewrite endswith_cons by assumption. now apply endswith_contains. }
  assert (Hsplit : Str.split "." (Str.lstrip "." (Pathlib.name q))
                   = (Str.split "." (Str.lstrip "." n) ++ [l; e])%list).
  { rewrite Hq, lstrip_app by assumption.
    change (Str.lstrip "." n ++ "." ++ l ++ String "." e)
      with (Str.lstrip "." n ++ String "." (l ++ String "." e)).
    rewrite !split_app, (@split_no_sep "." l Hdl), (@split_no_sep "." e Hde).
    reflexivity. }
  split; [|split; [|split]].
  - unfold Pathlib.suffix. rewrite Hr, Hcond, Hname. apply drop_append.
  - unfold Pathlib.stem. rewrite Hr, Hcond, Hname. apply take_append.
  - unfold Pathlib.suffixes. rewrite Hend, Hsplit.
    pose proof (split_not_nil "." (Str.lstrip "." n)) as Hne.
    destruct (Str.split "." (Str.lstrip "." n)) as [|h t]; [congruence|].
    cbn [tl app]. rewrite map_app. apply in_or_app. right. now left.
  - unfold Pathlib.suffixes. rewrite Hend, Hsplit.
    pose proof (split_not_nil "." (Str.lstrip "." n)) as Hne.
    destruct (Str.split "." (Str.lstrip "." n)) as [|h t]; [congruence|].
    cbn [tl app]. rewrite map_app. apply in_or_app. right. right. now left.
Qed.

(** The stem of a name [n.l]. *)
Lemma single_suffix_name (q : Path) (n l : string) :
  Pathlib.name q = n ++ String "." l ->
  n <> "" -> l <> "" -> Str.contains "." l = false ->
  Pathlib.stem q = n /\ Pathlib.suffix q = String "." l.
Proof.
  intros Hq Hn Hl Hdl.
  assert (Hr : Str.rfind "." (Pathlib.name q) = Some (String.length n))
    by (rewrite Hq; now apply rfind_last_sep).
  assert (Hlen : String.length (Pathlib.name q) = String.length n + S (String.length l))
    by (rewrite Hq, length_append; reflexivity).
  assert (Hpos : 0 < String.length n) by (destruct n; [congruence|cbn; lia]).
  assert (Hl' : 0 < String.length l) by (destruct l; [congruence|cbn; lia]).
  assert (Hcond : Nat.ltb 0 (String.length n)
                  && Nat.ltb (String.length n) (String.length (Pathlib.name q) - 1)
                  = true).
  { apply andb_true_intro. split; apply Nat.ltb_lt; lia. }
  split.
  - unfold Pathlib.stem. rewrite Hr, Hcond, Hq. apply take_append.
  - unfold Pathlib.suffix. rewrite Hr, Hcond, Hq. apply drop_append.
Qed.

Lemma logical_stem_undotted (langs : list string) (src : string) :
  names_a_file src -> plain_name src ->
  Pathlib.name (logical_stem langs src) <> "."
  /\ String.prefix ".." (Pathlib.name (logical_stem langs src)) = false.
Proof.
  intros Hn Hp.
  assert (H0 : Pathlib.name (Pathlib.of_str src) <> ".").
  { intros E. apply (@of_str_no_dot src). rewrite <- E. now apply name_in_parts. }
  destruct (stem_plain _ H0 Hp) as [H1 H2].
  unfold logical_stem. destruct (I18nFile._is_localized_for langs src).
  - rewrite strip_suffix_name. apply stem_plain; now rewrite strip_suffix_name.
  - rewrite strip_suffix_name. now split.
Qed.

Lemma undotted_lstrip (n : string) :
  n <> "" -> n <> "." -> String.prefix ".." n = false -> Str.lstrip "." n <> "".
Proof.
  intros Hn Hd Hp. destruct n as [|a n]; [congruence|]. cbn [Str.lstrip].
  destruct (Ascii.eqb_spec a ".") as [->|Ha]; [|discriminate].
  destruct n as [|b n]; [congruence|]. cbn [Str.lstrip].
  destruct (Ascii.eqb_spec b ".") as [->|Hb]; [|discriminate].
  destruct n; cbn in Hp; discriminate.
Qed.

Lemma undotted_prefix (n x : string) :
  n <> "" -> n <> "." -> String.prefix ".." n = false -> String.prefix ".." (n ++ x) = false.
Proof.
  intros Hn Hd Hp. destruct n as [|a [|b n]]; try congruence.
  - cbn [String.prefix String.append].
    destruct (Ascii.ascii_dec "." a) as [<-|Ha]; [congruence|reflexivity].
  - cbn [String.prefix String.append] in *. destruct (Ascii.ascii_dec "." a); [|reflexivity].
    destruct (Ascii.ascii_dec "." b); [destruct n; discriminate|reflexivity].
Qed.

(** The parsed path of a candidate text. *)
Lemma of_str_candidate (langs : list string) (src x : string) :
  names_a_file src -> is_relative src -> plain_name src ->
  Str.contains OsPath.sep x = false ->
  Pathlib.of_str (Pathlib.to_str (logical_stem langs src) ++ x)
  = mkPath "" (removelast (parts (logical_stem langs src))
               ++ [Pathlib.name (logical_stem langs src) ++ x]).
Proof.
  intros Hn Hr Hp Hx.
  destruct (logical_stem_facts langs Hn) as (Hroot & Hok & Hname & Hne).
  pose proof (logical_stem_no_dot langs Hn Hp) as Hdot.
  pose proof (logical_stem_plain langs Hp) as Hnd.
  unfold is_relative in Hr. rewrite Hr in Hroot.
  set (st := logical_stem langs src) in *.
  set (q := mkPath "" (removelast (parts st) ++ [Pathlib.name st ++ x])).
  assert (Hq : Pathlib.to_str st ++ x = Pathlib.to_str q).
  { unfold Pathlib.to_str. subst q. rewrite Hroot. cbn [root parts String.append].
    rewrite <- join_snoc.
    unfold Pathlib.name. rewrite removelast_app_last by assumption.
    destruct (parts st) as [|a l] eqn:E; [congruence|].
    assert (Ha : a <> "").
    { unfold parts_ok in Hok. rewrite E in Hok. inversion Hok as [|? ? [Ha _] _]. exact Ha. }
    pose proof (join_first l Ha) as Hj.
    assert (Hj' : Str.join "/" (a :: l) ++ x <> "").
    { intros E'. now apply append_eq_empty in E' as [E' _]. }
    apply truthy_true in Hj, Hj'. now rewrite Hj, Hj'. }
  rewrite Hq. apply of_str_to_str.
  - reflexivity.
  - apply snoc_parts_ok; [assumption|]. destruct (name_part_ok Hok Hname) as [H1 H2].
    split.
    + intros E. now apply append_eq_empty in E as [E _].
    + now rewrite contains_app, H2, Hx.
  - cbn. now destruct (removelast (parts st)).
  - cbn. intros Hin. apply in_app_or in Hin as [Hin|[Hin|[]]].
    + apply Hdot. now apply in_removelast.
    + destruct (Pathlib.name st) as [|c [|c' n]] eqn:E; cbn in Hin; congruence.
Qed.

(** X16. The candidate built for a configured locale is a variant of the
    document it was built from: for a source path with an extension and a
    locale without dot or separator, the candidate names a file, has the same
    extension, carries a detected locale suffix and has the same logical
    stem, so that resolving it tries the same three candidates. *)
Theorem locale_candidate_is_a_variant (all_languages : list string) (src l : string) :
  names_a_file src -> is_relative src -> plain_name src ->
  I18nFile.suffix src <> "" ->
  In l all_languages ->
  l <> "" -> Str.contains "." l = false -> Str.contains OsPath.sep l = false ->
  let c := Pathlib.to_str (logical_stem all_languages src) ++ "." ++ l
           ++ I18nFile.suffix src in
  names_a_file c /\ is_relative c /\ plain_name c
  /\ I18nFile.suffix c = I18nFile.suffix src
  /\ I18nFile._is_localized_for all_languages c <> None
  /\ logical_stem all_languages c = logical_stem all_languages src
  /\ forall language default_language,
       I18nFile.candidates language default_language
         (Pathlib.to_str (logical_stem all_languages c)) (I18nFile.suffix c)
       = I18nFile.candidates language default_language
           (Pathlib.to_str (logical_stem all_languages src)) (I18nFile.suffix src).
Proof.
  intros Hn Hr Hp Hext Hin Hl Hdl Hsl c.
  destruct (logical_stem_facts all_languages Hn) as (Hroot & Hok & Hname & Hne).
  destruct (logical_stem_undotted all_languages Hn Hp) as [Hnd Hnp].
  unfold is_relative in Hr. rewrite Hr in Hroot.
  destruct (name_part_ok (of_str_parts_ok src) Hn) as [_ Hsepn].
  destruct (suffix_valid _ Hsepn) as [Hsepx _].
  assert (Hx : exists e, I18nFile.suffix src = String "." e /\ e <> ""
                         /\ Str.contains "." e = false).
  { unfold I18nFile.suffix in *.
    destruct (suffix_cases (Pathlib.of_str src)) as [[E _]|(i & r & _ & _ & _ & E & Hr' & _)];
      [congruence|].
    exists r. repeat split; [exact E|exact Hr'|now apply (@suffix_dot_free _ _ E)]. }
  destruct Hx as (e & He & Hene & Hde).
  set (st := logical_stem all_languages src) in *.
  set (n := Pathlib.name st) in *.
  assert (Hc : Pathlib.of_str c
               = mkPath "" (removelast (parts st) ++ [n ++ "." ++ l ++ String "." e])).
  { subst c. rewrite He.
    apply (@of_str_candidate all_languages src ("." ++ l ++ String "." e) Hn Hr Hp).
    change ("." ++ l ++ String "." e) with (String "." (l ++ String "." e)).
    cbn [Str.contains]. rewrite contains_app, Hsl.
    change (Pathlib.suffix (Pathlib.of_str src)) with (I18nFile.suffix src) in Hsepx.
    rewrite He in Hsepx. cbn [Str.contains] in Hsepx. exact Hsepx. }
  assert (Hnamec : Pathlib.name (Pathlib.of_str c) = n ++ "." ++ l ++ String "." e)
    by (rewrite Hc; apply name_snoc).
  destruct (@localized_name (Pathlib.of_str c) n l e Hnamec Hname
              (undotted_lstrip Hname Hnd Hnp) Hl Hdl Hene Hde)
    as (Hsfx & Hstem & Hinl & Hine).
  assert (Hsuffix : I18nFile.suffix c = I18nFile.suffix src)
    by (unfold I18nFile.suffix at 1; now rewrite Hsfx, He).
  assert (Hloc : I18nFile._is_localized_for all_languages c <> None).
  { intros E. pose proof (is_localized_for_spec all_languages c) as Hspec.
    rewrite E in Hspec. specialize (Hspec l Hin).
    assert (Ht : I18nFile.set_le ["." ++ l; I18nFile.suffix c]
                   (Pathlib.suffixes (Pathlib.of_str c)) = true).
    { apply set_le_spec. intros s [<-|[<-|[]]]; [exact Hinl|].
      rewrite Hsuffix, He. exact Hine. }
    congruence. }
  assert (Hls : logical_stem all_languages c = st).
  { unfold logical_stem at 1.
    destruct (I18nFile._is_localized_for all_languages c); [|congruence].
    set (q1 := Pathlib.strip_suffix (Pathlib.of_str c)).
    assert (Hq1 : q1 = mkPath "" (removelast (parts st) ++ [n ++ String "." l])).
    { unfold q1, Pathlib.strip_suffix. rewrite Hstem, Hc. cbn [root parts].
      now rewrite removelast_last. }
    assert (Hn1 : Pathlib.name q1 = n ++ String "." l) by (rewrite Hq1; apply name_snoc).
    destruct (@single_suffix_name q1 n l Hn1 Hname Hl Hdl) as [Hs1 _].
    unfold Pathlib.strip_suffix. rewrite Hs1, Hq1. cbn [root parts].
    rewrite removelast_last. unfold n, Pathlib.name.
    rewrite removelast_app_last by assumption.
    destruct st as [r ps]. cbn in *. now subst. }
  split; [|split; [|split; [|split; [|split; [|split]]]]].
  - unfold names_a_file. rewrite Hnamec. intros E.
    apply append_eq_empty in E as [E _]. contradiction.
  - unfold is_relative. now rewrite Hc.
  - unfold plain_name. rewrite Hnamec. now apply undotted_prefix.
  - exact Hsuffix.
  - exact Hloc.
  - exact Hls.
  - intros language default_language. now rewrite Hls, Hsuffix.
Qed.

(** * Errors of the construction *)

Lemma nameless_raises (langs : list string) (src : string) :
  ~ names_a_file src ->
  I18nFile.non_i18n_src_path langs src
  = Raise (ValueError ("PosixPath('" ++ Pathlib.to_str (Pathlib.of_str src)
                       ++ "') has an empty name")).
Proof.
  intros Hn.
  assert (E : Pathlib.name (Pathlib.of_str src) = "").
  { destruct (Pathlib.name (Pathlib.of_str src)) eqn:E; [reflexivity|].
    elim Hn. unfold names_a_file. rewrite E. discriminate. }
  assert (H : Pathlib.with_suffix (Pathlib.of_str src) ""
              = Raise (ValueError ("PosixPath('" ++ Pathlib.to_str (Pathlib.of_str src)
                                   ++ "') has an empty name"))).
  { unfold Pathlib.with_suffix. cbn [Str.contains Str.truthy String.eqb negb andb orb].
    now rewrite E. }
  unfold I18nFile.non_i18n_src_path.
  destruct (I18nFile._is_localized_for langs src); now rewrite H.
Qed.

Section ConstructionErrors.

Variable exists_ : Path -> bool.
Variable is_documentation_page : string -> bool.
Variables (file_from : File.t) (language : string) (all_languages : list string).
Variables (default_language docs_dir site_dir : string).
Variable use_directory_urls : option bool.

Local Abbreviation src := (File.src_path file_from).
Local Abbreviation new_file :=
  (I18nFile.init exists_ is_documentation_page file_from language all_languages
     default_language docs_dir site_dir use_directory_urls).

(** X17. For a source path without a final component (the empty path, [.],
    [/]) the construction raises [ValueError], from the [with_suffix] of
    [non_i18n_src_path], whatever the filesystem holds: the name is computed
    before any candidate is probed. A file is constructed only for a source
    path that names a file. *)
Theorem nameless_source_is_rejected :
  (~ names_a_file src ->
   new_file = Raise (ValueError ("PosixPath('" ++ Pathlib.to_str (Pathlib.of_str src)
                                 ++ "') has an empty name")))
  /\ (forall f, new_file = Ok f -> names_a_file src).
Proof.
  split.
  - intros Hn. unfold I18nFile.init, I18nFile._get_stem.
    now rewrite (nameless_raises all_languages Hn).
  - intros f Hf. now apply init_inv in Hf as [Hn _].
Qed.

End ConstructionErrors.


(** * The further properties at sample inputs *)

Lemma readme_is_walkable :
  names_a_file (File.src_path Sample2.readme) /\ is_relative (File.src_path Sample2.readme)
  /\ plain_name (File.src_path Sample2.readme).
Proof. repeat split. vm_compute. discriminate. Qed.

Lemma no_extension_is_never_localized_witness :
  I18nFile.suffix "LICENSE" = ""
  /\ names_a_file "LICENSE"
  /\ I18nFile._is_localized_for ["fr"; "en"] "LICENSE" = None
  /\ I18nFile.candidates "fr" "en"
       (Pathlib.to_str (logical_stem ["fr"; "en"] "LICENSE")) (I18nFile.suffix "LICENSE")
     = [(Some "fr", "LICENSE.fr"); (Some "en", "LICENSE.en"); (None, "LICENSE")].
Proof.
  assert (H : I18nFile.suffix "LICENSE" = "") by reflexivity.
  assert (Hn : names_a_file "LICENSE") by (vm_compute; discriminate).
  destruct (@no_extension_is_never_localized ["fr"; "en"] "LICENSE" H) as [H1 H2].
  destruct (H2 Hn) as [_ H3].
  split; [exact H|]. split; [exact Hn|]. split; [exact H1|]. exact (H3 "fr" "en").
Defined.

Lemma repr_fails_after_fallback_witness :
  names_a_file "guide/intro.md" /\ is_relative "guide/intro.md"
  /\ plain_name "guide/intro.md"
  /\ exists f,
       Sample.resolve [] Sample.intro = Ok f
       /\ Repr.__repr__ f
          = inr (Repr.AttributeError "'I18nFile' object has no attribute 'dest_name'").
Proof.
  destruct intro_is_walkable as (H1 & H2 & H3).
  repeat (split; [assumption|]).
  destruct (@repr_fails_after_fallback (Sample.on_disk []) Sample.is_markdown Sample.intro
              "fr" ["fr"; "en"] "en" "docs" "site" (Some true) H1 H2 H3)
    as (f & Hf & Hnone & _).
  exists f. split; [exact Hf|]. apply Hnone. reflexivity.
Defined.

Lemma requested_locale_overrides_default_witness :
  names_a_file "guide/intro.md" /\ is_relative "guide/intro.md"
  /\ plain_name "guide/intro.md"
  /\ Sample.resolve ["docs/guide/intro.fr.md"; "docs/guide/intro.de.md"] Sample.intro
     = I18nFile.init (Sample.on_disk ["docs/guide/intro.fr.md"; "docs/guide/intro.de.md"])
         Sample.is_markdown Sample.intro "fr" ["fr"; "en"] "de" "docs" "site" (Some true)
  /\ exists f,
       Sample.resolve ["docs/guide/intro.fr.md"; "docs/guide/intro.de.md"] Sample.intro
       = Ok f
       /\ I18nFile.locale_suffix f = Some "fr".
Proof.
  destruct intro_is_walkable as (H1 & H2 & H3).
  repeat (split; [assumption|]).
  apply (@requested_locale_overrides_default
           (Sample.on_disk ["docs/guide/intro.fr.md"; "docs/guide/intro.de.md"])
           Sample.is_markdown Sample.intro "fr" ["fr"; "en"] "en" "docs" "site" (Some true)
           "de" H1 H2 H3).
  reflexivity.
Defined.

Lemma resolved_source_exists_witness :
  names_a_file "guide/intro.md" /\ is_relative "guide/intro.md"
  /\ plain_name "guide/intro.md"
  /\ exists f,
       Sample.resolve ["docs/guide/intro.en.md"] Sample.intro = Ok f
       /\ Sample.on_disk ["docs/guide/intro.en.md"]
            (Pathlib.of_str "docs" </> Pathlib.of_str (I18nFile.src_path f)) = true
       /\ I18nFile.abs_src_path f
          = Pathlib.to_str (Pathlib.of_str "docs" </> Pathlib.of_str (I18nFile.src_path f)).
Proof.
  destruct intro_is_walkable as (H1 & H2 & H3).
  repeat (split; [assumption|]).
  destruct (@resolved_source_exists (Sample.on_disk ["docs/guide/intro.en.md"])
              Sample.is_markdown Sample.intro "fr" ["fr"; "en"] "en" "docs" "site"
              (Some true) H1 H2 H3) as (f & Hf & He & Ha & _).
  - reflexivity.
  - reflexivity.
  - vm_compute. discriminate.
  - exists f. repeat split; assumption.
Defined.

Lemma variants_resolve_alike_witness :
  logical_stem ["fr"; "en"] "guide/intro.md" = logical_stem ["fr"; "en"] "guide/intro.fr.md"
  /\ I18nFile.suffix "guide/intro.md" = I18nFile.suffix "guide/intro.fr.md"
  /\ exists f1 f2,
       Sample.resolve ["docs/guide/intro.md"; "docs/guide/intro.fr.md"] Sample.intro = Ok f1
       /\ Sample.resolve ["docs/guide/intro.md"; "docs/guide/intro.fr.md"] Sample.intro_fr
          = Ok f2
       /\ I18nFile.src_path f1 = I18nFile.src_path f2
       /\ I18nFile.dest_path f1 = I18nFile.dest_path f2
       /\ I18nFiles.append (I18nFiles.append Sample.empty_collection f1) f2
          = I18nFiles.append Sample.empty_collection f1.
Proof.
  assert (Hs : logical_stem ["fr"; "en"] "guide/intro.md"
               = logical_stem ["fr"; "en"] "guide/intro.fr.md") by reflexivity.
  assert (He : I18nFile.suffix "guide/intro.md" = I18nFile.suffix "guide/intro.fr.md")
    by reflexivity.
  split; [exact Hs|]. split; [exact He|].
  destruct intro_is_walkable as (H1 & H2 & H3).
  assert (H4 : names_a_file "guide/intro.fr.md") by (vm_compute; discriminate).
  assert (H5 : is_relative "guide/intro.fr.md") by reflexivity.
  assert (H6 : plain_name "guide/intro.fr.md") by reflexivity.
  destruct (@variants_resolve_alike
              (Sample.on_disk ["docs/guide/intro.md"; "docs/guide/intro.fr.md"])
              Sample.is_markdown Sample.intro Sample.intro_fr "fr" ["fr"; "en"] "en"
              "docs" "site" (Some true) H1 H2 H3 H4 H5 H6 Hs He)
    as (f1 & f2 & Hf1 & Hf2 & Hsrc & _ & Hloc & _ & Hrest).
  - vm_compute. discriminate.
  - exists f1, f2. split; [exact Hf1|]. split; [exact Hf2|]. split; [exact Hsrc|].
    destruct Hrest as (Hd & _ & _ & Happ).
    + right.
      change (Sample.resolve ["docs/guide/intro.md"; "docs/guide/intro.fr.md"] Sample.intro
              = Ok f1) in Hf1.
      rewrite resolve_requested_locale in Hf1. injection Hf1 as <-. reflexivity.
    + split; [exact Hd|]. apply Happ.
Defined.

Lemma readme_becomes_index_witness :
  names_a_file "guide/README.md" /\ is_relative "guide/README.md"
  /\ plain_name "guide/README.md"
  /\ exists f,
       Sample2.resolve_with (Some false) ["docs/guide/README.md"] Sample2.readme = Ok f
       /\ I18nFile.name f = "index"
       /\ I18nFile.dest_path f = "guide/index.html".
Proof.
  destruct readme_is_walkable as (H1 & H2 & H3).
  repeat (split; [assumption|]).
  destruct (@readme_becomes_index (Sample.on_disk ["docs/guide/README.md"])
              Sample.is_markdown Sample2.readme "fr" ["fr"; "en"] "en" "docs" "site"
              (Some false) H1 H2 H3) as (f & Hf & Hname & Hdest).
  - vm_compute. discriminate.
  - right. reflexivity.
  - exists f. split; [exact Hf|]. split; [exact Hname|].
    assert (Hsrc : I18nFile.src_path f = "guide/README.md").
    { vm_compute in Hf. injection Hf as <-. reflexivity. }
    rewrite Hdest; rewrite Hsrc; reflexivity.
Defined.

Lemma url_is_percent_encoded_witness :
  exists f,
    Sample.resolve ["docs/guide/intro.md"; "docs/guide/intro.fr.md"] Sample.intro = Ok f
    /\ all_chars url_char (I18nFile.url f) = true.
Proof.
  eexists. split; [exact resolve_requested_locale|].
  exact (@url_is_percent_encoded
           (Sample.on_disk ["docs/guide/intro.md"; "docs/guide/intro.fr.md"])
           Sample.is_markdown Sample.intro "fr" ["fr"; "en"] "en" "docs" "site"
           (Some true) _ resolve_requested_locale).
Defined.

Lemma directory_urls_agree_witness :
  names_a_file "guide/intro.md" /\ is_relative "guide/intro.md"
  /\ plain_name "guide/intro.md"
  /\ exists f,
       Sample.resolve ["docs/guide/intro.md"] Sample.intro = Ok f
       /\ I18nFile.dest_path f = "guide/intro/index.html"
       /\ I18nFile.url f = "fr/guide/intro/".
Proof.
  destruct intro_is_walkable as (H1 & H2 & H3).
  repeat (split; [assumption|]).
  destruct (@directory_urls_agree (Sample.on_disk ["docs/guide/intro.md"])
              Sample.is_markdown Sample.intro "fr" ["fr"; "en"] "en" "docs" "site"
              H1 H2 H3) as (f & Hf & Hpage).
  - vm_compute. discriminate.
  - discriminate.
  - exists f. split; [exact Hf|].
    vm_compute in Hf. injection Hf as <-. apply Hpage. reflexivity.
Defined.

Lemma url_keeps_index_without_flag_witness :
  None <> Some true
  /\ names_a_file "guide/intro.md" /\ is_relative "guide/intro.md"
  /\ plain_name "guide/intro.md"
  /\ exists f,
       Sample2.resolve_with None ["docs/guide/intro.md"] Sample.intro = Ok f
       /\ I18nFile.dest_path f = "guide/intro/index.html"
       /\ I18nFile.url f = "fr/guide/intro/index.html".
Proof.
  assert (H0 : @None bool <> Some true) by discriminate.
  destruct intro_is_walkable as (H1 & H2 & H3).
  split; [exact H0|]. repeat (split; [assumption|]).
  destruct (@url_keeps_index_without_flag (Sample.on_disk ["docs/guide/intro.md"])
              Sample.is_markdown Sample.intro "fr" ["fr"; "en"] "en" "docs" "site"
              None H0) as (Hurl & Hdest).
  destruct (Hdest eq_refl H1 H2 H3) as (f & Hf & Hd).
  - vm_compute. discriminate.
  - exists f. split; [exact Hf|]. pose proof (Hurl f Hf) as Hu.
    vm_compute in Hf. injection Hf as <-. split; [|exact Hu].
    apply Hd; [reflexivity|discriminate].
Defined.

Lemma lookup_agrees_with_contains_witness :
  names_a_file "a.md"
  /\ locale_ok (I18nFiles.locale Sample.two_variants)
  /\ locale_ok (I18nFiles.default_locale Sample.two_variants)
  /\ (forall f, In f (I18nFiles._files Sample.two_variants) -> normalised f)
  /\ I18nFiles.contains Sample.two_variants "a.md" = Ok true
  /\ exists g, I18nFiles.get_file_from_path Sample.two_variants "a.md" = Ok (Some g).
Proof.
  assert (H1 : names_a_file "a.md") by (vm_compute; discriminate).
  assert (H2 : locale_ok (I18nFiles.locale Sample.two_variants))
    by (split; [discriminate|reflexivity]).
  assert (H3 : locale_ok (I18nFiles.default_locale Sample.two_variants))
    by (split; [discriminate|reflexivity]).
  assert (H4 : forall f, In f (I18nFiles._files Sample.two_variants) -> normalised f).
  { intros f [<-|[<-|[]]]; reflexivity. }
  repeat (split; [assumption|]).
  destruct (@lookup_agrees_with_contains Sample.two_variants "a.md" H1 H2 H3)
    as (_ & Hnorm).
  destruct (Hnorm H4) as (Hiff & _).
  assert (Hc : I18nFiles.contains Sample.two_variants "a.md" = Ok true) by reflexivity.
  split; [exact Hc|]. apply Hiff. exact Hc.
Defined.

Lemma unnormalised_member_is_not_found_witness :
  names_a_file "a.md"
  /\ locale_ok (I18nFiles.locale Sample2.unnormalised)
  /\ locale_ok (I18nFiles.default_locale Sample2.unnormalised)
  /\ I18nFiles.contains Sample2.unnormalised "a.md" = Ok true
  /\ I18nFiles.get_file_from_path Sample2.unnormalised "a.md" = Ok None.
Proof.
  assert (H1 : names_a_file "a.md") by (vm_compute; discriminate).
  assert (H2 : locale_ok (I18nFiles.locale Sample2.unnormalised))
    by (split; [discriminate|reflexivity]).
  assert (H3 : locale_ok (I18nFiles.default_locale Sample2.unnormalised))
    by (split; [discriminate|reflexivity]).
  repeat (split; [assumption|]).
  apply (@unnormalised_member_is_not_found Sample2.unnormalised "a.md"
           Sample2.dotted_member H1 H2 H3).
  - reflexivity.
  - intros g [<-|[]]. vm_compute. discriminate.
Defined.

Lemma validated_locales_keep_lookups_total_witness :
  Locale._validate_locale (I18nFiles.locale Sample.two_variants) = Ok tt
  /\ Locale._validate_locale (I18nFiles.default_locale Sample.two_variants) = Ok tt
  /\ names_a_file "guide/intro.md"
  /\ exists b, I18nFiles.contains Sample.two_variants "guide/intro.md" = Ok b.
Proof.
  assert (H1 : Locale._validate_locale (I18nFiles.locale Sample.two_variants) = Ok tt)
    by reflexivity.
  assert (H2 : Locale._validate_locale (I18nFiles.default_locale Sample.two_variants)
               = Ok tt) by reflexivity.
  assert (H3 : names_a_file "guide/intro.md") by (vm_compute; discriminate).
  repeat (split; [assumption|]).
  apply (@validated_locales_keep_lookups_total Sample.two_variants "guide/intro.md"
           H1 H2 H3).
Defined.

Lemma validated_locale_leads_the_url_witness :
  Locale._validate_locale "fr" = Ok tt
  /\ exists f code rest,
       Sample.resolve ["docs/guide/intro.md"; "docs/guide/intro.fr.md"] Sample.intro = Ok f
       /\ locale_code code
       /\ (("fr" = code /\ I18nFile.url f = code ++ "/" ++ rest)
           \/ ("fr" = code ++ String Locale.newline ""
               /\ I18nFile.url f = code ++ "%0A/" ++ rest)).
Proof.
  assert (H1 : Locale._validate_locale "fr" = Ok tt) by reflexivity.
  split; [exact H1|].
  destruct (@validated_locale_leads_the_url
              (Sample.on_disk ["docs/guide/intro.md"; "docs/guide/intro.fr.md"])
              Sample.is_markdown Sample.intro "fr" ["fr"; "en"] "en" "docs" "site"
              (Some true) _ H1 resolve_requested_locale) as (code & rest & Hc & _ & Hu).
  eexists. exists code, rest. split; [exact resolve_requested_locale|]. split; assumption.
Defined.

Lemma lookups_raise_exactly_when_witness :
  ~ names_a_file ""
  /\ I18nFiles.contains Sample.two_variants ""
     = Raise (ValueError "PosixPath('.') has an empty name")
  /\ I18nFiles.get_file_from_path Sample.two_variants ""
     = Raise (ValueError "PosixPath('.') has an empty name")
  /\ ~ exists b, I18nFiles.contains Sample.two_variants "" = Ok b.
Proof.
  assert (H0 : ~ names_a_file "") by (intros H; now apply H).
  destruct (@lookups_raise_exactly_when Sample.two_variants "") as (Hok & _ & Hsame & _).
  assert (Hc : I18nFiles.contains Sample.two_variants ""
               = Raise (ValueError "PosixPath('.') has an empty name")) by reflexivity.
  split; [exact H0|]. split; [exact Hc|]. split; [now apply Hsame|].
  intros Hb. apply Hok in Hb as [Hn _]. now apply H0.
Defined.

Lemma append_covers_every_destination_witness :
  let c := fold_left I18nFiles.append [Sample.french_page; Sample.plain_page]
             Sample2.unnormalised in
  (forall d, In d (dest_paths (I18nFiles._files c))
             <-> In d ["a/index.html"] \/ In d ["a.fr/index.html"; "a/index.html"])
  /\ List.length (I18nFiles._files c) = 2.
Proof.
  destruct (@append_covers_every_destination Sample2.unnormalised
              [Sample.french_page; Sample.plain_page]) as (Hd & _).
  split; [exact Hd|reflexivity].
Defined.

Lemma locale_candidate_is_a_variant_witness :
  names_a_file "guide/intro.md" /\ is_relative "guide/intro.md"
  /\ plain_name "guide/intro.md"
  /\ I18nFile.suffix "guide/intro.md" <> ""
  /\ In "fr" ["fr"; "en"]
  /\ I18nFile._is_localized_for ["fr"; "en"] "guide/intro.fr.md" <> None
  /\ logical_stem ["fr"; "en"] "guide/intro.fr.md" = logical_stem ["fr"; "en"] "guide/intro.md".
Proof.
  destruct intro_is_walkable as (H1 & H2 & H3).
  assert (H4 : I18nFile.suffix "guide/intro.md" <> "") by discriminate.
  assert (H5 : In "fr" ["fr"; "en"]) by now left.
  repeat (split; [assumption|]).
  destruct (@locale_candidate_is_a_variant ["fr"; "en"] "guide/intro.md" "fr" H1 H2 H3 H4 H5)
    as (_ & _ & _ & _ & Hloc & Hls & _).
  - discriminate.
  - reflexivity.
  - reflexivity.
  - split; [exact Hloc|exact Hls].
Defined.

Lemma nameless_source_is_rejected_witness :
  ~ names_a_file ""
  /\ Sample.resolve ["docs/index.md"] (Sample.discovered "" "")
     = Raise (ValueError "PosixPath('.') has an empty name")
  /\ Sample.resolve [] (Sample.discovered "" "")
     = Raise (ValueError "PosixPath('.') has an empty name").
Proof.
  assert (H0 : ~ names_a_file "") by (intros H; now apply H).
  split; [exact H0|]. split.
  - destruct (@nameless_source_is_rejected (Sample.on_disk ["docs/index.md"])
                Sample.is_markdown (Sample.discovered "" "") "fr" ["fr"; "en"] "en"
                "docs" "site" (Some true)) as (Hraise & _).
    exact (Hraise H0).
  - destruct (@nameless_source_is_rejected (Sample.on_disk [])
                Sample.is_markdown (Sample.discovered "" "") "fr" ["fr"; "en"] "en"
                "docs" "site" (Some true)) as (Hraise & _).
    exact (Hraise H0).
Defined.
